(** * Session-aware request broker of [rest::ServerConnection]

    A shallow embedding of the session handling code of
    [vms/libs/nx_vms_common/src/api/server_rest_connection.cpp]:
    the expiry classifier ([isSessionExpiredError], [getError]), the JSON-RPC
    batch reconciler ([extractJsonRpcExpired], [mergeJsonRpcResults]), the
    reauthorization arbitrator and resend tracker
    ([makeSessionAwareCallbackInternal]), [cancelRequest], [updateCredentials]
    and request preparation ([prepareRequest] and the send operations built
    on it).

    State.  The broker's private data is the record [Private]; the
    [ReissuedToken] objects that it shares with the contexts of its requests
    through [std::shared_ptr] live in an explicit store, and a pointer is an
    index in it.  A closure is a record of its captures together with the
    function that runs its body.  What the broker does to its collaborators
    is recorded in the state: the calls given to the transport and the calls
    terminated, the [refreshToken] calls, the invocations of the issuers'
    callbacks.

    Scheduling.  Every function of the source runs in one thread at a time
    and the model is sequential: a function handed to [executeInThread] runs
    where it is handed over, which is what [executeInThread] does when the
    target thread is the current one.  [refreshToken] may run an event loop
    of its own; it is a parameter of the handlers, and an event carries the
    events that this inner loop handles.

    Undefined behaviour.  A handler returns [None] where the source
    dereferences an empty [std::optional] or a null pointer, or reads the
    error of an [expected] that holds a value.

    Replies.  A completion event carries the success flag and the result
    that the callback of [executeRequest] receives.  For the results of type
    [ErrorOrData<T>], [executeRequest_completion] computes both from the
    reply, with [parseMessageBody] and [deserialize].

    Outside the model: timeouts, logging and metrics. *)

From Stdlib Require Import ZArith List String Bool Lia.
From stdpp Require Import gmap strings list pretty.
Import ListNotations.

Local Open Scope Z_scope.

(** ** Basic data *)

(** [rest::Handle]; [Handle()] is the null handle. *)
Abbreviation Handle := Z.
Abbreviation Uuid := Z.
(** A serialized JSON value (a [rapidjson] value, a message body). *)
Abbreviation Json := string.

Definition nullHandle : Handle := 0.

(** [nx::network::rest::ErrorId].  The enumeration is declared outside this
    file; the enumerators named by the source are kept and every other one is
    [other n]. *)
Module ErrorId.

Inductive t : Type :=
| ok
| sessionExpired
| sessionRequired
| notImplemented
| other (code : nat).

#[global] Instance eq_dec : EqDecision t.
Proof. solve_decision. Defined.

End ErrorId.

(** [nx::network::rest::Result]: the error envelope of a server reply. *)
Record RestResult : Type := mkRestResult {
  errorId : ErrorId.t;
  errorString : string
}.

#[global] Instance RestResult_eq_dec : EqDecision RestResult.
Proof. solve_decision. Defined.

(** [nx::network::http::AuthToken]: only the token kind is inspected by the
    broker ([isBearerToken]); the value is opaque. *)
Inductive AuthTokenType : Type := TokenNone | TokenPassword | TokenHa1 | TokenBearer.

Record AuthToken : Type := mkAuthToken {
  tokenType : AuthTokenType;
  tokenValue : string
}.

Definition isBearerToken (t : AuthToken) : bool :=
  match tokenType t with TokenBearer => true | _ => false end.

Record Credentials : Type := mkCredentials {
  username : string;
  authToken : AuthToken
}.

(** [nx::utils::expected<T, rest::Result>]. *)
Inductive ErrorOrData (T : Type) : Type :=
| Unexpected (error : RestResult)
| Data (value : T).
Arguments Unexpected {T} error.
Arguments Data {T} value.

(** ** JSON-RPC messages *)

(** [std::variant<QString, int>], the identifier of a request. *)
Inductive RequestId : Type :=
| ReqString (s : string)
| ReqInt (n : Z).

(** [std::variant<QString, int, std::nullptr_t>], the identifier of a
    response. *)
Inductive ResponseId : Type :=
| IdString (s : string)
| IdInt (n : Z)
| IdNull.

#[global] Instance RequestId_eq_dec : EqDecision RequestId.
Proof. solve_decision. Defined.
#[global] Instance ResponseId_eq_dec : EqDecision ResponseId.
Proof. solve_decision. Defined.

#[global] Instance RequestId_countable : Countable RequestId :=
  inj_countable'
    (λ i, match i with ReqString s => inl s | ReqInt n => inr n end)
    (λ x, match x with inl s => ReqString s | inr n => ReqInt n end)
    (λ i, match i with ReqString _ | ReqInt _ => eq_refl end).

#[global] Instance ResponseId_countable : Countable ResponseId :=
  inj_countable'
    (λ i, match i with
          | IdString s => inl s | IdInt n => inr (inl n) | IdNull => inr (inr ()) end)
    (λ x, match x with
          | inl s => IdString s | inr (inl n) => IdInt n | inr (inr _) => IdNull end)
    (λ i, match i with IdString _ | IdInt _ | IdNull => eq_refl end).

(** [decltype(JsonRpcRequest::id)]: the identifier is optional (a
    notification has none). *)
Abbreviation JsonRpcRequestIdType := (option RequestId).
Abbreviation JsonRpcResponseIdType := ResponseId.

Record JsonRpcRequest : Type := mkJsonRpcRequest {
  req_id : JsonRpcRequestIdType;
  req_method : string;
  req_params : option Json
}.

(** [nx::json_rpc::Error::Code]; only [applicationError] is named here. *)
Inductive JsonRpcCode : Type :=
| applicationError
| otherCode (n : Z).

Record JsonRpcError : Type := mkJsonRpcError {
  err_code : JsonRpcCode;
  err_message : string;
  err_data : option Json
}.

Record JsonRpcResponse : Type := mkJsonRpcResponse {
  id : JsonRpcResponseIdType;
  result : option Json;
  error : option JsonRpcError
}.

#[global] Instance JsonRpcCode_eq_dec : EqDecision JsonRpcCode.
Proof. solve_decision. Defined.
#[global] Instance JsonRpcError_eq_dec : EqDecision JsonRpcError.
Proof. solve_decision. Defined.
#[global] Instance JsonRpcResponse_eq_dec : EqDecision JsonRpcResponse.
Proof. solve_decision. Defined.

(** [rest::JsonRpcResultType]:
    [std::variant<Response, std::vector<Response>>]. *)
Inductive JsonRpcResultType : Type :=
| SingleResponse (r : JsonRpcResponse)
| ResponseArray (rs : list JsonRpcResponse).

(** ** Expiry classifier and batch reconciler *)

(** Sample (de)serializers used to run the definitions on concrete inputs:
    a body or value is read as a [rest::Result] when it is one of two fixed
    documents. *)
Definition sampleDeserialize (json : Json) : option RestResult :=
  if String.eqb json "{expired}" then Some (mkRestResult ErrorId.sessionExpired "expired")
  else if String.eqb json "{required}" then Some (mkRestResult ErrorId.sessionRequired "required")
  else if String.eqb json "{forbidden}" then Some (mkRestResult (ErrorId.other 4) "forbidden")
  else None.

Definition sampleSerializeResult (r : RestResult) : Json :=
  match errorId r with
  | ErrorId.sessionExpired => "{expired}"
  | ErrorId.sessionRequired => "{required}"
  | _ => "{forbidden}"
  end%string.

Definition sampleIdText (i : JsonRpcRequestIdType) : string :=
  match i with
  | Some (ReqString s) => s
  | Some (ReqInt 1) => "1"
  | Some (ReqInt 2) => "2"
  | Some (ReqInt 3) => "3"
  | Some (ReqInt _) => "n"
  | None => "-"
  end%string.

Definition sampleSerializeRequests (rs : list JsonRpcRequest) : Json :=
  String.concat "," (map (λ r, sampleIdText (req_id r)) rs).

Definition sampleToSimpleString (u : Uuid) : string := "{uuid}".

Definition sampleToLower (s : string) : string := s.

Section Broker.

(** The serializers live outside this file; the broker is verified for
    arbitrary ones. *)
(** [QJson::deserialize(body, &result)] on a [rest::Result]. *)
Variable QJson_deserialize : string → option RestResult.
(** [nx::reflect::json::deserialize] of a JSON value into a [rest::Result]. *)
Variable reflect_deserialize : Json → option RestResult.
(** The JSON value built from a [rest::Result] by [Response::makeError]. *)
Variable reflect_serializeResult : RestResult → Json.
(** [nx::reflect::json::serialize] of a vector of JSON-RPC requests. *)
Variable reflect_serialize : list JsonRpcRequest → Json.
(** [nx::Uuid::toSimpleStdString] and [QString::toLower]. *)
Variable toSimpleString : Uuid → string.
Variable toLower : string → string.

(** [isSessionExpiredError(nx::network::rest::ErrorId)]. *)
Definition isSessionExpiredError (code : ErrorId.t) : bool :=
  bool_decide (code = ErrorId.sessionExpired)
  || bool_decide (code = ErrorId.sessionRequired).

(** [isSessionExpiredError(const nx::json_rpc::Response&)]. *)
Definition isSessionExpiredErrorResponse (response : JsonRpcResponse) : bool :=
  match error response with
  | None => false
  | Some e =>
      match err_data e with
      | None => false
      | Some data =>
          match reflect_deserialize data with
          | None => false
          | Some result => isSessionExpiredError (errorId result)
          end
      end
  end.

(** [nx::json_rpc::Response::makeError(id, code, message, data)].  The
    function is declared outside this file: it builds an error response for
    [id] without a result, whose error carries the code, the message and the
    serialized data. *)
Definition makeError (i : ResponseId) (code : JsonRpcCode) (message : string)
    (data : RestResult) : JsonRpcResponse :=
  {| id := i;
     result := None;
     error := Some {| err_code := code;
                      err_message := message;
                      err_data := Some (reflect_serializeResult data) |} |}.

(** One iteration of the loop of [extractJsonRpcExpired]. *)
Definition insertExpired (ids : gset JsonRpcRequestIdType) (response : JsonRpcResponse)
    : gset JsonRpcRequestIdType :=
  if isSessionExpiredErrorResponse response then
    match id response with
    | IdInt intId => {[ Some (ReqInt intId) ]} ∪ ids
    | IdString strId => {[ Some (ReqString strId) ]} ∪ ids
    | IdNull => ids
    end
  else ids.

Definition extractJsonRpcExpired (result : ErrorOrData JsonRpcResultType)
    : gset JsonRpcRequestIdType * list JsonRpcResponse :=
  match result with
  | Unexpected _ => (∅, [])
  | Data (SingleResponse _) => (∅, [])
  | Data (ResponseArray responseArray) =>
      (foldl insertExpired ∅ responseArray, responseArray)
  end.

(** [idToResponse.insert({response.id, &response})] for the responses with a
    non-null id: [std::unordered_map::insert] keeps an existing entry. *)
Definition insertResponse (idToResponse : gmap ResponseId JsonRpcResponse)
    (response : JsonRpcResponse) : gmap ResponseId JsonRpcResponse :=
  if bool_decide (id response = IdNull) then idToResponse
  else match idToResponse !! id response with
       | Some _ => idToResponse
       | None => <[ id response := response ]> idToResponse
       end.

(** [mergeJsonRpcResults]: the returned list is [originalResponse] after
    the call (it is updated in place through the reference). *)
Definition mergeJsonRpcResults (originalResponse : list JsonRpcResponse)
    (result : ErrorOrData JsonRpcResultType) : bool * list JsonRpcResponse :=
  match result with
  | Unexpected error =>
      (true,
       map (λ response,
              if isSessionExpiredErrorResponse response
              then makeError (id response) applicationError (errorString error) error
              else response)
           originalResponse)
  | Data (SingleResponse singleError) =>
      (true,
       map (λ response,
              if isSessionExpiredErrorResponse response
              then {| id := id response; result := None; error := error singleError |}
              else response)
           originalResponse)
  | Data (ResponseArray responseArray) =>
      let idToResponse := foldl insertResponse ∅ responseArray in
      (true,
       map (λ response,
              match idToResponse !! id response with
              | Some replacement => replacement
              | None => response
              end)
           originalResponse)
  end.


(** ** Requests, the transport and the broker state *)

Inductive Method : Type := get | post | put | patch | delete_.

(** [nx::utils::Url] as far as request preparation sets it. *)
Record Url : Type := mkUrl {
  scheme : string;
  host : string;
  port : option Z;
  path : string;
  query : string
}.

Definition emptyUrl : Url :=
  {| scheme := ""; host := ""; port := None; path := ""; query := "" |}.

Record SocketAddress : Type := mkSocketAddress {
  addr_host : string;
  addr_port : Z
}.

(** [nx::network::http::ClientPool::Request].  A default-constructed
    request has no method, an empty URL and no credentials. *)
Record Request : Type := mkRequest {
  method : option Method;
  url : Url;
  headers : list (string * string);
  contentType : string;
  messageBody : string;
  credentials : option Credentials;
  gatewayId : option Uuid
}.

Definition defaultRequest : Request :=
  {| method := None; url := emptyUrl; headers := []; contentType := "";
     messageBody := ""; credentials := None; gatewayId := None |}.

(** Modelled from the spec: [ClientPool::Request::isValid] is declared
    outside this file.  The spec calls the default-constructed request the
    explicit unpreparable result; a request is valid when it has a method
    and its URL has a host. *)
Definition isValid (r : Request) : bool :=
  match method r with
  | None => false
  | Some _ => negb (String.eqb (host (url r)) "")
  end.

(** What a completed call hands to the callback given to [executeRequest],
    after the success flag and the handle: the three instances of the
    callback template that the session-aware wrapper is built for. *)
Inductive CallbackResult : Type :=
| GenericResult (r : ErrorOrData Json)
    (** [Callback<ResultType>] with [ResultType = ErrorOrData<T>] *)
| BytesResult (body : string) (hdrs : list (string * string))
    (** [Result<QByteArray>::type]: the raw body and the headers *)
| JsonRpcResult (r : ErrorOrData JsonRpcResultType).
    (** [ResultType = ErrorOrData<JsonRpcResultType>] *)

(** What an issuer's callback is finally called with. *)
Inductive Payload : Type :=
| PayloadResult (r : CallbackResult)
| PayloadBatch (responses : list JsonRpcResponse).

(** One invocation of an issuer's callback [issuer]. *)
Record Delivery : Type := mkDelivery {
  dlv_issuer : nat;
  dlv_success : bool;
  dlv_handle : Handle;
  dlv_payload : Payload
}.

(** The callbacks a context can hold: an issuer's function, or
    [jsonRpcBatchCall]'s [internalCallback] around an issuer's function. *)
Inductive Callback : Type :=
| IssuerCallback (issuer : nat)
| BatchInternalCallback (issuer : nat).

(** [InteractionContext] of [makeSessionAwareCallbackInternal], with the
    three fields of [WithDataForType<ErrorOrData<JsonRpcResultType>>] (empty
    for the other instances).  [ptr] is the broker itself, see [alive];
    [helper] names the credential source. *)
Record InteractionContext : Type := mkInteractionContext {
  helper : nat;
  ctx_reissuedToken : nat;
  request : Request;
  callback : option Callback;
  expiredIds : gset JsonRpcRequestIdType;
  originalResponse : list JsonRpcResponse;
  requestData : list JsonRpcRequest
}.

(** The closure [retry] ([Private::ResendRequestFunc]): its captures. *)
Record ResendRequestFunc : Type := mkResendRequestFunc {
  rr_ctx : InteractionContext;
  rr_handle : Handle;
  rr_success : bool;
  rr_result : CallbackResult
}.

(** The function a call in flight completes with. *)
Inductive CompletionFunc : Type :=
| SessionAwareCallback (ctx : InteractionContext)
    (** the lambda returned by [makeSessionAwareCallbackInternal] *)
| FixedCallback (ctx : InteractionContext) (originalHandle : Handle)
    (** [fixedCallback] of a resend *)
| PlainCallback (cb : option Callback).
    (** a callback passed to [executeRequest] as it is *)

(** Modelled from the spec: the transport ([ClientPool]) is outside this
    file.  [sendRequest] returns a fresh handle and keeps the call in flight
    until it completes or is terminated; completion is delivered once, after
    [sendRequest] has returned.  [sent] records every call with its handle
    and the completion function given for it. *)
Record ClientPool : Type := mkClientPool {
  nextHandle : Handle;
  inFlight : gmap Z (Request * CompletionFunc);
  sent : list (Handle * Request * CompletionFunc);
  terminated : list Handle
}.

Definition pool_sendRequest (request : Request) (completion : CompletionFunc)
    (p : ClientPool) : Handle * ClientPool :=
  (nextHandle p,
   {| nextHandle := nextHandle p + 1;
      inFlight := <[ nextHandle p := (request, completion) ]> (inFlight p);
      sent := sent p ++ [(nextHandle p, request, completion)];
      terminated := terminated p |}).

Definition pool_terminate (h : Handle) (p : ClientPool) : ClientPool :=
  {| nextHandle := nextHandle p;
     inFlight := delete h (inFlight p);
     sent := sent p;
     terminated := terminated p ++ [h] |}.

Definition pool_complete (h : Handle) (p : ClientPool) : ClientPool :=
  {| nextHandle := nextHandle p;
     inFlight := delete h (inFlight p);
     sent := sent p;
     terminated := terminated p |}.

(** [Private::ReissuedToken]. *)
Record ReissuedToken : Type := mkReissuedToken {
  m_isSet : bool;
  m_value : option AuthToken
}.

Definition newReissuedToken : ReissuedToken :=
  {| m_isSet := false; m_value := None |}.

Definition hasValue (t : ReissuedToken) : bool := m_isSet t.

Definition value (t : ReissuedToken) : option AuthToken := m_value t.

Definition setValue (v : option AuthToken) (t : ReissuedToken) : ReissuedToken :=
  {| m_isSet := true; m_value := v |}.

(** [Private::DirectConnect]; [certificateVerifier] tells whether the
    [QPointer] is non-null. *)
Record DirectConnect : Type := mkDirectConnect {
  certificateVerifier : bool;
  address : SocketAddress;
  dc_credentials : Credentials
}.

(** The parts of the system context that [setupAuth] and [sendRequest]
    read. *)
Record MediaServer : Type := mkMediaServer {
  srv_apiUrl : Url;
  srv_url : Url;
  srv_credentials : Credentials;
  route_reverseConnect : bool;
  route_addr : option SocketAddress;
  route_gatewayId : Uuid
}.

Record MessageBusConnection : Type := mkMessageBusConnection {
  conn_address : SocketAddress;
  conn_credentials : Credentials
}.

Record SystemContext : Type := mkSystemContext {
  servers : gmap Z MediaServer;
  users : gmap Z string;
  messageBusConnection : option MessageBusConnection;
  peerId : Uuid;
  ctx_certificateVerifier : bool
}.

(** [nx::vms::common::appContext()] and the translation manager. *)
Record AppContext : Type := mkAppContext {
  localPeerIsClient : bool;
  threadLocale : string;
  appLocale : string
}.

(** [ServerConnection::Private] without the constant identifiers of logging
    and certificate caching; [reissuedToken] is the index of the shared
    [ReissuedToken] in the store. *)
Record Private : Type := mkPrivate {
  systemContext : option SystemContext;
  auditId : Uuid;
  serverId : Uuid;
  userId : Uuid;
  directConnect : option DirectConnect;
  storedRequests : list ResendRequestFunc;
  substitutions : gmap Z Z;
  reissuedToken : nat
}.

(** The broker and what surrounds it. *)
Record World : Type := mkWorld {
  alive : bool;                       (** the [ServerConnection] exists *)
  d : Private;
  tokens : list ReissuedToken;        (** every [ReissuedToken] allocated *)
  pool : ClientPool;
  app : AppContext;
  refreshCalls : list nat;            (** helpers whose [refreshToken] ran *)
  delivered : list Delivery           (** issuer callbacks invoked *)
}.


(** *** Field updates *)

Definition setStoredRequests (q : list ResendRequestFunc) (p : Private) : Private :=
  {| systemContext := systemContext p; auditId := auditId p; serverId := serverId p;
     userId := userId p; directConnect := directConnect p;
     storedRequests := q; substitutions := substitutions p;
     reissuedToken := reissuedToken p |}.

Definition setSubstitutions (m : gmap Z Z) (p : Private) : Private :=
  {| systemContext := systemContext p; auditId := auditId p; serverId := serverId p;
     userId := userId p; directConnect := directConnect p;
     storedRequests := storedRequests p; substitutions := m;
     reissuedToken := reissuedToken p |}.

Definition setReissuedToken (c : nat) (p : Private) : Private :=
  {| systemContext := systemContext p; auditId := auditId p; serverId := serverId p;
     userId := userId p; directConnect := directConnect p;
     storedRequests := storedRequests p; substitutions := substitutions p;
     reissuedToken := c |}.

Definition setDirectConnect (dc : option DirectConnect) (p : Private) : Private :=
  {| systemContext := systemContext p; auditId := auditId p; serverId := serverId p;
     userId := userId p; directConnect := dc;
     storedRequests := storedRequests p; substitutions := substitutions p;
     reissuedToken := reissuedToken p |}.

Definition setD (p : Private) (w : World) : World :=
  {| alive := alive w; d := p; tokens := tokens w; pool := pool w; app := app w;
     refreshCalls := refreshCalls w; delivered := delivered w |}.

Definition setTokens (ts : list ReissuedToken) (w : World) : World :=
  {| alive := alive w; d := d w; tokens := ts; pool := pool w; app := app w;
     refreshCalls := refreshCalls w; delivered := delivered w |}.

Definition setPool (p : ClientPool) (w : World) : World :=
  {| alive := alive w; d := d w; tokens := tokens w; pool := p; app := app w;
     refreshCalls := refreshCalls w; delivered := delivered w |}.

Definition setAlive (b : bool) (w : World) : World :=
  {| alive := b; d := d w; tokens := tokens w; pool := pool w; app := app w;
     refreshCalls := refreshCalls w; delivered := delivered w |}.

Definition logRefresh (h : nat) (w : World) : World :=
  {| alive := alive w; d := d w; tokens := tokens w; pool := pool w; app := app w;
     refreshCalls := refreshCalls w ++ [h]; delivered := delivered w |}.

Definition deliver (issuer : nat) (success : bool) (handle : Handle) (p : Payload)
    (w : World) : World :=
  {| alive := alive w; d := d w; tokens := tokens w; pool := pool w; app := app w;
     refreshCalls := refreshCalls w;
     delivered := delivered w ++ [mkDelivery issuer success handle p] |}.

Definition setCredentials (c : option Credentials) (r : Request) : Request :=
  {| method := method r; url := url r; headers := headers r;
     contentType := contentType r; messageBody := messageBody r;
     credentials := c; gatewayId := gatewayId r |}.

Definition setMessageBody (b : string) (r : Request) : Request :=
  {| method := method r; url := url r; headers := headers r;
     contentType := contentType r; messageBody := b;
     credentials := credentials r; gatewayId := gatewayId r |}.

Definition setUrl (u : Url) (r : Request) : Request :=
  {| method := method r; url := u; headers := headers r;
     contentType := contentType r; messageBody := messageBody r;
     credentials := credentials r; gatewayId := gatewayId r |}.

Definition setHeaders (h : list (string * string)) (r : Request) : Request :=
  {| method := method r; url := url r; headers := h;
     contentType := contentType r; messageBody := messageBody r;
     credentials := credentials r; gatewayId := gatewayId r |}.

Definition setGatewayId (g : option Uuid) (r : Request) : Request :=
  {| method := method r; url := url r; headers := headers r;
     contentType := contentType r; messageBody := messageBody r;
     credentials := credentials r; gatewayId := g |}.

(** [request.headers.emplace(name, value)].  [HttpHeaders] is an associative
    container, iterated by name: the list holds its entries in the order in
    which they were added, and the position of a header in it stands for
    nothing in the source. *)
Definition emplaceHeader (name val : string) (r : Request) : Request :=
  setHeaders (headers r ++ [(name, val)]) r.

Definition setHost (h : string) (u : Url) : Url :=
  {| scheme := scheme u; host := h; port := port u; path := path u; query := query u |}.

Definition setPort (p : Z) (u : Url) : Url :=
  {| scheme := scheme u; host := host u; port := Some p; path := path u; query := query u |}.

Definition setPathQuery (p q : string) (u : Url) : Url :=
  {| scheme := scheme u; host := host u; port := port u; path := p; query := q |}.

Definition setAuthToken (t : AuthToken) (c : Credentials) : Credentials :=
  {| username := username c; authToken := t |}.

Definition setContexExpired (ids : gset JsonRpcRequestIdType)
    (orig : list JsonRpcResponse) (ctx : InteractionContext) : InteractionContext :=
  {| helper := helper ctx; ctx_reissuedToken := ctx_reissuedToken ctx;
     request := request ctx; callback := callback ctx;
     expiredIds := ids; originalResponse := orig; requestData := requestData ctx |}.

(** ** Request preparation *)

(** Header names of [nx/network/http/custom_headers.h]. *)
Definition EC2_RUNTIME_GUID_HEADER_NAME : string := "X-runtime-guid".
Definition SERVER_GUID_HEADER_NAME : string := "X-server-guid".
Definition CUSTOM_USERNAME_HEADER_NAME : string := "X-Nx-User-Name".
Definition kAcceptLanguage : string := "Accept-Language".
Definition kSecureUrlSchemeName : string := "https".
Definition kJsonContentType : string := "application/json".
Definition kJsonRpcPath : string := "/jsonrpc".

(** [proxyRequestUsingServer]: [insertOrReplaceHeader]. *)
Definition proxyRequestUsingServer (request : Request) (proxyServerId : Uuid) : Request :=
  setHeaders
    (filter (λ h, negb (String.eqb (fst h) SERVER_GUID_HEADER_NAME)) (headers request)
       ++ [(SERVER_GUID_HEADER_NAME, toSimpleString proxyServerId)])
    request.

(** [setupAuthDirect]. *)
Definition setupAuthDirect (request : Request) (auditId : Uuid) (address : SocketAddress)
    (credentials : Credentials) (path query : string) : Request :=
  let request :=
    setUrl {| scheme := kSecureUrlSchemeName; host := addr_host address;
              port := Some (addr_port address); path := path; query := query |} request in
  let request := setCredentials (Some credentials) request in
  let request :=
    emplaceHeader EC2_RUNTIME_GUID_HEADER_NAME (toSimpleString auditId) request in
  emplaceHeader CUSTOM_USERNAME_HEADER_NAME (toLower (username credentials)) request.

(** The routing block of [setupAuth]; [None] is its [return false]. *)
Definition setupRoute (sc : SystemContext) (ac : AppContext) (server : MediaServer)
    (request : Request) : option Request :=
  if route_reverseConnect server then
    if localPeerIsClient ac then
      match messageBusConnection sc with
      | None => None
      | Some connection =>
          let address := conn_address connection in
          let u := setHost (addr_host address) (url request) in
          (* [(int16_t) address.port != -1] *)
          let u := if addr_port address =? 65535 then u else setPort (addr_port address) u in
          Some (setUrl u request)
      end
    else
      let u := setHost "127.0.0.1" (url request) in
      let u :=
        match servers sc !! peerId sc with
        | Some currentServer =>
            match port (srv_url currentServer) with
            | Some p => if 0 <? p then setPort p u else u
            | None => u
            end
        | None => u
        end in
      Some (setUrl u request)
  else
    match route_addr server with
    | Some addr =>
        Some (setUrl (setPort (addr_port addr) (setHost (addr_host addr) (url request)))
                request)
    | None => Some request
    end.

(** [setupAuth]: the flag it returns and the request as it leaves it. *)
Definition setupAuth (systemContext : option SystemContext) (auditId serverId : Uuid)
    (ac : AppContext) (request : Request) (url : Url) (userId : Uuid) : bool * Request :=
  match systemContext with
  | None => (false, request)
  | Some sc =>
      match servers sc !! serverId with
      | None => (false, request)
      | Some server =>
          let request :=
            setUrl (setPathQuery (path url) (query url) (srv_apiUrl server)) request in
          let request :=
            emplaceHeader EC2_RUNTIME_GUID_HEADER_NAME (toSimpleString auditId) request in
          match setupRoute sc ac server request with
          | None => (false, request)
          | Some request =>
              match messageBusConnection sc with
              | None => (false, request)
              | Some connection =>
                  let request :=
                    emplaceHeader SERVER_GUID_HEADER_NAME (toSimpleString serverId) request in
                  (* [getRequestCredentials] *)
                  let creds :=
                    if localPeerIsClient ac then conn_credentials connection
                    else srv_credentials server in
                  let request := setCredentials (Some creds) request in
                  let userName :=
                    if userId =? 0 then username creds
                    else match users sc !! userId with
                         | Some name => name
                         | None => ""%string
                         end in
                  let request :=
                    if String.eqb userName "" then request
                    else emplaceHeader CUSTOM_USERNAME_HEADER_NAME (toLower userName) request in
                  let request :=
                    if route_gatewayId server =? 0 then request
                    else setGatewayId (Some (route_gatewayId server)) request in
                  (true, request)
              end
          end
      end
  end.

(** [ServerConnection::prepareRequest]. *)
Definition prepareRequest (w : World) (aMethod : Method) (aUrl : Url)
    (aContentType aMessageBody : string) : Request :=
  let request := defaultRequest in
  let '(authIsSet, request) :=
    match directConnect (d w) with
    | Some dc =>
        (true,
         setupAuthDirect request (auditId (d w)) (address dc) (dc_credentials dc)
           (path aUrl) (query aUrl))
    | None =>
        setupAuth (systemContext (d w)) (auditId (d w)) (serverId (d w)) (app w)
          request aUrl (userId (d w))
    end in
  if negb authIsSet then defaultRequest
  else
    let locale :=
      if String.eqb (threadLocale (app w)) "" then appLocale (app w)
      else threadLocale (app w) in
    emplaceHeader kAcceptLanguage locale
      {| method := Some aMethod; url := url request; headers := headers request;
         contentType := aContentType; messageBody := aMessageBody;
         credentials := credentials request; gatewayId := gatewayId request |}.


(** ** Dispatch *)

(** Modelled from the spec: [ClientPool::Context::isFinished] is declared
    outside this file.  A call is finished when it is no longer in the pool.
    [sendRequest(context)] reads it right after the pool's [sendRequest]; the
    transport of the spec returns an in-flight handle and delivers the
    completion later, so with the pool of [ClientPool] the test is false
    there (lemma [pool_sendRequest_isFinished]), while the source provides
    for a call that is complete when the pool's [sendRequest] returns. *)
Definition context_isFinished (requestId : Handle) (p : ClientPool) : bool :=
  bool_decide (inFlight p !! requestId = None).

(** [ServerConnection::sendRequest(request, callback, executor, timeouts)]
    followed by [sendRequest(context)].  [None] is the dereference of a null
    [systemContext]; a null certificate verifier returns the null handle, and
    so does a call whose handle is null or which is finished when the pool's
    [sendRequest] returns. *)
Definition sendRequest (request : Request) (completion : CompletionFunc) (w : World)
    : option (Handle * World) :=
  verifier ←
    match directConnect (d w) with
    | Some dc => Some (certificateVerifier dc)
    | None => ctx_certificateVerifier <$> systemContext (d w)
    end;
  if negb (verifier : bool) then Some (0, w)
  else
    let '(requestId, p) := pool_sendRequest request completion (pool w) in
    Some (if (requestId =? 0) || context_isFinished requestId p then 0 else requestId,
          setPool p w).

(** [ServerConnection::executeRequest]: the callback is wrapped in a
    function that parses the reply and then calls it with the success flag,
    the handle of the call and the parsed result; the wrapped callback is
    what the pool keeps. *)
Definition executeRequest (request : Request) (callback : CompletionFunc) (w : World)
    : option (Handle * World) :=
  sendRequest request callback w.

(** [internalCallback] of [jsonRpcBatchCall] around the issuer's callback. *)
Definition internalCallback (issuer : nat) (success : bool) (requestId : Handle)
    (r : ErrorOrData JsonRpcResultType) (w : World) : World :=
  if success then
    match r with
    | Data (ResponseArray responseArray) =>
        deliver issuer success requestId (PayloadBatch responseArray) w
    | _ => w
    end
  else
    match r with
    | Unexpected e =>
        deliver issuer success requestId
          (PayloadBatch [makeError IdNull applicationError (errorString e) e]) w
    | Data (SingleResponse singleResponse) =>
        deliver issuer success requestId (PayloadBatch [singleResponse]) w
    | Data (ResponseArray _) => w
    end.

(** Calling a callback.  [internalCallback] only exists for the JSON-RPC
    instance; the other combination is not typable in the source. *)
Definition invoke (cb : Callback) (success : bool) (handle : Handle)
    (r : CallbackResult) (w : World) : World :=
  match cb with
  | IssuerCallback issuer => deliver issuer success handle (PayloadResult r) w
  | BatchInternalCallback issuer =>
      match r with
      | JsonRpcResult r' => internalCallback issuer success handle r' w
      | _ => w
      end
  end.

(** [if (ctx->callback) ctx->callback(success, handle, result...)]. *)
Definition invokeIfSet (cb : option Callback) (success : bool) (handle : Handle)
    (r : CallbackResult) (w : World) : World :=
  match cb with
  | Some c => invoke c success handle r w
  | None => w
  end.

(** ** The session-aware callback *)

(** [getError]: the template reads [result.error().errorId], which is
    undefined ([None]) on a result that holds a value; the overload for a raw
    body deserializes it. *)
Definition getError (r : CallbackResult) : option ErrorId.t :=
  match r with
  | GenericResult (Unexpected e) => Some (errorId e)
  | GenericResult (Data _) => None
  | JsonRpcResult (Unexpected e) => Some (errorId e)
  | JsonRpcResult (Data _) => None
  | BytesResult body _ =>
      Some (match QJson_deserialize body with
            | Some res => errorId res
            | None => ErrorId.ok
            end)
  end.

(** The context after the classification: the JSON-RPC instance stores the
    expired ids and the original response of a successful call. *)
Definition recordExpired (ctx : InteractionContext) (success : bool) (r : CallbackResult)
    : InteractionContext :=
  if success then
    match r with
    | JsonRpcResult r' =>
        let '(ids, orig) := extractJsonRpcExpired r' in setContexExpired ids orig ctx
    | _ => ctx
    end
  else ctx.

(** The value of [requestNewSession] when the classification is done. *)
Definition requestNewSession (success : bool) (r : CallbackResult) : option bool :=
  if success then
    Some match r with
         | JsonRpcResult r' =>
             negb (bool_decide (fst (extractJsonRpcExpired r') = ∅))
         | _ => false
         end
  else
    err ← getError r;
    Some (if bool_decide (err ≠ ErrorId.ok) then isSessionExpiredError err else false).

(** [fixedCallback]: the callback of the resend.  The removal of the
    substitution is posted to the interaction thread and the issuer is called
    from the target thread; the model runs both where they are posted. *)
Definition fixedCallback (ctx : InteractionContext) (originalHandle : Handle)
    (success : bool) (handle : Handle) (r : CallbackResult) (w : World) : World :=
  if negb (alive w) then w
  else
    let w :=
      setD (setSubstitutions (delete originalHandle (substitutions (d w))) (d w)) w in
    match r, callback ctx with
    | JsonRpcResult r', Some cb =>
        let '(merged, originalResponse') :=
          mergeJsonRpcResults (originalResponse ctx) r' in
        if merged then
          let jsonRpcSuccess := true in
          invoke cb jsonRpcSuccess originalHandle
            (JsonRpcResult (Data (ResponseArray originalResponse'))) w
        else invoke cb success originalHandle r w
    | _, cb => invokeIfSet cb success originalHandle r w
    end.

(** The body of the closure [retry].  [None] is the dereference of empty
    credentials of the stored request. *)
Definition retry (f : ResendRequestFunc) (token : option AuthToken) (w : World)
    : option World :=
  let ctx := rr_ctx f in
  if negb (alive w) then Some w
  else
    match token with
    | None =>
        (* Token was not updated. Process the original callback. *)
        Some (invokeIfSet (callback ctx) (rr_success f) (rr_handle f) (rr_result f) w)
    | Some t =>
        creds ← credentials (request ctx);
        let fixedRequest := setCredentials (Some (setAuthToken t creds)) (request ctx) in
        let fixedRequest :=
          match rr_result f with
          | JsonRpcResult _ =>
              let newRequests :=
                filter (λ rq, bool_decide (req_id rq ∈ expiredIds ctx)) (requestData ctx) in
              setMessageBody (reflect_serialize newRequests) fixedRequest
          | _ => fixedRequest
          end in
        let originalHandle := rr_handle f in
        '(handle, w) ← executeRequest fixedRequest (FixedCallback ctx originalHandle) w;
        Some (setD (setSubstitutions (<[ originalHandle := handle ]> (substitutions (d w)))
                      (d w)) w)
    end.

(** [while (!storedRequests.empty()) { pop_front; retry(token); }], run on
    the queue found in the deque: [retry] never touches [storedRequests]
    (lemma [retry_storedRequests]). *)
Fixpoint drain (queue : list ResendRequestFunc) (token : option AuthToken) (w : World)
    : option World :=
  match queue with
  | [] => Some w
  | f :: rest =>
      w ← retry f token (setD (setStoredRequests rest (d w)) w);
      drain rest token w
  end.

Definition tokenHasValue (c : nat) (w : World) : bool :=
  match tokens w !! c with
  | Some t => hasValue t
  | None => false
  end.

Definition tokenValue' (c : nat) (w : World) : option AuthToken :=
  match tokens w !! c with
  | Some t => value t
  | None => None
  end.

(** What [refreshToken] stands for: the call returns a token or nothing,
    and while it runs (it may open a modal dialog with its own event loop)
    the world moves on. *)
Definition RefreshToken : Type := nat → World → option (option AuthToken * World).

(** The block of the interaction function between the return of
    [refreshToken] and the loop over the stored requests: the token is set
    in the session [c] of the context, the broker gets a new unset session,
    and a new token replaces the one of the direct-connect credentials.
    [None] is the dereference of an empty [directConnect]. *)
Definition resolveSession (c : nat) (token : option AuthToken) (w : World)
    : option World :=
  let w := setTokens (alter (setValue token) c (tokens w)) w in
  (* Reinitialize the "promise". *)
  let w :=
    setD (setReissuedToken (length (tokens w)) (d w))
      (setTokens (tokens w ++ [newReissuedToken]) w) in
  match token with
  | Some t =>
      (* Update credentials for future use. *)
      dc ← directConnect (d w);
      Some (setD (setDirectConnect
                    (Some {| certificateVerifier := certificateVerifier dc;
                             address := address dc;
                             dc_credentials := setAuthToken t (dc_credentials dc) |})
                    (d w)) w)
  | None => Some w
  end.

(** The function posted to the interaction thread when the session has
    expired. *)
Definition interaction (refreshToken : RefreshToken) (ctx : InteractionContext)
    (handle : Handle) (success : bool) (r : CallbackResult) (w : World) : option World :=
  if negb (alive w) then Some w
  else
    let retry_ := mkResendRequestFunc ctx handle success r in
    if bool_decide (storedRequests (d w) = [])
       && negb (tokenHasValue (ctx_reissuedToken ctx) w)
    then
      (* That's the first failed request. A new token should be issued. *)
      let w := setD (setStoredRequests (storedRequests (d w) ++ [retry_]) (d w)) w in
      '(token, w) ← refreshToken (helper ctx) (logRefresh (helper ctx) w);
      if negb (alive w) then Some w
      else
        w ← resolveSession (ctx_reissuedToken ctx) token w;
        (* Execute all stored requests. *)
        drain (storedRequests (d w)) token w
    else if tokenHasValue (ctx_reissuedToken ctx) w then
      (* Token has been updated already (or the dialog was closed by User). *)
      retry retry_ (tokenValue' (ctx_reissuedToken ctx) w) w
    else
      (* User-interaction dialog is active. Just store the func. *)
      Some (setD (setStoredRequests (storedRequests (d w) ++ [retry_]) (d w)) w).

(** The lambda returned by [makeSessionAwareCallbackInternal]. *)
Definition sessionAwareCallback (refreshToken : RefreshToken) (ctx : InteractionContext)
    (success : bool) (handle : Handle) (r : CallbackResult) (w : World) : option World :=
  requestNew ← requestNewSession success r;
  let ctx := recordExpired ctx success r in
  if (requestNew : bool) then interaction refreshToken ctx handle success r w
  else Some (invokeIfSet (callback ctx) success handle r w).

(** [makeSessionAwareCallbackInternal]: the context captures the broker's
    current [reissuedToken]. *)
Definition makeSessionAwareCallbackInternal (w : World) (aHelper : nat)
    (aRequest : Request) (aCallback : option Callback) (args : list JsonRpcRequest)
    : CompletionFunc :=
  SessionAwareCallback
    {| helper := aHelper;
       ctx_reissuedToken := reissuedToken (d w);
       request := aRequest;
       callback := aCallback;
       expiredIds := ∅;
       originalResponse := [];
       requestData := args |}.

(** ** Operations of the broker *)

(** [ServerConnection::cancelRequest]. *)
Definition cancelRequest (requestId : Handle) (w : World) : World :=
  let actualId := substitutions (d w) !! requestId in
  match actualId with
  | Some actual => setPool (pool_terminate actual (pool w)) w
  | None => setPool (pool_terminate requestId (pool w)) w
  end.

(** [ServerConnection::updateCredentials]. *)
Definition updateCredentials (creds : Credentials) (p : Private) : Private :=
  match directConnect p with
  | Some dc =>
      if isBearerToken (authToken creds)
      then setDirectConnect
             (Some {| certificateVerifier := certificateVerifier dc;
                      address := address dc;
                      dc_credentials := creds |}) p
      else p
  | None => p
  end.

(** [ServerConnection::jsonRpcBatchCall]. *)
Definition jsonRpcBatchCall (tokenHelper : nat) (requests : list JsonRpcRequest)
    (issuer : nat) (w : World) : option (Handle * World) :=
  let aRequest :=
    prepareRequest w post (setPathQuery kJsonRpcPath "" emptyUrl) kJsonContentType
      (reflect_serialize requests) in
  let wrapper :=
    makeSessionAwareCallbackInternal w tokenHelper aRequest
      (Some (BatchInternalCallback issuer)) requests in
  if isValid aRequest then executeRequest aRequest wrapper w
  else Some (nullHandle, w).

(** The template [ServerConnection::sendRequest(helper, method, action,
    params, body, callback, executor, proxyToServer)]; [aUrl] is
    [prepareUrl(action, params)]. *)
Definition sendRequestWithHelper (aHelper : option nat) (aMethod : Method) (aUrl : Url)
    (body : string) (aCallback : option Callback) (proxyToServer : option Uuid)
    (w : World) : option (Handle * World) :=
  let aRequest := prepareRequest w aMethod aUrl kJsonContentType body in
  let aRequest :=
    match proxyToServer with
    | Some server => proxyRequestUsingServer aRequest server
    | None => aRequest
    end in
  let wrapper :=
    match aHelper with
    | Some h => makeSessionAwareCallbackInternal w h aRequest aCallback []
    | None => PlainCallback aCallback
    end in
  if isValid aRequest then executeRequest aRequest wrapper w
  else Some (nullHandle, w).

(** [ServerConnection::executeDelete]. *)
Definition executeDelete (aUrl : Url) (aCallback : option Callback)
    (proxyToServer : option Uuid) (w : World) : option (Handle * World) :=
  let aRequest := prepareRequest w delete_ aUrl "" "" in
  let aRequest :=
    match proxyToServer with
    | Some server => proxyRequestUsingServer aRequest server
    | None => aRequest
    end in
  if isValid aRequest then executeRequest aRequest (PlainCallback aCallback) w
  else Some (nullHandle, w).

(** [ServerConnection::createTicket]. *)
Definition createTicket (targetServerId : Uuid) (aCallback : option Callback) (w : World)
    : option (Handle * World) :=
  let aRequest :=
    prepareRequest w post (setPathQuery "/rest/v3/login/tickets" "" emptyUrl)
      kJsonContentType "" in
  let aRequest := proxyRequestUsingServer aRequest targetServerId in
  executeRequest aRequest (PlainCallback aCallback) w.


#[local] Set Warnings "-register-all".

(** ** Events

    What happens to the broker, in the order of the interaction thread: a
    call in flight completes, an issuer sends or cancels, the credentials
    are updated, the connection object is destroyed.  A completion carries
    what [refreshToken] would do if this completion asks for a new token:
    the events handled by the event loop of its dialog, and the token it
    returns. *)
Inductive Event : Type :=
| Completed (handle : Handle) (success : bool) (r : CallbackResult)
    (dialog : list Event) (token : option AuthToken)
| Cancel (requestId : Handle)
| Update (creds : Credentials)
| SendBatch (tokenHelper : nat) (requests : list JsonRpcRequest) (issuer : nat)
| Send (aHelper : option nat) (aMethod : Method) (aUrl : Url) (body : string)
    (aCallback : option Callback) (proxyToServer : option Uuid)
| Destroy.

(** The completion function of a call, run by the pool when the call is
    done.  [nx::utils::mutableGuarded] drops it when the broker is gone. *)
Definition complete (refreshToken : RefreshToken) (handle : Handle) (success : bool)
    (r : CallbackResult) (w : World) : option World :=
  if negb (alive w) then Some w
  else
    match inFlight (pool w) !! handle with
    | None => Some w
    | Some (_, completion) =>
        let w := setPool (pool_complete handle (pool w)) w in
        match completion with
        | SessionAwareCallback ctx => sessionAwareCallback refreshToken ctx success handle r w
        | FixedCallback ctx originalHandle =>
            Some (fixedCallback ctx originalHandle success handle r w)
        | PlainCallback cb => Some (invokeIfSet cb success handle r w)
        end
    end.

Fixpoint step (e : Event) (w : World) {struct e} : option World :=
  match e with
  | Completed handle success r dialog token =>
      complete
        (λ _ w0,
           w1 ← (fix run (es : list Event) (w : World) {struct es} : option World :=
                   match es with
                   | [] => Some w
                   | e' :: es' => w' ← step e' w; run es' w'
                   end) dialog w0;
           Some (token, w1))
        handle success r w
  | Cancel requestId => Some (cancelRequest requestId w)
  | Update creds => Some (setD (updateCredentials creds (d w)) w)
  | SendBatch tokenHelper requests issuer =>
      snd <$> jsonRpcBatchCall tokenHelper requests issuer w
  | Send aHelper aMethod aUrl body aCallback proxyToServer =>
      snd <$> sendRequestWithHelper aHelper aMethod aUrl body aCallback proxyToServer w
  | Destroy => Some (setAlive false w)
  end.

Fixpoint run (es : list Event) (w : World) : option World :=
  match es with
  | [] => Some w
  | e :: es' => w' ← step e w; run es' w'
  end.

(** [refreshToken] as a completion event describes it. *)
Definition dialogOf (dialog : list Event) (token : option AuthToken) : RefreshToken :=
  λ _ w, w' ← run dialog w; Some (token, w').


(** ** Vocabulary of the properties *)

(** What calling a callback adds to the log of deliveries. *)
Definition batchDelivery (issuer : nat) (success : bool) (requestId : Handle)
    (r : ErrorOrData JsonRpcResultType) : list Delivery :=
  if success then
    match r with
    | Data (ResponseArray responseArray) =>
        [mkDelivery issuer success requestId (PayloadBatch responseArray)]
    | _ => []
    end
  else
    match r with
    | Unexpected e =>
        [mkDelivery issuer success requestId
           (PayloadBatch [makeError IdNull applicationError (errorString e) e])]
    | Data (SingleResponse singleResponse) =>
        [mkDelivery issuer success requestId (PayloadBatch [singleResponse])]
    | Data (ResponseArray _) => []
    end.

Definition deliveryOf (cb : option Callback) (success : bool) (handle : Handle)
    (r : CallbackResult) : list Delivery :=
  match cb with
  | None => []
  | Some (IssuerCallback issuer) => [mkDelivery issuer success handle (PayloadResult r)]
  | Some (BatchInternalCallback issuer) =>
      match r with
      | JsonRpcResult r' => batchDelivery issuer success handle r'
      | _ => []
      end
  end.

(** The original response of a stored request, as its issuer receives it. *)
Definition originalDelivery (f : ResendRequestFunc) : list Delivery :=
  deliveryOf (callback (rr_ctx f)) (rr_success f) (rr_handle f) (rr_result f).

(** A response of one of the two single-response instances. *)
Definition singleResponse (r : CallbackResult) : Prop :=
  match r with
  | JsonRpcResult _ => False
  | _ => True
  end.

(** The first response of an array that carries a given id. *)
Definition firstWithId (i : ResponseId) (responses : list JsonRpcResponse)
    : option JsonRpcResponse :=
  List.find (λ r, bool_decide (id r = i)) responses.

(** The id of a request as a response carries it. *)
Definition responseIdOf (i : RequestId) : ResponseId :=
  match i with
  | ReqString s => IdString s
  | ReqInt n => IdInt n
  end.

(** The item that the merge of a resent array leaves at the place of
    [original]. *)
Definition mergedItem (resent : list JsonRpcResponse) (original : JsonRpcResponse)
    : JsonRpcResponse :=
  if bool_decide (id original = IdNull) then original
  else match firstWithId (id original) resent with
       | Some replacement => replacement
       | None => original
       end.

(** The item that a failed resend leaves at the place of [original]. *)
Definition failedItem (failure : RestResult) (original : JsonRpcResponse)
    : JsonRpcResponse :=
  if isSessionExpiredErrorResponse original
  then makeError (id original) applicationError (errorString failure) failure
  else original.

(** The request that [retry] sends for a stored request and a new token;
    [None] when the stored request has no credentials to patch. *)
Definition fixedRequestOf (f : ResendRequestFunc) (t : AuthToken) : option Request :=
  creds ← credentials (request (rr_ctx f));
  let fixedRequest :=
    setCredentials (Some (setAuthToken t creds)) (request (rr_ctx f)) in
  Some match rr_result f with
       | JsonRpcResult _ =>
           setMessageBody
             (reflect_serialize
                (filter (λ rq, bool_decide (req_id rq ∈ expiredIds (rr_ctx f)))
                   (requestData (rr_ctx f))))
             fixedRequest
       | _ => fixedRequest
       end.

(** The dispatches that draining a queue with a new token adds to the
    pool's log, the first of them under handle [n]. *)
Fixpoint resendLog (n : Handle) (t : AuthToken) (q : list ResendRequestFunc)
    : list (Handle * Request * CompletionFunc) :=
  match q with
  | [] => []
  | f :: rest =>
      match fixedRequestOf f t with
      | Some rq => [(n, rq, FixedCallback (rr_ctx f) (rr_handle f))]
      | None => []
      end ++ resendLog (n + 1) t rest
  end.

(** What the issuer of a resent request receives when the resend completes
    with [(success, r)]. *)
Definition fixedDelivery (ctx : InteractionContext) (originalHandle : Handle)
    (success : bool) (r : CallbackResult) : list Delivery :=
  match r, callback ctx with
  | JsonRpcResult r', Some cb =>
      deliveryOf (Some cb) true originalHandle
        (JsonRpcResult
           (Data (ResponseArray (snd (mergeJsonRpcResults (originalResponse ctx) r')))))
  | _, cb => deliveryOf cb success originalHandle r
  end.

(** Two states of the same reauthorization session: they differ at most in
    the queue, the substitutions, the pool and the log of deliveries. *)
Definition sameSession (w w' : World) : Prop :=
  alive w' = alive w
  ∧ tokens w' = tokens w
  ∧ app w' = app w
  ∧ refreshCalls w' = refreshCalls w
  ∧ reissuedToken (d w') = reissuedToken (d w)
  ∧ directConnect (d w') = directConnect (d w)
  ∧ systemContext (d w') = systemContext (d w)
  ∧ auditId (d w') = auditId (d w)
  ∧ serverId (d w') = serverId (d w)
  ∧ userId (d w') = userId (d w).

(** A stored request joins the queue; a call leaves the pool. *)
Definition enqueue (f : ResendRequestFunc) (w : World) : World :=
  setD (setStoredRequests (storedRequests (d w) ++ [f]) (d w)) w.

Definition completed (h : Handle) (w : World) : World :=
  setPool (pool_complete h (pool w)) w.

(** The broker can resend: it is a direct connection with a certificate
    verifier, and the pool's next handle is not the null handle. *)
Definition canResend (w : World) : Prop :=
  (∃ dc, directConnect (d w) = Some dc ∧ certificateVerifier dc = true)
  ∧ 0 < nextHandle (pool w).

(** A call in flight under the session [c] whose response, described by
    [f], is classified as session-expired; [f] is then the closure [retry]
    built for it. *)
Definition expiredInFlight (c : nat) (w : World) (f : ResendRequestFunc) : Prop :=
  ∃ rq ctx0,
    inFlight (pool w) !! rr_handle f = Some (rq, SessionAwareCallback ctx0)
    ∧ ctx_reissuedToken ctx0 = c
    ∧ requestNewSession (rr_success f) (rr_result f) = Some true
    ∧ rr_ctx f = recordExpired ctx0 (rr_success f) (rr_result f).

(** The arrival of that response. *)
Definition responseOf (f : ResendRequestFunc) : Event :=
  Completed (rr_handle f) (rr_success f) (rr_result f) [] None.

(** Two results of the same instance of the callback template. *)
Definition sameInstance (r1 r2 : CallbackResult) : Prop :=
  match r1, r2 with
  | GenericResult _, GenericResult _ => True
  | BytesResult _ _, BytesResult _ _ => True
  | JsonRpcResult _, JsonRpcResult _ => True
  | _, _ => False
  end.

(** The stored request has an issuer to call, and the callback is of the
    instance of its result. *)
Definition hasIssuer (f : ResendRequestFunc) : Prop :=
  match callback (rr_ctx f), rr_result f with
  | Some (IssuerCallback _), _ => True
  | Some (BatchInternalCallback _), JsonRpcResult _ => True
  | _, _ => False
  end.

(** The completion of the resend of a stored request: the handle of the
    resend, the request, and the outcome. *)
Record ResendOutcome : Type := mkResendOutcome {
  ro_handle : Handle;
  ro_request : ResendRequestFunc;
  ro_success : bool;
  ro_result : CallbackResult
}.

Definition doneEvent (c : ResendOutcome) : Event :=
  Completed (ro_handle c) (ro_success c) (ro_result c) [] None.

Definition doneDelivery (c : ResendOutcome) : list Delivery :=
  fixedDelivery (rr_ctx (ro_request c)) (rr_handle (ro_request c))
    (ro_success c) (ro_result c).

(** The deliveries with a given handle. *)
Definition deliveredTo (h : Handle) (ds : list Delivery) : list Delivery :=
  List.filter (λ dlv, bool_decide (dlv_handle dlv = h)) ds.

(** The broker cannot prepare a request: it has no direct connection, and
    the system context, the server in its resource pool or the message bus
    connection is missing. *)
Definition unpreparable (w : World) : Prop :=
  directConnect (d w) = None
  ∧ (systemContext (d w) = None
     ∨ ∃ sc, systemContext (d w) = Some sc
         ∧ (servers sc !! serverId (d w) = None ∨ messageBusConnection sc = None)).

(** ** The claims that the code does not satisfy as they are stated *)

(** C7 as stated: whatever the success flag (which [executeRequest] derives
    from the HTTP status), a single response is classified as expired
    exactly when the error id found in it is [sessionExpired] or
    [sessionRequired]. *)
Definition classifiedByErrorIdAlone (success : bool) (r : CallbackResult) : Prop :=
  ∀ e, getError r = Some e →
    (requestNewSession success r = Some true
     ↔ e = ErrorId.sessionExpired ∨ e = ErrorId.sessionRequired).

(** C5 as stated, for the merge: an original item is replaced by the item
    of the resent array that has the same id (same alternative, same
    value) when there is one, and is left as it is otherwise. *)
Definition replacesEveryMatch (original resent merged : list JsonRpcResponse) : Prop :=
  Forall2
    (λ o m,
       (∀ replacement, firstWithId (id o) resent = Some replacement → m = replacement)
       ∧ (firstWithId (id o) resent = None → m = o))
    original merged.

(** C8 as stated, in a state [w] reached after a session has resolved: any
    session-expired response that arrives makes the broker call
    [refreshToken] again. *)
Definition everyLaterExpiryRefreshes (w : World) : Prop :=
  ∀ h rq ctx0 success r dialog token w',
    inFlight (pool w) !! h = Some (rq, SessionAwareCallback ctx0) →
    requestNewSession success r = Some true →
    step (Completed h success r dialog token) w = Some w' →
    refreshCalls w' = refreshCalls w ++ [helper ctx0].

(** The places where a request issued under the handle [H] can be: in the
    pool, waiting for its first response; in the queue of stored requests;
    in the hands of the handler that is running ([held]); or sent again. *)
Definition isResendOf (H : Handle) (c : Handle * Request * CompletionFunc) : bool :=
  match c.2 with
  | FixedCallback _ originalHandle => bool_decide (originalHandle = H)
  | _ => false
  end.

Definition resendsOf (H : Handle) (w : World)
    : list (Handle * Request * CompletionFunc) :=
  List.filter (isResendOf H) (sent (pool w)).

Definition storedFor (H : Handle) (w : World) : list ResendRequestFunc :=
  List.filter (λ f, bool_decide (rr_handle f = H)) (storedRequests (d w)).

Definition isSessionAware (c : CompletionFunc) : bool :=
  match c with
  | SessionAwareCallback _ => true
  | _ => false
  end.

Definition awaitsResponse (H : Handle) (w : World) : bool :=
  match inFlight (pool w) !! H with
  | Some (_, c) => isSessionAware c
  | None => false
  end.

Definition heldBy (held : option Handle) (H : Handle) : bool :=
  match held with
  | Some h => bool_decide (h = H)
  | None => false
  end.

Definition places (held : option Handle) (H : Handle) (w : World) : nat :=
  (Nat.b2n (heldBy held H) + Nat.b2n (awaitsResponse H w)
   + length (storedFor H w) + length (resendsOf H w))%nat.

(** Every handle is in at most one place, and a handle that the pool has
    not issued yet is in none. *)
Definition resendInvariant (held : option Handle) (w : World) : Prop :=
  ∀ H, (places held H w ≤ 1)%nat
       ∧ (nextHandle (pool w) ≤ H → places held H w = 0%nat).

(** What a dialog is assumed to do in the lemmas below: whatever it
    handles keeps the invariant. *)
Definition keepsResendInvariant (refreshToken : RefreshToken) : Prop :=
  ∀ h w token w',
    resendInvariant None w → refreshToken h w = Some (token, w') →
    resendInvariant None w'.

Definition isCompleted (e : Event) : bool :=
  match e with
  | Completed _ _ _ _ _ => true
  | _ => false
  end.

(** A property of the pool that its three operations keep. *)
Definition keptByPool (P : ClientPool → Prop) : Prop :=
  (∀ rq c p, P p → P (pool_sendRequest rq c p).2)
  ∧ (∀ h p, P p → P (pool_complete h p))
  ∧ (∀ h p, P p → P (pool_terminate h p)).

(** The log of the pool [p] continues the log [log]. *)
Definition continues (log : list (Handle * Request * CompletionFunc)) (p : ClientPool)
    : Prop :=
  ∃ more, sent p = log ++ more.

(** ** Accounting of callbacks

    Where the request issued under the handle [H] is, from its dispatch to
    the call of its callback. *)

(** The handle that a call in flight answers for: the original handle for a
    resend, its own handle otherwise. *)
Definition answersFor (h : Handle) (c : CompletionFunc) : Handle :=
  match c with
  | FixedCallback _ originalHandle => originalHandle
  | _ => h
  end.

(** The calls in flight that answer for [H]. *)
Definition pendingFor (H : Handle) (w : World) : gmap Z (Request * CompletionFunc) :=
  filter (λ kv, answersFor kv.1 kv.2.2 = H) (inFlight (pool w)).

Definition isFixed (c : CompletionFunc) : bool :=
  match c with
  | FixedCallback _ _ => true
  | _ => false
  end.

(** The dispatches logged under the handle [H], and those of them that are
    not resends: the dispatches whose handle was returned to an issuer. *)
Definition dispatchesOf (H : Handle) (w : World)
    : list (Handle * Request * CompletionFunc) :=
  List.filter (λ c, bool_decide (c.1.1 = H)) (sent (pool w)).

Definition issuedAs (H : Handle) (w : World)
    : list (Handle * Request * CompletionFunc) :=
  List.filter (λ c, bool_decide (c.1.1 = H) && negb (isFixed c.2)) (sent (pool w)).

(** The number of places where [H] is: held by the running handler, in
    flight (itself or its resend), in the queue, or delivered. *)
Definition stages (held : option Handle) (H : Handle) (w : World) : nat :=
  (Nat.b2n (heldBy held H) + size (pendingFor H w)
   + length (storedFor H w) + length (deliveredTo H (delivered w)))%nat.

(** A handle is in no more places than it has been issued, a handle is
    logged at most once, and the handles that the pool has not given out
    yet are neither logged nor in flight. *)
Definition callbackInvariant (held : option Handle) (w : World) : Prop :=
  ∀ H, (stages held H w ≤ length (issuedAs H w))%nat
       ∧ (length (dispatchesOf H w) ≤ 1)%nat
       ∧ (nextHandle (pool w) ≤ H →
            dispatchesOf H w = [] ∧ inFlight (pool w) !! H = None).

(** The sessions as a step that resolves none leaves them: the store of
    [ReissuedToken] objects and the broker's current one. *)
Definition sameStore (w w' : World) : Prop :=
  tokens w' = tokens w ∧ reissuedToken (d w') = reissuedToken (d w).

(** The broker's current session, which a request sent now captures, is
    allocated and has no value yet. *)
Definition currentSessionUnset (w : World) : Prop :=
  tokens w !! reissuedToken (d w) = Some newReissuedToken.

(** ** Replies

    What the completion function built by [executeRequest] makes of a reply
    before it calls the callback: [deserialize] of a JSON-RPC result,
    [parseMessageBody] and the success flag. *)

(** [nx::reflect::DeserializationResult] of a deserialization that has
    failed. *)
Record DeserializationError : Type := mkDeserializationError {
  errorDescription : string;
  firstBadFragment : string;
  firstNonDeserializedField : option string
}.

(** What [deserialize] asks of the [rapidjson::Document] parsed from a body:
    [HasParseError] (with the text of [parseErrorToString]), [IsObject],
    [IsArray] (with the items), or none of them. *)
Inductive Document : Type :=
| DocParseError (description : string)
| DocObject (value : Json)
| DocArray (items : list Json)
| DocOther.

(** [Qn::SerializationFormat]: the two enumerators named by the source, and
    the other ones. *)
Inductive SerializationFormat : Type :=
| FormatJson
| FormatUbjson
| FormatOther (n : nat).

Section Replies.

(** The functions and values declared outside this file. *)
(** [rapidjson::Document::Parse]. *)
Variable Document_Parse : string → Document.
(** [nx::json_rpc::Response::deserialize] of one JSON value. *)
Variable Response_deserialize : Json → DeserializationError + JsonRpcResponse.
(** [nx::vms::common::api::parseRestResult]. *)
Variable parseRestResult : Z → SerializationFormat → string → RestResult.
Variable serializationFormatFromHttpContentType : string → SerializationFormat.
(** A value-initialized [rest::Result], and [Result::notImplemented()]. *)
Variable Result_default : RestResult.
Variable Result_notImplemented : RestResult.

(** [nx::network::http::StatusCode::ok] and [partialContent],
    [SystemError::noError]. *)
Definition StatusCode_ok : Z := 200.
Definition StatusCode_partialContent : Z := 206.
Definition SystemError_noError : Z := 0.

(** The loop of [deserialize] over the items of an array, from the index [i]
    with the responses collected so far. *)
Fixpoint deserializeItems (items : list Json) (i : nat) (responses : list JsonRpcResponse)
    : DeserializationError + list JsonRpcResponse :=
  match items with
  | [] => inr responses
  | item :: items' =>
      match Response_deserialize item with
      | inl r =>
          inl (mkDeserializationError
                 ("Failed to deserialize response item " +:+ pretty i +:+ ": "
                  +:+ errorDescription r)
                 (firstBadFragment r)
                 (firstNonDeserializedField r))
      | inr response => deserializeItems items' (S i) (responses ++ [response])
      end
  end.

(** [nx::reflect::json::deserialize] into a [rest::JsonRpcResultType]: the
    data on success, the result that converts to [false] otherwise. *)
Definition deserialize (json : string) : DeserializationError + JsonRpcResultType :=
  match Document_Parse json with
  | DocParseError description => inl (mkDeserializationError description json None)
  | DocObject value =>
      match Response_deserialize value with
      | inr response => inr (SingleResponse response)
      | inl r => inl r
      end
  | DocArray items =>
      match deserializeItems items 0 [] with
      | inr responses => inr (ResponseArray responses)
      | inl r => inl r
      end
  | DocOther => inl (mkDeserializationError "Must be array or object" json None)
  end.

(** The data type [T] of a result [ErrorOrData<T>], as the
    [if constexpr] of [parseMessageBody] tells it apart: [rest::Empty],
    [QByteArray], or a type with its [nx::reflect::json::deserialize]. *)
Inductive DataType : Type → Type :=
| EmptyType : DataType unit
| ByteArrayType : DataType string
| OtherType {T : Type} (deserializeT : string → option T) : DataType T.

(** [T = rest::JsonRpcResultType]. *)
Definition JsonRpcType : DataType JsonRpcResultType :=
  OtherType (λ messageBody,
    match deserialize messageBody with
    | inr data => Some data
    | inl _ => None
    end).

(** [parseMessageBody<nx::network::rest::Result>]: the flag and the value
    returned. *)
Definition parseMessageBody_Result (format : SerializationFormat) (messageBody : string)
    (statusCode : Z) : bool * RestResult :=
  let result := parseRestResult statusCode format messageBody in
  (bool_decide (errorId result = ErrorId.ok), Result_default).

(** [parseMessageBody<rest::ErrorOrData<T>>].  [NX_ASSERT(false, ...)] on a
    body that cannot be deserialized reports and goes on. *)
Definition parseMessageBody {T : Type} (type : DataType T) (format : SerializationFormat)
    (messageBody : string) (statusCode : Z) : bool * ErrorOrData T :=
  if statusCode =? StatusCode_ok then
    match type in DataType T return bool * ErrorOrData T with
    | EmptyType => (true, Data tt)
    | ByteArrayType => (true, Data messageBody)
    | OtherType deserializeT =>
        match deserializeT messageBody with
        | Some data => (true, Data data)
        | None => (false, Unexpected Result_notImplemented)
        end
    end
  else
    let '(success, e) := parseMessageBody_Result format messageBody statusCode in
    (success, Unexpected e).

(** What the completion function reads of [ClientPool::Context]. *)
Record Reply : Type := mkReply {
  statusCode : Z;
  systemError : Z;
  reply_contentType : string;
  reply_messageBody : string
}.

(** [std::is_same_v<ResultType, ErrorOrEmpty>]. *)
Definition isErrorOrEmpty {T : Type} (type : DataType T) : bool :=
  match type with
  | EmptyType => true
  | _ => false
  end.

(** The completion function that [executeRequest] gives to [sendRequest] for
    a callback of result type [ErrorOrData<T>]: the success flag and the
    result that the callback is called with. *)
Definition executeRequest_completion {T : Type} (type : DataType T) (context : Reply)
    : bool * ErrorOrData T :=
  let osErrorCode := systemError context in
  let format := serializationFormatFromHttpContentType (reply_contentType context) in
  let '(success, result) :=
    parseMessageBody type format (reply_messageBody context) (statusCode context) in
  let success :=
    if isErrorOrEmpty type then
      if negb (osErrorCode =? SystemError_noError)
         || (statusCode context <? StatusCode_ok)
         || (StatusCode_partialContent <? statusCode context)
      then false else success
    else if negb (osErrorCode =? SystemError_noError)
            || negb (statusCode context =? StatusCode_ok)
    then false else success in
  (success, result).

(** The data that a body gives for a reply of status [ok]. *)
Definition dataOf {T : Type} (type : DataType T) (messageBody : string) : option T :=
  match type in DataType T return option T with
  | EmptyType => Some tt
  | ByteArrayType => Some messageBody
  | OtherType deserializeT => deserializeT messageBody
  end.

(** The data of a result as the broker's opaque value. *)
Definition mapData {T U : Type} (f : T → U) (r : ErrorOrData T) : ErrorOrData U :=
  match r with
  | Unexpected e => Unexpected e
  | Data data => Data (f data)
  end.

End Replies.

(** ** Sample data *)

Definition sampleToken : AuthToken := mkAuthToken TokenBearer "fresh".
Definition sampleCredentials : Credentials :=
  mkCredentials "admin" (mkAuthToken TokenBearer "stale").
Definition samplePassword : Credentials :=
  mkCredentials "admin" (mkAuthToken TokenPassword "secret").
Definition sampleDirect : DirectConnect :=
  mkDirectConnect true (mkSocketAddress "server" 7001) sampleCredentials.
Definition samplePrivate : Private :=
  mkPrivate None 11 22 0 (Some sampleDirect) [] ∅ 0%nat.
Definition sampleApp : AppContext := mkAppContext true "" "en_US".
Definition sampleWorld : World :=
  mkWorld true samplePrivate [newReissuedToken] (mkClientPool 1 ∅ [] []) sampleApp [] [].

Definition sampleExpiredData : option Json := Some "{expired}"%string.
Definition sampleExpiredItem (i : ResponseId) : JsonRpcResponse :=
  mkJsonRpcResponse i None (Some (mkJsonRpcError applicationError "expired" sampleExpiredData)).
Definition sampleOkItem (i : ResponseId) (v : string) : JsonRpcResponse :=
  mkJsonRpcResponse i (Some v) None.

Definition sampleUrl : Url :=
  mkUrl "https" "server" (Some 7001) "/rest/v1/system" "".
Definition sampleHeaders : list (string * string) :=
  [("X-runtime-guid", "{uuid}"); ("X-Nx-User-Name", "admin");
   ("Accept-Language", "en_US")]%string.
Definition sampleRequest (body : string) : Request :=
  mkRequest (Some post) sampleUrl sampleHeaders "application/json" body
    (Some sampleCredentials) None.
Definition sampleContext (issuer : nat) (body : string) : InteractionContext :=
  mkInteractionContext 7 0 (sampleRequest body) (Some (IssuerCallback issuer)) ∅ [] [].

(** Two session-aware calls in flight, with handles 1 and 2. *)
Definition sampleBusyPool : ClientPool :=
  mkClientPool 3
    {[ 1 := (sampleRequest "a", SessionAwareCallback (sampleContext 1 "a"));
       2 := (sampleRequest "b", SessionAwareCallback (sampleContext 2 "b")) ]}
    [(1, sampleRequest "a", SessionAwareCallback (sampleContext 1 "a"));
     (2, sampleRequest "b", SessionAwareCallback (sampleContext 2 "b"))] [].
Definition sampleBusyWorld : World :=
  mkWorld true samplePrivate [newReissuedToken] sampleBusyPool sampleApp [] [].

Definition sampleExpired : CallbackResult :=
  GenericResult (Unexpected (mkRestResult ErrorId.sessionExpired "expired")).
Definition sampleFirst : ResendRequestFunc :=
  mkResendRequestFunc (sampleContext 1 "a") 1 false sampleExpired.
Definition sampleSecond : ResendRequestFunc :=
  mkResendRequestFunc (sampleContext 2 "b") 2 false sampleExpired.

(** A batch of three requests whose items 1 and 3 are expired. *)
Definition sampleBatchRequests : list JsonRpcRequest :=
  [mkJsonRpcRequest (Some (ReqInt 1)) "a" None;
   mkJsonRpcRequest (Some (ReqInt 2)) "b" None;
   mkJsonRpcRequest (Some (ReqInt 3)) "c" None].
Definition sampleBatchResponse : list JsonRpcResponse :=
  [sampleExpiredItem (IdInt 1); sampleOkItem (IdInt 2) "two";
   sampleExpiredItem (IdInt 3)].
(** The reply to the sample batch: the items 1 and 3 are session-expired. *)
Definition sampleBatchReply : CallbackResult :=
  JsonRpcResult (Data (ResponseArray sampleBatchResponse)).

Definition sampleBatchContext : InteractionContext :=
  mkInteractionContext 7 0 (sampleRequest "[1,2,3]")
    (Some (BatchInternalCallback 5)) ∅ [] sampleBatchRequests.

(** The same batch after its response has been classified, and its resend
    in flight under handle 2 for the original handle 1. *)
Definition sampleBatchStored : InteractionContext :=
  mkInteractionContext 7 0 (sampleRequest "[1,2,3]")
    (Some (BatchInternalCallback 5)) {[ Some (ReqInt 1); Some (ReqInt 3) ]}
    sampleBatchResponse sampleBatchRequests.
Definition sampleResendWorld : World :=
  mkWorld true
    (mkPrivate None 11 22 0 (Some sampleDirect) [] {[ 1 := 2 ]} 1%nat)
    [setValue (Some sampleToken) newReissuedToken; newReissuedToken]
    (mkClientPool 3 {[ 2 := (sampleRequest "1,3", FixedCallback sampleBatchStored 1) ]}
       [(1, sampleRequest "[1,2,3]", SessionAwareCallback sampleBatchContext);
        (2, sampleRequest "1,3", FixedCallback sampleBatchStored 1)] [])
    sampleApp [7%nat] [].

(** A batch response with an expired item without id, and the response to
    its resend, which also has an item without id. *)
Definition sampleNullOriginal : list JsonRpcResponse :=
  [sampleExpiredItem (IdInt 1); sampleExpiredItem IdNull; sampleOkItem (IdInt 2) "two"].
Definition sampleNullResent : list JsonRpcResponse :=
  [sampleOkItem (IdInt 1) "one";
   mkJsonRpcResponse IdNull None
     (Some (mkJsonRpcError (otherCode (-32600)) "invalid request" None))].

(** A broker that reaches its server through the system context, in which
    the server is not (or no longer) known. *)
Definition sampleSystemContext : SystemContext :=
  mkSystemContext ∅ ∅ None 5 true.
Definition sampleRemoteWorld : World :=
  mkWorld true (mkPrivate (Some sampleSystemContext) 11 22 0 None [] ∅ 0%nat)
    [newReissuedToken] (mkClientPool 1 ∅ [] []) sampleApp [] [].

(** A broker that reaches its server through the system context: the server
    is in the resource pool and the message bus is connected.  It has no
    direct connection. *)
Definition sampleServer : MediaServer :=
  mkMediaServer (mkUrl "https" "server" (Some 7001) "" "")
    (mkUrl "https" "server" (Some 7001) "" "") sampleCredentials false
    (Some (mkSocketAddress "server" 7001)) 0.
Definition sampleSiteContext : SystemContext :=
  mkSystemContext {[ 22 := sampleServer ]} ∅
    (Some (mkMessageBusConnection (mkSocketAddress "server" 7001) sampleCredentials))
    5 true.
Definition sampleSiteWorld : World :=
  mkWorld true (mkPrivate (Some sampleSiteContext) 11 22 0 None [] ∅ 0%nat)
    [newReissuedToken] (mkClientPool 1 ∅ [] []) sampleApp [] [].

(** * Properties *)

(** The pool keeps the call that it has just accepted: [sendRequest] returns
    the pool's handle unless it is null. *)
Lemma pool_sendRequest_isFinished (rq : Request) (c : CompletionFunc) (p : ClientPool) :
  context_isFinished (pool_sendRequest rq c p).1 (pool_sendRequest rq c p).2 = false.
Proof.
  unfold context_isFinished, pool_sendRequest. simpl.
  apply bool_decide_eq_false_2. by rewrite lookup_insert_eq.
Qed.

Lemma sendRequest_eq (rq : Request) (c : CompletionFunc) (w : World) :
  sendRequest rq c w
  = (verifier ←
       match directConnect (d w) with
       | Some dc => Some (certificateVerifier dc)
       | None => ctx_certificateVerifier <$> systemContext (d w)
       end;
     if negb (verifier : bool) then Some (0, w)
     else
       let '(requestId, p) := pool_sendRequest rq c (pool w) in
       Some (if requestId =? 0 then 0 else requestId, setPool p w)).
Proof.
  unfold sendRequest.
  destruct (match directConnect (d w) with
            | Some dc => Some (certificateVerifier dc)
            | None => ctx_certificateVerifier <$> systemContext (d w)
            end) as [[]|]; simpl; [|reflexivity..].
  pose proof (pool_sendRequest_isFinished rq c (pool w)) as Hfin.
  simpl in Hfin. rewrite Hfin, orb_false_r. reflexivity.
Qed.

(** ** Classifier *)

Lemma isSessionExpiredError_spec (e : ErrorId.t) :
  isSessionExpiredError e = true
  ↔ e = ErrorId.sessionExpired ∨ e = ErrorId.sessionRequired.
Proof.
  unfold isSessionExpiredError.
  rewrite orb_true_iff, !bool_decide_eq_true. tauto.
Qed.

Lemma isSessionExpiredError_ok : isSessionExpiredError ErrorId.ok = false.
Proof. reflexivity. Qed.

Lemma requestNewSession_failed (r : CallbackResult) (e : ErrorId.t) :
  getError r = Some e → requestNewSession false r = Some (isSessionExpiredError e).
Proof.
  clear toSimpleString toLower.
  intros He. unfold requestNewSession. rewrite He. simpl.
  case_bool_decide as Hne; [reflexivity|].
  assert (e = ErrorId.ok) as -> by (destruct (decide (e = ErrorId.ok)); tauto).
  reflexivity.
Qed.

Lemma requestNewSession_single_success (r : CallbackResult) :
  singleResponse r → requestNewSession true r = Some false.
Proof. clear toSimpleString toLower. destruct r; simpl; tauto. Qed.

(** C7 (amended).  For a single (non-batched) response the classification
    reads the success flag and the error id that [getError] finds in the
    result, and nothing else: a call reported as successful is never
    expired; a failed call is expired exactly when that id is
    [sessionExpired] or [sessionRequired]; a failed call whose raw body does
    not deserialize into a server error is not expired, and its result goes
    straight to the issuer without any [refreshToken] call. *)
Theorem expired_classification_of_single_response
    (refreshToken : RefreshToken) (ctx : InteractionContext) (handle : Handle)
    (success : bool) (r : CallbackResult) (w : World) :
  singleResponse r →
  (success = true → requestNewSession success r = Some false)
  ∧ (∀ e, success = false → getError r = Some e →
       (requestNewSession success r = Some true
        ↔ e = ErrorId.sessionExpired ∨ e = ErrorId.sessionRequired)
       ∧ (requestNewSession success r = Some false
        ↔ ¬ (e = ErrorId.sessionExpired ∨ e = ErrorId.sessionRequired)))
  ∧ (∀ body hdrs, r = BytesResult body hdrs → QJson_deserialize body = None →
       requestNewSession success r = Some false
       ∧ sessionAwareCallback refreshToken ctx success handle r w
         = Some (invokeIfSet (callback ctx) success handle r w)).
Proof.
  clear toSimpleString toLower.
  intros Hsingle. split; [|split].
  - intros ->. by apply requestNewSession_single_success.
  - intros e -> He. rewrite (requestNewSession_failed _ _ He).
    rewrite <- isSessionExpiredError_spec.
    destruct (isSessionExpiredError e); split; split;
      first [reflexivity | discriminate | intros H; exfalso; by apply H | by intros _ ].
  - intros body hdrs -> Hbody.
    assert (requestNewSession success (BytesResult body hdrs) = Some false) as Hno.
    { destruct success; [reflexivity|].
      unfold requestNewSession; simpl. rewrite Hbody. reflexivity. }
    split; [exact Hno|].
    unfold sessionAwareCallback. rewrite Hno. simpl.
    destruct success; reflexivity.
Qed.

(** ** [updateCredentials] *)

(** C10.  On a direct connection [updateCredentials] never fails; it
    stores the supplied credentials exactly when their token is a bearer
    token, keeps the address and the verifier, and otherwise leaves the whole
    state as it was: nothing is dispatched, terminated, delivered or
    refreshed either way. *)
Theorem updateCredentials_bearer_only (creds : Credentials) (w : World)
    (dc : DirectConnect) :
  directConnect (d w) = Some dc →
  ∃ w' dc',
    step (Update creds) w = Some w'
    ∧ directConnect (d w') = Some dc'
    ∧ dc_credentials dc'
      = (if isBearerToken (authToken creds) then creds else dc_credentials dc)
    ∧ address dc' = address dc
    ∧ certificateVerifier dc' = certificateVerifier dc
    ∧ (isBearerToken (authToken creds) = false → w' = w)
    ∧ systemContext (d w') = systemContext (d w)
    ∧ auditId (d w') = auditId (d w)
    ∧ serverId (d w') = serverId (d w)
    ∧ userId (d w') = userId (d w)
    ∧ storedRequests (d w') = storedRequests (d w)
    ∧ substitutions (d w') = substitutions (d w)
    ∧ reissuedToken (d w') = reissuedToken (d w)
    ∧ alive w' = alive w ∧ tokens w' = tokens w ∧ pool w' = pool w
    ∧ app w' = app w ∧ refreshCalls w' = refreshCalls w
    ∧ delivered w' = delivered w.
Proof.
  intros Hdc. destruct w as [al p tk pl ap rc dl]. simpl in *.
  unfold updateCredentials. rewrite Hdc.
  destruct (isBearerToken (authToken creds)) eqn:Hb.
  - eexists _, _. split; [reflexivity|]. simpl.
    repeat split; try reflexivity. congruence.
  - exists (mkWorld al p tk pl ap rc dl), dc. simpl.
    repeat split; try reflexivity; try assumption.
Qed.

(** ** Batch reconciler *)

Lemma idToResponse_lookup (responseArray : list JsonRpcResponse)
    (m : gmap ResponseId JsonRpcResponse) (i : ResponseId) :
  foldl insertResponse m responseArray !! i
  = match m !! i with
    | Some r => Some r
    | None => if bool_decide (i = IdNull) then None else firstWithId i responseArray
    end.
Proof.
  revert m. induction responseArray as [|a arr IH]; intros m; simpl.
  - destruct (m !! i); [reflexivity|]. by case_bool_decide.
  - rewrite IH. unfold insertResponse.
    destruct (decide (id a = IdNull)) as [Hnull|Hnull].
    + rewrite (bool_decide_eq_true_2 _ Hnull).
      destruct (m !! i); [reflexivity|].
      destruct (decide (i = IdNull)) as [Hi|Hi].
      * by rewrite !(bool_decide_eq_true_2 _ Hi).
      * rewrite !(bool_decide_eq_false_2 _ Hi).
        rewrite bool_decide_eq_false_2 by congruence. reflexivity.
    + rewrite (bool_decide_eq_false_2 _ Hnull).
      destruct (m !! id a) eqn:Hma.
      * destruct (m !! i) eqn:Hmi; [reflexivity|].
        destruct (decide (i = IdNull)) as [Hi|Hi].
        -- by rewrite !(bool_decide_eq_true_2 _ Hi).
        -- rewrite !(bool_decide_eq_false_2 _ Hi).
           rewrite bool_decide_eq_false_2 by congruence. reflexivity.
      * destruct (decide (id a = i)) as [<-|Hne].
        -- rewrite lookup_insert_eq, Hma.
           rewrite (bool_decide_eq_false_2 _ Hnull).
           by rewrite bool_decide_eq_true_2.
        -- rewrite lookup_insert_ne by assumption.
           destruct (m !! i); [reflexivity|].
           destruct (decide (i = IdNull)) as [Hi|Hi].
           ++ by rewrite !(bool_decide_eq_true_2 _ Hi).
           ++ rewrite !(bool_decide_eq_false_2 _ Hi).
              by rewrite (bool_decide_eq_false_2 _ Hne).
Qed.

Lemma mergeJsonRpcResults_array (originalResponse resent : list JsonRpcResponse) :
  mergeJsonRpcResults originalResponse (Data (ResponseArray resent))
  = (true, map (mergedItem resent) originalResponse).
Proof.
  unfold mergeJsonRpcResults. f_equal. apply map_ext. intros o.
  rewrite idToResponse_lookup, lookup_empty. unfold mergedItem.
  case_bool_decide; reflexivity.
Qed.

Lemma mergeJsonRpcResults_failed (originalResponse : list JsonRpcResponse)
    (failure : RestResult) :
  mergeJsonRpcResults originalResponse (Unexpected failure)
  = (true, map (failedItem failure) originalResponse).
Proof. reflexivity. Qed.

Lemma mergeJsonRpcResults_true (originalResponse : list JsonRpcResponse)
    (r : ErrorOrData JsonRpcResultType) :
  fst (mergeJsonRpcResults originalResponse r) = true.
Proof. destruct r as [e|[single|arr]]; reflexivity. Qed.

Lemma insertExpired_elem (responseArray : list JsonRpcResponse)
    (ids : gset JsonRpcRequestIdType) (i : JsonRpcRequestIdType) :
  i ∈ foldl insertExpired ids responseArray
  ↔ i ∈ ids
    ∨ ∃ response j, response ∈ responseArray
        ∧ isSessionExpiredErrorResponse response = true
        ∧ i = Some j ∧ id response = responseIdOf j.
Proof.
  revert ids. induction responseArray as [|a arr IH]; intros ids; simpl.
  - split; [auto|]. intros [H|(r & j & Hr & _)]; [exact H|]. by apply elem_of_nil in Hr.
  - rewrite IH. unfold insertExpired.
    split.
    + intros [Hin|(r & j & Hr & He & Hi & Hid)].
      * destruct (isSessionExpiredErrorResponse a) eqn:Ha; [|by left].
        destruct (id a) as [s|n|] eqn:Hida.
        -- apply elem_of_union in Hin as [Hin|Hin]; [|by left].
           apply elem_of_singleton in Hin. right.
           exists a, (ReqString s). rewrite Hida. repeat split; auto. constructor.
        -- apply elem_of_union in Hin as [Hin|Hin]; [|by left].
           apply elem_of_singleton in Hin. right.
           exists a, (ReqInt n). rewrite Hida. repeat split; auto. constructor.
        -- by left.
      * right. exists r, j. repeat split; auto. by constructor.
    + intros [Hin|(r & j & Hr & He & Hi & Hid)].
      * left. destruct (isSessionExpiredErrorResponse a); [|exact Hin].
        destruct (id a); [| |exact Hin]; apply elem_of_union; by right.
      * apply elem_of_cons in Hr as [->|Hr].
        -- left. rewrite He, Hid, Hi.
           destruct j; simpl; apply elem_of_union; left; by apply elem_of_singleton.
        -- right. exists r, j. auto.
Qed.

Lemma extractJsonRpcExpired_elem (responseArray : list JsonRpcResponse)
    (i : JsonRpcRequestIdType) :
  i ∈ fst (extractJsonRpcExpired (Data (ResponseArray responseArray)))
  ↔ ∃ response j, response ∈ responseArray
      ∧ isSessionExpiredErrorResponse response = true
      ∧ i = Some j ∧ id response = responseIdOf j.
Proof.
  simpl. rewrite insertExpired_elem. split; [|by right].
  intros [H|H]; [|exact H]. by apply not_elem_of_empty in H.
Qed.

(** ** Callbacks, [retry] and the drain loop *)

Ltac destruct_world w :=
  let al := fresh "al" in let p := fresh "p" in let tk := fresh "tk" in
  let pl := fresh "pl" in let ap := fresh "ap" in let rc := fresh "rc" in
  let dl := fresh "dl" in
  destruct w as [al p tk pl ap rc dl];
  destruct p as [? ? ? ? ? ? ? ?]; destruct pl as [? ? ? ?]; simpl in *.

Lemma sameSession_refl (w : World) : sameSession w w.
Proof. unfold sameSession. tauto. Qed.

Lemma sameSession_trans (w1 w2 w3 : World) :
  sameSession w1 w2 → sameSession w2 w3 → sameSession w1 w3.
Proof. unfold sameSession. intuition congruence. Qed.

Lemma invokeIfSet_fields (cb : option Callback) (success : bool) (h : Handle)
    (r : CallbackResult) (w : World) :
  let w' := invokeIfSet cb success h r w in
  alive w' = alive w ∧ d w' = d w ∧ tokens w' = tokens w ∧ pool w' = pool w
  ∧ app w' = app w ∧ refreshCalls w' = refreshCalls w
  ∧ delivered w' = delivered w ++ deliveryOf cb success h r.
Proof.
  destruct w. destruct cb as [[issuer|issuer]|]; simpl.
  - repeat split; reflexivity.
  - destruct r as [?|? ?|r]; simpl; rewrite ?app_nil_r; try (repeat split; reflexivity).
    unfold internalCallback, batchDelivery.
    destruct success, r as [e|[single|arr]]; simpl; rewrite ?app_nil_r;
      repeat split; reflexivity.
  - rewrite app_nil_r. repeat split; reflexivity.
Qed.

Lemma retry_decline (f : ResendRequestFunc) (w : World) :
  alive w = true →
  ∃ w', retry f None w = Some w'
    ∧ sameSession w w'
    ∧ storedRequests (d w') = storedRequests (d w)
    ∧ substitutions (d w') = substitutions (d w)
    ∧ pool w' = pool w
    ∧ delivered w' = delivered w ++ originalDelivery f.
Proof.
  intros Hal. unfold retry. rewrite Hal. simpl.
  eexists. split; [reflexivity|].
  destruct (invokeIfSet_fields (callback (rr_ctx f)) (rr_success f) (rr_handle f)
              (rr_result f) w) as (Ha & Hd & Ht & Hp & Hap & Hr & Hdl).
  unfold sameSession. rewrite Ha, Hd, Ht, Hp, Hap, Hr, Hdl. repeat split; reflexivity.
Qed.

Lemma retry_resend (f : ResendRequestFunc) (t : AuthToken) (rq : Request) (w : World) :
  alive w = true → canResend w → fixedRequestOf f t = Some rq →
  ∃ w', retry f (Some t) w = Some w'
    ∧ sameSession w w'
    ∧ storedRequests (d w') = storedRequests (d w)
    ∧ substitutions (d w')
      = <[ rr_handle f := nextHandle (pool w) ]> (substitutions (d w))
    ∧ pool w'
      = snd (pool_sendRequest rq (FixedCallback (rr_ctx f) (rr_handle f)) (pool w))
    ∧ delivered w' = delivered w.
Proof.
  intros Hal [(dc & Hdc & Hver) Hnext] Hrq.
  unfold retry. rewrite Hal. simpl.
  unfold fixedRequestOf in Hrq.
  destruct (credentials (request (rr_ctx f))) as [creds|] eqn:Hcreds; [|discriminate].
  simpl in Hrq. injection Hrq as <-. simpl.
  unfold executeRequest. rewrite sendRequest_eq. rewrite Hdc. simpl. rewrite Hver. simpl.
  assert ((nextHandle (pool w) =? 0) = false) as -> by (apply Z.eqb_neq; lia).
  destruct_world w. unfold sameSession.
  destruct (rr_result f); eexists; (split; [reflexivity|]); simpl;
    repeat split; reflexivity.
Qed.

Lemma retry_storedRequests (f : ResendRequestFunc) (token : option AuthToken)
    (w w' : World) :
  retry f token w = Some w' → storedRequests (d w') = storedRequests (d w).
Proof.
  unfold retry. destruct (alive w); simpl.
  - destruct token as [t|].
    + destruct (credentials (request (rr_ctx f))); simpl; [|discriminate].
      unfold executeRequest. rewrite sendRequest_eq.
      destruct (directConnect (d w)) as [dc|]; simpl.
      * destruct (certificateVerifier dc); simpl; intros [= <-]; reflexivity.
      * destruct (systemContext (d w)) as [sc|]; simpl; [|discriminate].
        destruct (ctx_certificateVerifier sc); simpl; intros [= <-]; reflexivity.
    + intros [= <-].
      by destruct (invokeIfSet_fields (callback (rr_ctx f)) (rr_success f) (rr_handle f)
                     (rr_result f) w) as (_ & -> & _).
  - intros [= <-]. reflexivity.
Qed.

Lemma retry_refreshCalls (f : ResendRequestFunc) (token : option AuthToken)
    (w w' : World) :
  retry f token w = Some w' → refreshCalls w' = refreshCalls w.
Proof.
  unfold retry. destruct (alive w); simpl.
  - destruct token as [t|].
    + destruct (credentials (request (rr_ctx f))); simpl; [|discriminate].
      unfold executeRequest. rewrite sendRequest_eq.
      destruct (directConnect (d w)) as [dc|]; simpl.
      * destruct (certificateVerifier dc); simpl; intros [= <-]; reflexivity.
      * destruct (systemContext (d w)) as [sc|]; simpl; [|discriminate].
        destruct (ctx_certificateVerifier sc); simpl; intros [= <-]; reflexivity.
    + intros [= <-].
      by destruct (invokeIfSet_fields (callback (rr_ctx f)) (rr_success f) (rr_handle f)
                     (rr_result f) w) as (_ & _ & _ & _ & _ & -> & _).
  - intros [= <-]. reflexivity.
Qed.

Lemma setStoredRequests_fields (q : list ResendRequestFunc) (w : World) :
  let w0 := setD (setStoredRequests q (d w)) w in
  sameSession w w0
  ∧ storedRequests (d w0) = q
  ∧ substitutions (d w0) = substitutions (d w)
  ∧ pool w0 = pool w
  ∧ delivered w0 = delivered w.
Proof. destruct_world w. unfold sameSession. simpl. repeat split; reflexivity. Qed.

(** Draining with no token: every stored request hands its original
    response to its issuer, in the order of the queue; nothing is sent. *)
Lemma drain_decline (q : list ResendRequestFunc) (w : World) :
  alive w = true → storedRequests (d w) = q →
  ∃ w', drain q None w = Some w'
    ∧ sameSession w w'
    ∧ storedRequests (d w') = []
    ∧ substitutions (d w') = substitutions (d w)
    ∧ pool w' = pool w
    ∧ delivered w' = delivered w ++ flat_map originalDelivery q.
Proof.
  revert w. induction q as [|f rest IH]; intros w Hal Hq; simpl.
  - exists w. rewrite app_nil_r. repeat split; auto using sameSession_refl.
  - destruct (setStoredRequests_fields rest w) as (Hs0 & Hq0 & Hsub0 & Hp0 & Hd0).
    set (w0 := setD (setStoredRequests rest (d w)) w) in *.
    assert (alive w0 = true) as Hal0 by (destruct Hs0 as (-> & _); exact Hal).
    destruct (retry_decline f w0 Hal0) as (w1 & Hr & Hs1 & Hq1 & Hsub1 & Hp1 & Hd1).
    rewrite Hr. simpl.
    assert (alive w1 = true) as Hal1 by (destruct Hs1 as (-> & _); exact Hal0).
    destruct (IH w1 Hal1) as (w' & Hdr & Hs' & Hq' & Hsub' & Hp' & Hd').
    { congruence. }
    exists w'. split; [exact Hdr|].
    split; [eauto using sameSession_trans|].
    split; [exact Hq'|].
    split; [congruence|].
    split; [congruence|].
    rewrite Hd', Hd1, Hd0, <- app_assoc. reflexivity.
Qed.

Lemma resendLog_length (n : Handle) (t : AuthToken) (q : list ResendRequestFunc) :
  Forall (λ f, is_Some (fixedRequestOf f t)) q →
  length (resendLog n t q) = length q.
Proof.
  revert n. induction q as [|f rest IH]; intros n Hq; simpl; [reflexivity|].
  inversion Hq as [|? ? [rq Hrq] Hrest]; subst. rewrite Hrq. simpl.
  by rewrite IH.
Qed.

(** Draining with a new token: every stored request is sent again once,
    under consecutive fresh handles, with [fixedCallback] as its completion
    and a substitution from its original handle; nobody is called yet. *)
Lemma drain_resend (t : AuthToken) (q : list ResendRequestFunc) (w : World) :
  alive w = true → canResend w → storedRequests (d w) = q →
  Forall (λ f, is_Some (fixedRequestOf f t)) q →
  ∃ w', drain q (Some t) w = Some w'
    ∧ sameSession w w'
    ∧ storedRequests (d w') = []
    ∧ delivered w' = delivered w
    ∧ terminated (pool w') = terminated (pool w)
    ∧ nextHandle (pool w') = nextHandle (pool w) + Z.of_nat (length q)
    ∧ sent (pool w') = sent (pool w) ++ resendLog (nextHandle (pool w)) t q
    ∧ (∀ (i : nat) f, q !! i = Some f →
         ∃ rq, fixedRequestOf f t = Some rq
           ∧ inFlight (pool w') !! (nextHandle (pool w) + Z.of_nat i)
             = Some (rq, FixedCallback (rr_ctx f) (rr_handle f)))
    ∧ (∀ k, k < nextHandle (pool w) →
         inFlight (pool w') !! k = inFlight (pool w) !! k)
    ∧ (NoDup (map rr_handle q) → ∀ (i : nat) f, q !! i = Some f →
         substitutions (d w') !! rr_handle f = Some (nextHandle (pool w) + Z.of_nat i))
    ∧ (∀ h, h ∉ map rr_handle q →
         substitutions (d w') !! h = substitutions (d w) !! h).
Proof.
  revert w. induction q as [|f rest IH]; intros w Hal Hcan Hq Hall; simpl.
  - exists w. rewrite app_nil_r. simpl. rewrite Z.add_0_r.
    repeat split; auto using sameSession_refl; intros; try done.
  - inversion Hall as [|? ? [rq Hrq] Hrest]; subst.
    destruct (setStoredRequests_fields rest w) as (Hs0 & Hq0 & Hsub0 & Hp0 & Hd0).
    set (w0 := setD (setStoredRequests rest (d w)) w) in *.
    assert (alive w0 = true) as Hal0 by (destruct Hs0 as (-> & _); exact Hal).
    assert (canResend w0) as Hcan0.
    { destruct Hcan as [Hdc Hn]. destruct Hs0 as (_ & _ & _ & _ & _ & Hdc0 & _).
      split; [by rewrite Hdc0| by rewrite Hp0]. }
    destruct (retry_resend f t rq w0 Hal0 Hcan0 Hrq)
      as (w1 & Hr & Hs1 & Hq1 & Hsub1 & Hp1 & Hd1).
    rewrite Hr. simpl. rewrite Hp0 in Hp1, Hsub1. simpl in Hp1.
    assert (alive w1 = true) as Hal1 by (destruct Hs1 as (-> & _); exact Hal0).
    assert (canResend w1) as Hcan1.
    { destruct Hcan as [Hdc Hn]. destruct Hs1 as (_ & _ & _ & _ & _ & Hdc1 & _).
      destruct Hs0 as (_ & _ & _ & _ & _ & Hdc0 & _).
      split; [by rewrite Hdc1, Hdc0|]. rewrite Hp1. simpl. lia. }
    destruct (IH w1 Hal1 Hcan1) as
      (w' & Hdr & Hs' & Hq' & Hd' & Hterm' & Hnext' & Hsent' & Hfl' & Hold' & Hsub' & Hoth');
      [congruence|exact Hrest|].
    rewrite Hp1 in Hterm', Hnext', Hsent', Hfl', Hold', Hsub'. simpl in *.
    exists w'. split; [exact Hdr|].
    split; [eauto using sameSession_trans|].
    split; [exact Hq'|].
    split; [congruence|].
    split; [exact Hterm'|].
    split; [rewrite Hnext'; lia|].
    split; [rewrite Hsent', Hrq, <- app_assoc; reflexivity|].
    split; [|split; [|split]].
    + intros [|i] g Hg; simpl in Hg.
      * injection Hg as <-. exists rq. split; [exact Hrq|].
        simpl. rewrite Z.add_0_r, Hold' by lia. apply lookup_insert_eq.
      * destruct (Hfl' i g Hg) as (rq' & Hrq' & Hin). exists rq'. split; [exact Hrq'|].
        rewrite <- Hin. f_equal. lia.
    + intros k Hk. rewrite Hold' by lia. apply lookup_insert_ne. lia.
    + intros Hnd [|i] g Hg; simpl in Hg.
      * injection Hg as <-. apply NoDup_cons in Hnd as [Hnotin _].
        rewrite Hoth' by exact Hnotin. rewrite Hsub1. simpl. rewrite Z.add_0_r.
        apply lookup_insert_eq.
      * apply NoDup_cons in Hnd as [_ Hnd].
        rewrite (Hsub' Hnd i g Hg). f_equal. lia.
    + intros h Hh. apply not_elem_of_cons in Hh as [Hne Hh].
      rewrite Hoth' by exact Hh. rewrite Hsub1.
      apply lookup_insert_ne. congruence.
Qed.

(** ** Completions *)

Lemma step_Completed (handle : Handle) (success : bool) (r : CallbackResult)
    (dialog : list Event) (token : option AuthToken) (w : World) :
  step (Completed handle success r dialog token) w
  = complete (dialogOf dialog token) handle success r w.
Proof. reflexivity. Qed.

Lemma completed_fields (h : Handle) (w : World) :
  sameSession w (completed h w)
  ∧ d (completed h w) = d w
  ∧ delivered (completed h w) = delivered w
  ∧ pool (completed h w) = pool_complete h (pool w).
Proof. destruct_world w. unfold sameSession. simpl. repeat split; reflexivity. Qed.

(** The completion of a resend: the substitution of the original handle is
    removed and the issuer is called under the original handle. *)
Lemma complete_fixed (refreshToken : RefreshToken) (h originalHandle : Handle)
    (rq : Request) (ctx : InteractionContext) (success : bool) (r : CallbackResult)
    (w : World) :
  alive w = true →
  inFlight (pool w) !! h = Some (rq, FixedCallback ctx originalHandle) →
  ∃ w', complete refreshToken h success r w = Some w'
    ∧ sameSession w w'
    ∧ storedRequests (d w') = storedRequests (d w)
    ∧ substitutions (d w') = delete originalHandle (substitutions (d w))
    ∧ pool w' = pool_complete h (pool w)
    ∧ delivered w' = delivered w ++ fixedDelivery ctx originalHandle success r.
Proof.
  intros Hal Hin. unfold complete. rewrite Hal, Hin. simpl.
  eexists. split; [reflexivity|].
  unfold fixedCallback, fixedDelivery. simpl. rewrite Hal. simpl.
  set (w1 := setD _ _).
  assert (sameSession w w1 ∧ storedRequests (d w1) = storedRequests (d w)
          ∧ substitutions (d w1) = delete originalHandle (substitutions (d w))
          ∧ pool w1 = pool_complete h (pool w) ∧ delivered w1 = delivered w)
    as (Hs & Hq & Hsub & Hp & Hd).
  { subst w1. destruct_world w. unfold sameSession. simpl. repeat split; reflexivity. }
  assert (∀ cb s' r',
    let w' := invokeIfSet cb s' originalHandle r' w1 in
    sameSession w w'
    ∧ storedRequests (d w') = storedRequests (d w)
    ∧ substitutions (d w') = delete originalHandle (substitutions (d w))
    ∧ pool w' = pool_complete h (pool w)
    ∧ delivered w' = delivered w ++ deliveryOf cb s' originalHandle r') as Hinv.
  { intros cb s' r'.
    destruct (invokeIfSet_fields cb s' originalHandle r' w1)
      as (Ha & Hd' & Ht & Hp' & Hap & Hr & Hdl).
    simpl. unfold sameSession in *. rewrite Ha, Hd', Ht, Hp', Hap, Hr, Hdl.
    intuition congruence. }
  destruct r as [g|body hdrs|r']; try apply Hinv.
  destruct (callback ctx) as [cb|] eqn:Hcb;
    [|exact (Hinv None success (JsonRpcResult r'))].
  destruct (mergeJsonRpcResults (originalResponse ctx) r') as [merged orig'] eqn:Hm.
  pose proof (mergeJsonRpcResults_true (originalResponse ctx) r') as Htrue.
  rewrite Hm in Htrue. simpl in Htrue. subst merged. simpl.
  exact (Hinv (Some cb) true (JsonRpcResult (Data (ResponseArray orig')))).
Qed.

Lemma deliveryOf_handle (cb : option Callback) (success : bool) (h : Handle)
    (r : CallbackResult) :
  Forall (λ dlv, dlv_handle dlv = h) (deliveryOf cb success h r).
Proof.
  destruct cb as [[issuer|issuer]|]; simpl; repeat constructor.
  destruct r as [?|? ?|r]; simpl; try constructor.
  unfold batchDelivery. destruct success, r as [e|[single|arr]]; repeat constructor.
Qed.

Lemma fixedDelivery_handle (ctx : InteractionContext) (originalHandle : Handle)
    (success : bool) (r : CallbackResult) :
  Forall (λ dlv, dlv_handle dlv = originalHandle)
    (fixedDelivery ctx originalHandle success r).
Proof.
  unfold fixedDelivery.
  destruct r as [g|body hdrs|r'], (callback ctx); apply deliveryOf_handle.
Qed.

Lemma fixedDelivery_issuer (ctx : InteractionContext) (originalHandle : Handle)
    (success : bool) (r : CallbackResult) (issuer : nat) :
  callback ctx = Some (IssuerCallback issuer) →
  ∃ success' r',
    fixedDelivery ctx originalHandle success r
    = [mkDelivery issuer success' originalHandle (PayloadResult r')].
Proof.
  intros Hcb. unfold fixedDelivery. rewrite Hcb.
  destruct r as [g|body hdrs|r']; simpl; eauto.
Qed.

Lemma fixedDelivery_batch (ctx : InteractionContext) (originalHandle : Handle)
    (success : bool) (r : ErrorOrData JsonRpcResultType) (issuer : nat) :
  callback ctx = Some (BatchInternalCallback issuer) →
  fixedDelivery ctx originalHandle success (JsonRpcResult r)
  = [mkDelivery issuer true originalHandle
       (PayloadBatch (snd (mergeJsonRpcResults (originalResponse ctx) r)))].
Proof. intros Hcb. unfold fixedDelivery. rewrite Hcb. reflexivity. Qed.

(** A call that has completed is no longer in flight: a second completion
    of the same handle does nothing. *)
Lemma complete_absent (refreshToken : RefreshToken) (h : Handle) (success : bool)
    (r : CallbackResult) (w : World) :
  inFlight (pool w) !! h = None → complete refreshToken h success r w = Some w.
Proof. intros Hin. unfold complete. rewrite Hin. by destruct (alive w). Qed.

(** A session-expired response processed while the queue is not empty and
    the session is unset joins the queue; [refreshToken] is not called. *)
Lemma complete_enqueue (refreshToken : RefreshToken) (h : Handle) (rq : Request)
    (ctx0 : InteractionContext) (success : bool) (r : CallbackResult) (w : World) :
  alive w = true →
  inFlight (pool w) !! h = Some (rq, SessionAwareCallback ctx0) →
  requestNewSession success r = Some true →
  storedRequests (d w) ≠ [] →
  tokenHasValue (ctx_reissuedToken ctx0) w = false →
  complete refreshToken h success r w
  = Some (enqueue (mkResendRequestFunc (recordExpired ctx0 success r) h success r)
            (completed h w)).
Proof.
  intros Hal Hin Hnew Hq Htok. unfold complete. rewrite Hal, Hin. simpl.
  unfold sessionAwareCallback. rewrite Hnew. simpl.
  unfold interaction.
  assert (ctx_reissuedToken (recordExpired ctx0 success r) = ctx_reissuedToken ctx0)
    as Hcell.
  { unfold recordExpired. destruct success; [|reflexivity].
    destruct r as [?|? ?|r']; try reflexivity.
    by destruct (extractJsonRpcExpired r'). }
  rewrite Hcell.
  destruct_world w. rewrite Hal. simpl.
  unfold tokenHasValue in *. simpl in *. rewrite Htok.
  rewrite bool_decide_eq_false_2 by assumption. reflexivity.
Qed.

(** ** The reauthorization session *)

Lemma recordExpired_fields (ctx : InteractionContext) (success : bool)
    (r : CallbackResult) :
  let ctx' := recordExpired ctx success r in
  helper ctx' = helper ctx
  ∧ ctx_reissuedToken ctx' = ctx_reissuedToken ctx
  ∧ request ctx' = request ctx
  ∧ callback ctx' = callback ctx
  ∧ requestData ctx' = requestData ctx.
Proof.
  unfold recordExpired. destruct success; [|by repeat split].
  destruct r as [?|? ?|r']; try by repeat split.
  destruct (extractJsonRpcExpired r'). by repeat split.
Qed.

Lemma enqueue_fields (f : ResendRequestFunc) (w : World) :
  sameSession w (enqueue f w)
  ∧ storedRequests (d (enqueue f w)) = storedRequests (d w) ++ [f]
  ∧ substitutions (d (enqueue f w)) = substitutions (d w)
  ∧ pool (enqueue f w) = pool w
  ∧ delivered (enqueue f w) = delivered w.
Proof. destruct_world w. unfold sameSession. simpl. repeat split; reflexivity. Qed.

Lemma tokenHasValue_sameSession (c : nat) (w w' : World) :
  sameSession w w' → tokenHasValue c w' = tokenHasValue c w.
Proof. intros (_ & Ht & _). unfold tokenHasValue. by rewrite Ht. Qed.

(** While the dialog is open, the session-expired responses that arrive are
    put in the queue in the order of their arrival; nothing is refreshed,
    sent or delivered. *)
Lemma dialog_enqueues (c : nat) (others : list ResendRequestFunc) (w : World) :
  alive w = true →
  storedRequests (d w) ≠ [] →
  tokenHasValue c w = false →
  NoDup (map rr_handle others) →
  Forall (expiredInFlight c w) others →
  ∃ wd, run (map responseOf others) w = Some wd
    ∧ sameSession w wd
    ∧ storedRequests (d wd) = storedRequests (d w) ++ others
    ∧ substitutions (d wd) = substitutions (d w)
    ∧ delivered wd = delivered w
    ∧ nextHandle (pool wd) = nextHandle (pool w)
    ∧ sent (pool wd) = sent (pool w)
    ∧ terminated (pool wd) = terminated (pool w)
    ∧ (∀ k, k ∉ map rr_handle others →
         inFlight (pool wd) !! k = inFlight (pool w) !! k)
    ∧ (∀ k, k ∈ map rr_handle others → inFlight (pool wd) !! k = None).
Proof.
  revert w. induction others as [|f rest IH]; intros w Hal Hq Htok Hnd Hall.
  - exists w. simpl. rewrite app_nil_r.
    repeat split; auto using sameSession_refl. intros k Hk. by apply elem_of_nil in Hk.
  - inversion Hall as [|? ? (rq & ctx0 & Hin & Hc & Hnew & Hctx) Hrest]; subst.
    apply NoDup_cons in Hnd as [Hnotin Hnd].
    change (run (map responseOf (f :: rest)) w)
      with (w' ← step (responseOf f) w; run (map responseOf rest) w').
    change (step (responseOf f) w)
      with (complete (dialogOf [] None) (rr_handle f) (rr_success f) (rr_result f) w).
    rewrite (complete_enqueue _ _ rq ctx0); try assumption.
    rewrite <- Hctx.
    replace (mkResendRequestFunc (rr_ctx f) (rr_handle f) (rr_success f) (rr_result f))
      with f by (by destruct f).
    simpl.
    set (w1 := enqueue f (completed (rr_handle f) w)).
    destruct (completed_fields (rr_handle f) w) as (Hs0 & Hd0 & Hdl0 & Hp0).
    destruct (enqueue_fields f (completed (rr_handle f) w))
      as (Hs1 & Hq1 & Hsub1 & Hp1 & Hdl1).
    fold w1 in Hs1, Hq1, Hsub1, Hp1, Hdl1.
    assert (sameSession w w1) as Hs by eauto using sameSession_trans.
    assert (alive w1 = true) as Hal1 by (destruct Hs as (-> & _); exact Hal).
    assert (storedRequests (d w1) = storedRequests (d w) ++ [f]) as Hq1'
      by (by rewrite Hq1, Hd0).
    destruct (IH w1) as (wd & Hrun & Hsd & Hqd & Hsubd & Hdld & Hnd' & Hsd' & Htd & Hkeep & Hgone).
    + exact Hal1.
    + rewrite Hq1'. by destruct (storedRequests (d w)).
    + by rewrite (tokenHasValue_sameSession _ _ _ Hs).
    + exact Hnd.
    + apply Forall_forall. intros g Hg.
      rewrite Forall_forall in Hrest.
      destruct (Hrest g Hg) as (rq' & ctx' & Hin' & Hrest').
      exists rq', ctx'. split; [|exact Hrest'].
      rewrite Hp1, Hp0. simpl. rewrite lookup_delete_ne; [exact Hin'|].
      intros Heq. apply Hnotin. rewrite Heq. apply list_elem_of_fmap. by exists g.
    + exists wd. split; [exact Hrun|].
      split; [eauto using sameSession_trans|].
      split; [by rewrite Hqd, Hq1', <- app_assoc|].
      split; [by rewrite Hsubd, Hsub1, Hd0|].
      split; [by rewrite Hdld, Hdl1, Hdl0|].
      rewrite Hp1, Hp0 in Hnd', Hsd', Htd, Hkeep. simpl in *.
      split; [exact Hnd'|]. split; [exact Hsd'|]. split; [exact Htd|].
      split.
      * intros k Hk. apply not_elem_of_cons in Hk as [Hne Hk].
        rewrite Hkeep by exact Hk. by apply lookup_delete_ne.
      * intros k Hk. apply elem_of_cons in Hk as [->|Hk]; [|by apply Hgone].
        rewrite Hkeep by exact Hnotin. apply lookup_delete_eq.
Qed.

Lemma resolveSession_fields (c : nat) (token : option AuthToken) (w : World) :
  (∀ t, token = Some t → is_Some (directConnect (d w))) →
  ∃ w', resolveSession c token w = Some w'
    ∧ alive w' = alive w
    ∧ app w' = app w
    ∧ refreshCalls w' = refreshCalls w
    ∧ delivered w' = delivered w
    ∧ pool w' = pool w
    ∧ storedRequests (d w') = storedRequests (d w)
    ∧ substitutions (d w') = substitutions (d w)
    ∧ tokens w' = alter (setValue token) c (tokens w) ++ [newReissuedToken]
    ∧ reissuedToken (d w') = length (tokens w)
    ∧ (certificateVerifier <$> directConnect (d w')
       = certificateVerifier <$> directConnect (d w))
    ∧ (∀ t dc, token = Some t → directConnect (d w) = Some dc →
         dc_credentials <$> directConnect (d w')
         = Some (setAuthToken t (dc_credentials dc))).
Proof.
  intros Hdc. unfold resolveSession.
  destruct token as [t|].
  - destruct (Hdc t eq_refl) as [dc Hdc'].
    destruct_world w. subst. simpl.
    eexists. split; [reflexivity|]. simpl. rewrite length_alter.
    repeat split; try reflexivity. intros t' dc' [= <-] [= <-]. reflexivity.
  - destruct_world w. eexists. split; [reflexivity|]. simpl. rewrite length_alter.
    repeat split; try reflexivity. intros t dc [=].
Qed.

(** The first session-expired response of a session: the closure is stored,
    [refreshToken] is called once, and when it returns the session is
    resolved and the queue is drained with its token. *)
Lemma interaction_first (refreshToken : RefreshToken) (ctx : InteractionContext)
    (handle : Handle) (success : bool) (r : CallbackResult) (w : World) :
  alive w = true →
  storedRequests (d w) = [] →
  tokenHasValue (ctx_reissuedToken ctx) w = false →
  interaction refreshToken ctx handle success r w
  = ('(token, wd) ← refreshToken (helper ctx)
                      (logRefresh (helper ctx)
                         (enqueue (mkResendRequestFunc ctx handle success r) w));
     if negb (alive wd) then Some wd
     else w' ← resolveSession (ctx_reissuedToken ctx) token wd;
          drain (storedRequests (d w')) token w').
Proof.
  intros Hal Hq Htok. unfold interaction. rewrite Hal, Hq, Htok. simpl.
  unfold enqueue. rewrite Hq. reflexivity.
Qed.

Lemma logRefresh_fields (h : nat) (w : World) :
  alive (logRefresh h w) = alive w
  ∧ d (logRefresh h w) = d w
  ∧ tokens (logRefresh h w) = tokens w
  ∧ pool (logRefresh h w) = pool w
  ∧ app (logRefresh h w) = app w
  ∧ delivered (logRefresh h w) = delivered w
  ∧ refreshCalls (logRefresh h w) = refreshCalls w ++ [h].
Proof. destruct w. simpl. repeat split; reflexivity. Qed.

(** One round of reauthorization.  The broker is idle (empty queue, unset
    current session); [first] and [others] are calls in flight under the
    current session whose responses are session-expired; the response of
    [first] arrives, and those of [others] arrive while its [refreshToken]
    runs.  [wd] is the state when [refreshToken] returns, [w'] the state
    when the response of [first] has been handled. *)
Lemma reauthorization_round (w : World) (first : ResendRequestFunc)
    (others : list ResendRequestFunc) (token : option AuthToken) :
  alive w = true →
  storedRequests (d w) = [] →
  tokenHasValue (reissuedToken (d w)) w = false →
  NoDup (map rr_handle (first :: others)) →
  Forall (expiredInFlight (reissuedToken (d w)) w) (first :: others) →
  (∀ t, token = Some t →
     canResend w ∧ Forall (λ f, is_Some (fixedRequestOf f t)) (first :: others)) →
  ∃ wd w',
    run (map responseOf others)
      (logRefresh (helper (rr_ctx first))
         (enqueue first (completed (rr_handle first) w))) = Some wd
    ∧ alive wd = true
    ∧ storedRequests (d wd) = first :: others
    ∧ refreshCalls wd = refreshCalls w ++ [helper (rr_ctx first)]
    ∧ delivered wd = delivered w
    ∧ sent (pool wd) = sent (pool w)
    ∧ tokens wd = tokens w
    ∧ reissuedToken (d wd) = reissuedToken (d w)
    ∧ step (Completed (rr_handle first) (rr_success first) (rr_result first)
              (map responseOf others) token) w = Some w'
    ∧ alive w' = true
    ∧ refreshCalls w' = refreshCalls w ++ [helper (rr_ctx first)]
    ∧ storedRequests (d w') = []
    ∧ tokens w'
      = alter (setValue token) (reissuedToken (d w)) (tokens w) ++ [newReissuedToken]
    ∧ reissuedToken (d w') = length (tokens w)
    ∧ terminated (pool w') = terminated (pool w)
    ∧ (token = None →
         delivered w' = delivered w ++ flat_map originalDelivery (first :: others)
         ∧ sent (pool w') = sent (pool w)
         ∧ nextHandle (pool w') = nextHandle (pool w)
         ∧ substitutions (d w') = substitutions (d w)
         ∧ directConnect (d w') = directConnect (d w))
    ∧ (∀ t, token = Some t →
         delivered w' = delivered w
         ∧ sent (pool w')
           = sent (pool w) ++ resendLog (nextHandle (pool w)) t (first :: others)
         ∧ (∀ (i : nat) f, (first :: others) !! i = Some f →
              ∃ rq, fixedRequestOf f t = Some rq
                ∧ inFlight (pool w') !! (nextHandle (pool w) + Z.of_nat i)
                  = Some (rq, FixedCallback (rr_ctx f) (rr_handle f))
                ∧ substitutions (d w') !! rr_handle f
                  = Some (nextHandle (pool w) + Z.of_nat i))
         ∧ ∃ dc, directConnect (d w') = Some dc ∧ authToken (dc_credentials dc) = t).
Proof.
  intros Hal Hq Htok Hnd Hall Hres.
  set (c := reissuedToken (d w)) in *.
  inversion Hall as [|? ? (rq & ctx0 & Hin & Hc & Hnew & Hctx) Hrest]; subst.
  pose proof Hnd as Hnd0. apply NoDup_cons in Hnd0 as [Hnotin Hnd'].
  destruct (recordExpired_fields ctx0 (rr_success first) (rr_result first))
    as (Hhelper & Hcell & _).
  rewrite <- Hctx in Hhelper, Hcell.
  (* the state in which [refreshToken] starts *)
  destruct (completed_fields (rr_handle first) w) as (Hs0 & Hd0 & Hdl0 & Hp0).
  set (w0 := completed (rr_handle first) w) in *.
  destruct (enqueue_fields first w0) as (Hs1 & Hq1 & Hsub1 & Hp1 & Hdl1).
  set (w1 := enqueue first w0) in *.
  destruct (logRefresh_fields (helper (rr_ctx first)) w1)
    as (Hal2 & Hd2 & Ht2 & Hp2 & Hap2 & Hdl2 & Hrc2).
  set (w2 := logRefresh (helper (rr_ctx first)) w1) in *.
  assert (sameSession w w1) as Hs01 by eauto using sameSession_trans.
  assert (alive w2 = true) as Halive2.
  { rewrite Hal2. destruct Hs01 as (-> & _). exact Hal. }
  assert (storedRequests (d w2) = [first]) as Hq2.
  { rewrite Hd2, Hq1, Hd0, Hq. reflexivity. }
  assert (tokenHasValue c w2 = false) as Htok2.
  { unfold tokenHasValue. rewrite Ht2. destruct Hs01 as (_ & -> & _). exact Htok. }
  assert (Forall (expiredInFlight c w2) others) as Hall2.
  { apply Forall_forall. intros g Hg. rewrite Forall_forall in Hrest.
    destruct (Hrest g Hg) as (rq' & ctx' & Hin' & Hrest').
    exists rq', ctx'. split; [|exact Hrest'].
    rewrite Hp2, Hp1, Hp0. simpl. rewrite lookup_delete_ne; [exact Hin'|].
    intros Heq. apply Hnotin. rewrite Heq. apply list_elem_of_fmap. by exists g. }
  destruct (dialog_enqueues c others w2 Halive2) as
    (wd & Hrun & Hsd & Hqd & Hsubd & Hdld & Hnextd & Hsentd & Htermd & Hkeepd & Hgoned);
    [by rewrite Hq2|exact Htok2|exact Hnd'|exact Hall2|].
  assert (alive wd = true) as Hald by (destruct Hsd as (-> & _); exact Halive2).
  assert (storedRequests (d wd) = first :: others) as Hqd' by (by rewrite Hqd, Hq2).
  assert (refreshCalls wd = refreshCalls w ++ [helper (rr_ctx first)]) as Hrcd.
  { destruct Hsd as (_ & _ & _ & -> & _). rewrite Hrc2.
    destruct Hs01 as (_ & _ & _ & -> & _). reflexivity. }
  assert (tokens wd = tokens w) as Htd.
  { destruct Hsd as (_ & -> & _). rewrite Ht2. by destruct Hs01 as (_ & -> & _). }
  assert (d w2 = d w1) as Hdw2 by exact Hd2.
  assert (directConnect (d wd) = directConnect (d w)) as Hdcd.
  { destruct Hsd as (_ & _ & _ & _ & _ & -> & _). rewrite Hd2.
    by destruct Hs01 as (_ & _ & _ & _ & _ & -> & _). }
  assert (reissuedToken (d wd) = c) as Hcd.
  { destruct Hsd as (_ & _ & _ & _ & -> & _). rewrite Hd2.
    by destruct Hs01 as (_ & _ & _ & _ & -> & _). }
  assert (pool w2 = pool_complete (rr_handle first) (pool w)) as Hpw2
    by (by rewrite Hp2, Hp1, Hp0).
  rewrite Hpw2 in Hnextd, Hsentd, Htermd. simpl in Hnextd, Hsentd, Htermd.
  rewrite Hdl2, Hdl1, Hdl0 in Hdld.
  rewrite Hd2, Hsub1, Hd0 in Hsubd.
  (* the session is resolved *)
  destruct (resolveSession_fields c token wd) as
    (w3 & Hres3 & Hal3 & Hap3 & Hrc3 & Hdl3 & Hp3 & Hq3 & Hsub3 & Ht3 & Hc3 & Hver3 & Hcred3).
  { intros t Ht. destruct (Hres t Ht) as [[(dc & Hdc & _) _] _].
    rewrite Hdcd, Hdc. eauto. }
  (* the response of [first] *)
  assert (step (Completed (rr_handle first) (rr_success first) (rr_result first)
                  (map responseOf others) token) w
          = drain (first :: others) token w3) as Hstep.
  { rewrite step_Completed. unfold complete. rewrite Hal, Hin. simpl.
    unfold sessionAwareCallback. rewrite Hnew. simpl. rewrite <- Hctx.
    fold (completed (rr_handle first) w). fold w0.
    rewrite interaction_first.
    - replace (mkResendRequestFunc (rr_ctx first) (rr_handle first) (rr_success first)
                 (rr_result first)) with first by (by destruct first).
      fold w1. fold w2. unfold dialogOf. rewrite Hrun. simpl. rewrite Hald. simpl.
      rewrite Hcell, Hc. fold c. rewrite Hres3. simpl. rewrite Hq3, Hqd'. reflexivity.
    - destruct Hs0 as (-> & _). exact Hal.
    - by rewrite Hd0.
    - rewrite Hcell, Hc. fold c.
      by rewrite (tokenHasValue_sameSession _ _ _ Hs0). }
  exists wd.
  destruct token as [t|].
  - destruct (Hres t eq_refl) as [[(dc & Hdc & Hverdc) Hnext] Hfix].
    assert (canResend w3) as Hcan3.
    { split.
      - rewrite Hdcd, Hdc in Hver3. simpl in Hver3.
        destruct (directConnect (d w3)) as [dc3|]; [|discriminate].
        exists dc3. split; [reflexivity|]. simpl in Hver3. congruence.
      - rewrite Hp3, Hnextd. exact Hnext. }
    destruct (drain_resend t (first :: others) w3) as
      (w' & Hdr & Hs' & Hq' & Hdl' & Hterm' & Hnext' & Hsent' & Hfl' & Hold' & Hsub' & Hoth');
      [congruence|exact Hcan3|congruence|exact Hfix|].
    exists w'. rewrite Hstep.
    rewrite Hp3, Hnextd in Hfl', Hsub', Hsent'.
    destruct Hs' as (Ha' & Ht' & _ & Hrc' & Hc' & Hdc' & _).
    repeat split; try congruence;
      match goal with H : Some _ = Some _ |- _ => injection H as <- end.
    + intros i f Hf.
      destruct (Hfl' i f Hf) as (rq' & Hrq' & Hin').
      exists rq'. split; [exact Hrq'|]. split; [exact Hin'|].
      by apply Hsub'.
    + pose proof (Hcred3 t dc eq_refl) as Hcr. rewrite Hdcd in Hcr.
      specialize (Hcr Hdc). rewrite <- Hdc' in Hcr.
      destruct (directConnect (d w')) as [dc'|]; [|discriminate].
      exists dc'. split; [reflexivity|]. simpl in Hcr. injection Hcr as ->. reflexivity.
  - destruct (drain_decline (first :: others) w3) as
      (w' & Hdr & Hs' & Hq' & Hsub' & Hp' & Hdl'); [congruence|congruence|].
    exists w'. rewrite Hstep.
    destruct Hs' as (Ha' & Ht' & _ & Hrc' & Hc' & Hdc' & _).
    assert (directConnect (d w3) = directConnect (d wd)) as Hdc3.
    { unfold resolveSession in Hres3. injection Hres3 as <-. by destruct_world wd. }
    repeat split; congruence.
Qed.

(** The resends complete, each one once, in any order: every completion
    removes a substitution and calls one issuer under its original handle;
    nothing is sent or refreshed. *)
Lemma resends_complete (cs : list ResendOutcome) (w : World) :
  alive w = true →
  NoDup (map ro_handle cs) →
  (∀ c, c ∈ cs →
     ∃ rq, inFlight (pool w) !! ro_handle c
           = Some (rq, FixedCallback (rr_ctx (ro_request c)) (rr_handle (ro_request c)))) →
  ∃ w', run (map doneEvent cs) w = Some w'
    ∧ sameSession w w'
    ∧ storedRequests (d w') = storedRequests (d w)
    ∧ sent (pool w') = sent (pool w)
    ∧ nextHandle (pool w') = nextHandle (pool w)
    ∧ terminated (pool w') = terminated (pool w)
    ∧ delivered w' = delivered w ++ flat_map doneDelivery cs
    ∧ (∀ k, k ∉ map ro_handle cs → inFlight (pool w') !! k = inFlight (pool w) !! k)
    ∧ (∀ k, k ∈ map ro_handle cs → inFlight (pool w') !! k = None)
    ∧ (∀ h, substitutions (d w) !! h = None → substitutions (d w') !! h = None)
    ∧ (∀ c, c ∈ cs → substitutions (d w') !! rr_handle (ro_request c) = None).
Proof.
  revert w. induction cs as [|c rest IH]; intros w Hal Hnd Hin.
  - exists w. simpl. rewrite app_nil_r.
    repeat split; auto using sameSession_refl; intros k Hk; by apply elem_of_nil in Hk.
  - apply NoDup_cons in Hnd as [Hnotin Hnd].
    destruct (Hin c) as (rq & Hc); [by left|].
    change (run (map doneEvent (c :: rest)) w)
      with (w' ← complete (dialogOf [] None) (ro_handle c) (ro_success c) (ro_result c) w;
            run (map doneEvent rest) w').
    destruct (complete_fixed (dialogOf [] None) _ _ _ _ (ro_success c) (ro_result c) w Hal Hc)
      as (w1 & Hstep & Hs1 & Hq1 & Hsub1 & Hp1 & Hd1).
    rewrite Hstep. simpl.
    assert (alive w1 = true) as Hal1 by (destruct Hs1 as (-> & _); exact Hal).
    destruct (IH w1 Hal1 Hnd) as
      (w' & Hrun & Hs' & Hq' & Hsent' & Hnext' & Hterm' & Hd' & Hkeep' & Hgone' & Hmono' & Hsub').
    { intros c' Hc'. destruct (Hin c') as (rq' & Hin'); [by right|].
      exists rq'. rewrite Hp1. simpl. rewrite lookup_delete_ne; [exact Hin'|].
      intros Heq. apply Hnotin. rewrite Heq. apply list_elem_of_fmap. by exists c'. }
    rewrite Hp1 in Hsent', Hnext', Hterm', Hkeep'. simpl in *.
    exists w'. split; [exact Hrun|].
    split; [eauto using sameSession_trans|].
    split; [congruence|].
    split; [exact Hsent'|]. split; [exact Hnext'|]. split; [exact Hterm'|].
    split; [by rewrite Hd', Hd1, <- app_assoc|].
    split; [|split; [|split]].
    + intros k Hk. apply not_elem_of_cons in Hk as [Hne Hk].
      rewrite Hkeep' by exact Hk. by apply lookup_delete_ne.
    + intros k Hk. apply elem_of_cons in Hk as [->|Hk]; [|by apply Hgone'].
      rewrite Hkeep' by exact Hnotin. apply lookup_delete_eq.
    + intros h Hh. apply Hmono'. rewrite Hsub1. apply lookup_delete_None. by right.
    + intros c' Hc'. apply elem_of_cons in Hc' as [->|Hc']; [|by apply Hsub'].
      apply Hmono'. rewrite Hsub1. apply lookup_delete_eq.
Qed.

Lemma deliveredTo_app (h : Handle) (ds1 ds2 : list Delivery) :
  deliveredTo h (ds1 ++ ds2) = deliveredTo h ds1 ++ deliveredTo h ds2.
Proof. apply List.filter_app. Qed.

Lemma deliveredTo_none {A : Type} (g : A → list Delivery) (key : A → Handle)
    (l : list A) (h : Handle) :
  h ∉ map key l →
  (∀ y, y ∈ l → Forall (λ dlv, dlv_handle dlv = key y) (g y)) →
  deliveredTo h (flat_map g l) = [].
Proof.
  induction l as [|y l IH]; intros Hh Hg; simpl; [reflexivity|].
  apply not_elem_of_cons in Hh as [Hne Hh].
  rewrite deliveredTo_app, IH; [|exact Hh|intros z Hz; apply Hg; by right].
  rewrite app_nil_r.
  assert (Forall (λ dlv, dlv_handle dlv = key y) (g y)) as Hy by (apply Hg; by left).
  induction Hy as [|dlv ds Hdlv _ IHds]; simpl; [reflexivity|].
  rewrite bool_decide_eq_false_2 by congruence. exact IHds.
Qed.

(** Among deliveries made one per element of a list with distinct handles,
    each handle receives exactly one. *)
Lemma deliveredTo_once {A : Type} (g : A → list Delivery) (key : A → Handle)
    (l : list A) (x : A) :
  NoDup (map key l) → x ∈ l →
  (∀ y, y ∈ l → ∃ dlv, g y = [dlv] ∧ dlv_handle dlv = key y) →
  ∃ dlv, deliveredTo (key x) (flat_map g l) = [dlv] ∧ g x = [dlv].
Proof.
  induction l as [|y l IH]; intros Hnd Hx Hg; [by apply elem_of_nil in Hx|].
  apply NoDup_cons in Hnd as [Hnotin Hnd].
  assert (∀ z, z ∈ l → Forall (λ dlv, dlv_handle dlv = key z) (g z)) as Hall.
  { intros z Hz. destruct (Hg z) as (dlv & -> & Hk); [by right|]. by repeat constructor. }
  simpl. rewrite deliveredTo_app.
  destruct (decide (key x = key y)) as [Heq|Hne].
  - assert (g x = g y) as Hgx.
    { apply elem_of_cons in Hx as [->|Hx]; [reflexivity|].
      exfalso. apply Hnotin. rewrite <- Heq. apply list_elem_of_fmap. by exists x. }
    destruct (Hg y) as (dlv & Hgy & Hk); [by left|].
    exists dlv. rewrite Hgx, Hgy. split; [|reflexivity].
    rewrite (deliveredTo_none g key l (key x)); [|by rewrite Heq|exact Hall].
    simpl. rewrite bool_decide_eq_true_2 by congruence. reflexivity.
  - apply elem_of_cons in Hx as [->|Hx]; [congruence|].
    destruct (IH Hnd Hx) as (dlv & Hdlv & Hgx); [intros z Hz; apply Hg; by right|].
    exists dlv. split; [|exact Hgx].
    destruct (Hg y) as (dlv' & -> & Hk); [by left|].
    simpl. rewrite bool_decide_eq_false_2 by congruence. exact Hdlv.
Qed.

Lemma originalDelivery_once (f : ResendRequestFunc) :
  hasIssuer f → requestNewSession (rr_success f) (rr_result f) = Some true →
  ∃ dlv, originalDelivery f = [dlv]
    ∧ dlv_handle dlv = rr_handle f ∧ dlv_success dlv = rr_success f.
Proof.
  unfold hasIssuer, originalDelivery, deliveryOf.
  destruct (callback (rr_ctx f)) as [[issuer|issuer]|]; [eauto| |tauto].
  destruct (rr_result f) as [?|? ?|r]; try tauto. intros _.
  unfold requestNewSession, batchDelivery.
  destruct (rr_success f); simpl.
  - destruct r as [e|[single|arr]]; simpl; try discriminate; eauto.
  - destruct r as [e|[single|arr]]; simpl; try discriminate; eauto.
Qed.

Lemma fixedDelivery_once (f : ResendRequestFunc) (success : bool) (r : CallbackResult) :
  hasIssuer f → sameInstance (rr_result f) r →
  ∃ dlv, fixedDelivery (rr_ctx f) (rr_handle f) success r = [dlv]
    ∧ dlv_handle dlv = rr_handle f.
Proof.
  unfold hasIssuer, sameInstance.
  destruct (callback (rr_ctx f)) as [[issuer|issuer]|] eqn:Hcb; [| |tauto].
  - intros _ _. destruct (fixedDelivery_issuer _ (rr_handle f) success r _ Hcb)
      as (s' & r' & ->). eauto.
  - destruct (rr_result f) as [?|? ?|r0]; try tauto. intros _.
    destruct r as [?|? ?|r1]; try tauto. intros _.
    rewrite (fixedDelivery_batch _ _ _ _ _ Hcb). eauto.
Qed.

(** While the queue is not empty (a dialog is open), no event makes the
    broker call [refreshToken], and no event removes a stored request. *)
Lemma sendRequest_fields (rq : Request) (c : CompletionFunc) (w : World) (h : Handle)
    (w' : World) :
  sendRequest rq c w = Some (h, w') →
  sameSession w w' ∧ d w' = d w ∧ delivered w' = delivered w.
Proof.
  rewrite sendRequest_eq.
  destruct (directConnect (d w)) as [dc|]; simpl.
  - destruct (certificateVerifier dc); simpl; intros [= <- <-];
      destruct_world w; unfold sameSession; simpl; repeat split; reflexivity.
  - destruct (systemContext (d w)) as [sc|]; simpl; [|discriminate].
    destruct (ctx_certificateVerifier sc); simpl; intros [= <- <-];
      destruct_world w; unfold sameSession; simpl; repeat split; reflexivity.
Qed.

Lemma step_while_queued (e : Event) (w w' : World) :
  storedRequests (d w) ≠ [] →
  step e w = Some w' →
  refreshCalls w' = refreshCalls w
  ∧ ∃ more, storedRequests (d w') = storedRequests (d w) ++ more.
Proof.
  intros Hq Hstep.
  assert (∀ w0, sameSession w w0 → storedRequests (d w0) = storedRequests (d w) →
            refreshCalls w0 = refreshCalls w
            ∧ ∃ more, storedRequests (d w0) = storedRequests (d w) ++ more) as Hsame.
  { intros w0 (_ & _ & _ & Hrc & _) Hq0. split; [exact Hrc|].
    exists []. by rewrite app_nil_r. }
  destruct e as [h success r dialog token|requestId|creds|tokenHelper requests issuer
                 |aHelper aMethod aUrl body aCallback proxyToServer|].
  - rewrite step_Completed in Hstep. unfold complete in Hstep.
    destruct (alive w) eqn:Hal; simpl in Hstep;
      [|injection Hstep as <-; by apply Hsame; [apply sameSession_refl|]].
    destruct (inFlight (pool w) !! h) as [[rq completion]|] eqn:Hin;
      [|injection Hstep as <-; by apply Hsame; [apply sameSession_refl|]].
    destruct (completed_fields h w) as (Hs0 & Hd0 & _).
    fold (completed h w) in Hstep.
    destruct completion as [ctx|ctx originalHandle|cb].
    + unfold sessionAwareCallback in Hstep.
      destruct (requestNewSession success r) as [[|]|]; simpl in Hstep; [| |discriminate].
      * unfold interaction in Hstep.
        destruct Hs0 as (Hal0 & Ht0 & Hap0 & Hrc0 & Hrest0).
        rewrite Hal0, Hal, Hd0 in Hstep. simpl in Hstep.
        rewrite bool_decide_eq_false_2 in Hstep by assumption. simpl in Hstep.
        destruct (tokenHasValue _ (completed h w)).
        -- rewrite (retry_refreshCalls _ _ _ _ Hstep), Hrc0.
           split; [reflexivity|]. exists [].
           by rewrite (retry_storedRequests _ _ _ _ Hstep), Hd0, app_nil_r.
        -- injection Hstep as <-.
           destruct (enqueue_fields
                       (mkResendRequestFunc (recordExpired ctx success r) h success r)
                       (completed h w)) as ((_ & _ & _ & Hrc1 & _) & Hq1 & _).
           unfold enqueue in Hrc1, Hq1. rewrite Hd0 in Hrc1, Hq1.
           split; [by rewrite Hrc1, Hrc0|]. eauto.
      * injection Hstep as <-.
        destruct (invokeIfSet_fields (callback (recordExpired ctx success r)) success h r
                    (completed h w)) as (_ & Hd1 & _ & _ & _ & Hrc1 & _).
        destruct Hs0 as (_ & _ & _ & Hrc0 & _).
        split; [by rewrite Hrc1, Hrc0|]. exists []. by rewrite Hd1, Hd0, app_nil_r.
    + injection Hstep as <-.
      assert (alive w = true) as Hal' by exact Hal.
      destruct (complete_fixed (dialogOf dialog token) h originalHandle rq ctx success r
                  w Hal' Hin) as (w3 & Hc & Hs3 & Hq3 & _).
      unfold complete in Hc. rewrite Hal, Hin in Hc. simpl in Hc.
      injection Hc as <-. by apply Hsame.
    + injection Hstep as <-.
      destruct (invokeIfSet_fields cb success h r (completed h w))
        as (_ & Hd1 & _ & _ & _ & Hrc1 & _).
      destruct Hs0 as (_ & _ & _ & Hrc0 & _).
      split; [by rewrite Hrc1, Hrc0|]. exists []. by rewrite Hd1, Hd0, app_nil_r.
  - simpl in Hstep. injection Hstep as <-. unfold cancelRequest.
    destruct (substitutions (d w) !! requestId); destruct w; simpl;
      (split; [reflexivity|]); exists []; by rewrite app_nil_r.
  - simpl in Hstep. injection Hstep as <-. unfold updateCredentials.
    destruct (directConnect (d w)) as [dc|] eqn:Hdc;
      [destruct (isBearerToken (authToken creds))|];
      destruct_world w; (split; [reflexivity|]); exists []; by rewrite app_nil_r.
  - simpl in Hstep. unfold jsonRpcBatchCall in Hstep.
    destruct (isValid _); simpl in Hstep.
    + unfold executeRequest in Hstep.
      destruct (sendRequest _ _ w) as [[h w1]|] eqn:Hsend; [|discriminate].
      injection Hstep as <-.
      destruct (sendRequest_fields _ _ _ _ _ Hsend) as (Hs & Hd1 & _).
      apply Hsame; [exact Hs|by rewrite Hd1].
    + injection Hstep as <-. by apply Hsame; [apply sameSession_refl|].
  - simpl in Hstep. unfold sendRequestWithHelper in Hstep.
    destruct (isValid _); simpl in Hstep.
    + unfold executeRequest in Hstep.
      destruct (sendRequest _ _ w) as [[h w1]|] eqn:Hsend; [|discriminate].
      injection Hstep as <-.
      destruct (sendRequest_fields _ _ _ _ _ Hsend) as (Hs & Hd1 & _).
      apply Hsame; [exact Hs|by rewrite Hd1].
    + injection Hstep as <-. by apply Hsame; [apply sameSession_refl|].
  - simpl in Hstep. injection Hstep as <-. destruct w. simpl.
    split; [reflexivity|]. exists []. by rewrite app_nil_r.
Qed.

Lemma run_while_queued (es : list Event) (w w' : World) :
  storedRequests (d w) ≠ [] →
  run es w = Some w' →
  refreshCalls w' = refreshCalls w
  ∧ ∃ more, storedRequests (d w') = storedRequests (d w) ++ more.
Proof.
  revert w. induction es as [|e es IH]; intros w Hq Hrun.
  - injection Hrun as <-. split; [reflexivity|]. exists []. by rewrite app_nil_r.
  - change (run (e :: es) w) with (w1 ← step e w; run es w1) in Hrun.
    destruct (step e w) as [w1|] eqn:Hstep; [|discriminate]. simpl in Hrun.
    destruct (step_while_queued e w w1 Hq Hstep) as (Hrc1 & more1 & Hq1).
    destruct (IH w1) as (Hrc' & more' & Hq'); [|exact Hrun|].
    + rewrite Hq1. by destruct (storedRequests (d w)).
    + split; [congruence|]. exists (more1 ++ more'). by rewrite Hq', Hq1, <- app_assoc.
Qed.

(** ** [cancelRequest] *)

(** C4.  In every state, [cancelRequest H] terminates exactly one call of
    the transport: the resend recorded for [H] in the substitution map if
    there is one, and [H] itself otherwise; it touches nothing else.  So
    between the dispatch of the resend of [H] and its completion the call
    terminated is the resend, and once the resend has completed it is [H]
    again. *)
Theorem cancelRequest_routing (requestId : Handle) (w : World) :
  step (Cancel requestId) w = Some (cancelRequest requestId w)
  ∧ (∀ resendHandle, substitutions (d w) !! requestId = Some resendHandle →
       terminated (pool (cancelRequest requestId w))
       = terminated (pool w) ++ [resendHandle]
       ∧ inFlight (pool (cancelRequest requestId w))
         = delete resendHandle (inFlight (pool w)))
  ∧ (substitutions (d w) !! requestId = None →
       terminated (pool (cancelRequest requestId w)) = terminated (pool w) ++ [requestId]
       ∧ inFlight (pool (cancelRequest requestId w))
         = delete requestId (inFlight (pool w)))
  ∧ sent (pool (cancelRequest requestId w)) = sent (pool w)
  ∧ d (cancelRequest requestId w) = d w
  ∧ delivered (cancelRequest requestId w) = delivered w
  ∧ refreshCalls (cancelRequest requestId w) = refreshCalls w
  ∧ (∀ f t rq w1,
       alive w = true → canResend w → fixedRequestOf f t = Some rq →
       rr_handle f = requestId →
       retry f (Some t) w = Some w1 →
       terminated (pool (cancelRequest requestId w1))
       = terminated (pool w1) ++ [nextHandle (pool w)])
  ∧ (∀ h rq ctx success r dialog token w3,
       alive w = true →
       inFlight (pool w) !! h = Some (rq, FixedCallback ctx requestId) →
       step (Completed h success r dialog token) w = Some w3 →
       terminated (pool (cancelRequest requestId w3))
       = terminated (pool w3) ++ [requestId]).
Proof.
  split; [reflexivity|].
  split.
  { intros resendHandle Hsub. unfold cancelRequest. rewrite Hsub. by split. }
  split.
  { intros Hsub. unfold cancelRequest. rewrite Hsub. by split. }
  split; [|split; [|split; [|split; [|split]]]];
    try (unfold cancelRequest; by destruct (substitutions (d w) !! requestId)).
  - intros f t rq w1 Hal Hcan Hrq <- Hr.
    destruct (retry_resend f t rq w Hal Hcan Hrq) as (w1' & Hr' & _ & _ & Hsub1 & _).
    rewrite Hr in Hr'. injection Hr' as <-.
    unfold cancelRequest. rewrite Hsub1, lookup_insert_eq. reflexivity.
  - intros h rq ctx success r dialog token w3 Hal Hin Hstep.
    rewrite step_Completed in Hstep.
    destruct (complete_fixed (dialogOf dialog token) h requestId rq ctx success r w Hal Hin)
      as (w3' & Hc & _ & _ & Hsub3 & _).
    rewrite Hstep in Hc. injection Hc as <-.
    unfold cancelRequest. rewrite Hsub3, lookup_delete_eq. reflexivity.
Qed.

(** ** The claims about the reauthorization arbitrator *)

Lemma refresh_start_fields (h : nat) (f : ResendRequestFunc) (k : Handle) (w : World) :
  storedRequests (d w) = [] →
  storedRequests (d (logRefresh h (enqueue f (completed k w)))) = [f]
  ∧ refreshCalls (logRefresh h (enqueue f (completed k w))) = refreshCalls w ++ [h].
Proof. intros Hq. destruct_world w. subst. by split. Qed.

(** X19.  Single-flight reauthorization on a broker that can resend.  The
    broker is idle; the calls [first :: others] (any number of them, at
    least one) are in flight under the current session, each with an
    issuer's callback, and their responses are session-expired; the response
    of [first] arrives, those of [others] arrive while its [refreshToken]
    runs.  Then [refreshToken] is called exactly once, by the first response;
    when it returns the queue holds all the requests in the order of arrival
    and nothing else has happened (and whatever events the dialog handles
    instead, none of them calls [refreshToken] or removes the first request
    from the queue).  If it returns no token, every issuer has received
    exactly one result when the round ends, on every connection.  If it
    returns a token, the broker can resend (a direct connection with a
    certificate verifier, a pool whose next handle is positive) and the
    stored requests carry credentials, then nobody has been called yet, every
    request has one resend in flight, and whenever these resends complete,
    each once and in any order, every issuer has received exactly one result,
    still with one [refreshToken] call in all. *)
Theorem single_flight_reauthorization (w : World) (first : ResendRequestFunc)
    (others : list ResendRequestFunc) (token : option AuthToken) :
  alive w = true →
  storedRequests (d w) = [] →
  tokenHasValue (reissuedToken (d w)) w = false →
  NoDup (map rr_handle (first :: others)) →
  Forall (expiredInFlight (reissuedToken (d w)) w) (first :: others) →
  Forall hasIssuer (first :: others) →
  (∀ t, token = Some t →
     canResend w ∧ Forall (λ f, is_Some (fixedRequestOf f t)) (first :: others)) →
  ∃ wd w',
    run (map responseOf others)
      (logRefresh (helper (rr_ctx first))
         (enqueue first (completed (rr_handle first) w))) = Some wd
    ∧ storedRequests (d wd) = first :: others
    ∧ refreshCalls wd = refreshCalls w ++ [helper (rr_ctx first)]
    ∧ delivered wd = delivered w
    ∧ sent (pool wd) = sent (pool w)
    ∧ (∀ dialog wd',
         run dialog
           (logRefresh (helper (rr_ctx first))
              (enqueue first (completed (rr_handle first) w))) = Some wd' →
         refreshCalls wd' = refreshCalls w ++ [helper (rr_ctx first)]
         ∧ ∃ more, storedRequests (d wd') = first :: more)
    ∧ step (Completed (rr_handle first) (rr_success first) (rr_result first)
              (map responseOf others) token) w = Some w'
    ∧ refreshCalls w' = refreshCalls w ++ [helper (rr_ctx first)]
    ∧ storedRequests (d w') = []
    ∧ (token = None →
         ∃ ds, delivered w' = delivered w ++ ds
           ∧ sent (pool w') = sent (pool w)
           ∧ ∀ f, f ∈ first :: others → ∃ dlv, deliveredTo (rr_handle f) ds = [dlv])
    ∧ (∀ t, token = Some t →
         delivered w' = delivered w
         ∧ length (sent (pool w')) = (length (sent (pool w)) + length (first :: others))%nat
         ∧ (∀ (i : nat) f, (first :: others) !! i = Some f →
              ∃ rq, inFlight (pool w') !! (nextHandle (pool w) + Z.of_nat i)
                    = Some (rq, FixedCallback (rr_ctx f) (rr_handle f)))
         ∧ ∀ cs : list ResendOutcome,
             NoDup (map ro_handle cs) →
             Permutation (map ro_request cs) (first :: others) →
             (∀ c, c ∈ cs →
                sameInstance (rr_result (ro_request c)) (ro_result c)
                ∧ ∃ rq, inFlight (pool w') !! ro_handle c
                        = Some (rq, FixedCallback (rr_ctx (ro_request c))
                                      (rr_handle (ro_request c)))) →
             ∃ w'' ds,
               run (map doneEvent cs) w' = Some w''
               ∧ refreshCalls w'' = refreshCalls w ++ [helper (rr_ctx first)]
               ∧ sent (pool w'') = sent (pool w')
               ∧ delivered w'' = delivered w ++ ds
               ∧ ∀ f, f ∈ first :: others →
                   ∃ dlv, deliveredTo (rr_handle f) ds = [dlv]).
Proof.
  intros Hal Hq Htok Hnd Hall Hiss Hres.
  destruct (reauthorization_round w first others token Hal Hq Htok Hnd Hall Hres) as
    (wd & w' & Hrun & Hald & Hqd & Hrcd & Hdld & Hsentd & _ & _ & Hstep & Hal' & Hrc'
     & Hq' & _ & _ & _ & Hnone & Hsome).
  exists wd, w'. repeat (split; [assumption|]). split.
  { intros dialog wd' Hrun'.
    destruct (refresh_start_fields (helper (rr_ctx first)) first (rr_handle first) w Hq)
      as [Hq2 Hrc2].
    assert (storedRequests
              (d (logRefresh (helper (rr_ctx first))
                    (enqueue first (completed (rr_handle first) w)))) ≠ []) as Hne
      by (by rewrite Hq2).
    destruct (run_while_queued dialog _ wd' Hne Hrun') as (Hrc & more & Hmore).
    rewrite Hrc, Hmore, Hq2. eauto. }
  repeat (split; [assumption|]). split.
  - intros ->. destruct (Hnone eq_refl) as (Hdl' & Hsent' & _).
    exists (flat_map originalDelivery (first :: others)).
    split; [exact Hdl'|]. split; [exact Hsent'|].
    intros f Hf.
    destruct (deliveredTo_once originalDelivery rr_handle (first :: others) f Hnd Hf)
      as (dlv & Hdlv & _); [|eauto].
    intros y Hy. rewrite Forall_forall in Hall, Hiss.
    destruct (Hall y Hy) as (_ & _ & _ & _ & Hnew & _).
    destruct (originalDelivery_once y (Hiss y Hy) Hnew) as (dlv & ? & ? & _). eauto.
  - intros t ->. destruct (Hsome t eq_refl) as (Hdl' & Hsent' & Hfl' & _).
    destruct (Hres t eq_refl) as [_ Hfix].
    split; [exact Hdl'|]. split.
    { rewrite Hsent', length_app, resendLog_length by exact Hfix. reflexivity. }
    split.
    { intros i f Hf. destruct (Hfl' i f Hf) as (rq & _ & Hin & _). eauto. }
    intros cs Hndc Hperm Hcs.
    destruct (resends_complete cs w' Hal' Hndc) as
      (w'' & Hrun'' & Hs'' & _ & Hsent'' & _ & _ & Hdl'' & _).
    { intros c Hc. by destruct (Hcs c Hc) as [_ ?]. }
    exists w'', (flat_map doneDelivery cs).
    split; [exact Hrun''|].
    split; [destruct Hs'' as (_ & _ & _ & -> & _); exact Hrc'|].
    split; [exact Hsent''|].
    split; [by rewrite Hdl'', Hdl'|].
    intros f Hf.
    assert (∃ c, c ∈ cs ∧ ro_request c = f) as (c & Hc & <-).
    { apply list_elem_of_In in Hf.
      apply (Permutation_in _ (Permutation_sym Hperm)) in Hf.
      apply in_map_iff in Hf as (c & Hcf & Hc). exists c.
      split; [by apply list_elem_of_In|exact Hcf]. }
    destruct (deliveredTo_once doneDelivery (λ c, rr_handle (ro_request c)) cs c)
      as (dlv & Hdlv & _); [|exact Hc| |eauto].
    + rewrite <- (map_map ro_request rr_handle).
      rewrite (Permutation_map rr_handle Hperm). exact Hnd.
    + intros y Hy. destruct (Hcs y Hy) as [Hinst _].
      apply fixedDelivery_once; [|exact Hinst].
      rewrite Forall_forall in Hiss. apply Hiss.
      apply list_elem_of_In. apply (Permutation_in _ Hperm).
      apply in_map. by apply list_elem_of_In.
Qed.

(** C3.  Decline fallback.  In a round of reauthorization whose
    [refreshToken] returns no token, every stored request, the first one
    included, calls its own callback with the success flag, the handle and
    the result of its original response, in the order of the queue; nothing
    is sent to the transport, no substitution is recorded and the queue is
    left empty. *)
Theorem decline_delivers_original_responses (w : World) (first : ResendRequestFunc)
    (others : list ResendRequestFunc) :
  alive w = true →
  storedRequests (d w) = [] →
  tokenHasValue (reissuedToken (d w)) w = false →
  NoDup (map rr_handle (first :: others)) →
  Forall (expiredInFlight (reissuedToken (d w)) w) (first :: others) →
  ∃ w',
    step (Completed (rr_handle first) (rr_success first) (rr_result first)
            (map responseOf others) None) w = Some w'
    ∧ delivered w' = delivered w ++ flat_map originalDelivery (first :: others)
    ∧ (∀ f issuer, f ∈ first :: others →
         callback (rr_ctx f) = Some (IssuerCallback issuer) →
         originalDelivery f
         = [mkDelivery issuer (rr_success f) (rr_handle f) (PayloadResult (rr_result f))])
    ∧ (∀ f, f ∈ first :: others → hasIssuer f →
         ∃ dlv, originalDelivery f = [dlv]
           ∧ dlv_handle dlv = rr_handle f ∧ dlv_success dlv = rr_success f)
    ∧ sent (pool w') = sent (pool w)
    ∧ nextHandle (pool w') = nextHandle (pool w)
    ∧ substitutions (d w') = substitutions (d w)
    ∧ storedRequests (d w') = []
    ∧ refreshCalls w' = refreshCalls w ++ [helper (rr_ctx first)].
Proof.
  intros Hal Hq Htok Hnd Hall.
  destruct (reauthorization_round w first others None Hal Hq Htok Hnd Hall) as
    (wd & w' & _ & _ & _ & _ & _ & _ & _ & _ & Hstep & _ & Hrc' & Hq' & _ & _ & _
     & Hnone & _); [intros t [=]|].
  destruct (Hnone eq_refl) as (Hdl' & Hsent' & Hnext' & Hsub' & _).
  exists w'. split; [exact Hstep|]. split; [exact Hdl'|].
  split.
  { intros f issuer _ Hcb. unfold originalDelivery. rewrite Hcb. reflexivity. }
  split.
  { intros f Hf Hiss. rewrite Forall_forall in Hall.
    destruct (Hall f Hf) as (_ & _ & _ & _ & Hnew & _).
    by apply originalDelivery_once. }
  repeat split; assumption.
Qed.

(** ** One resend for each handle *)

Lemma places_frame (held : option Handle) (H : Handle) (w w' : World) :
  storedRequests (d w') = storedRequests (d w) → pool w' = pool w →
  places held H w' = places held H w.
Proof.
  intros Hq Hp. unfold places, storedFor, resendsOf, awaitsResponse.
  by rewrite Hq, Hp.
Qed.

Lemma resendInvariant_frame (held : option Handle) (w w' : World) :
  storedRequests (d w') = storedRequests (d w) → pool w' = pool w →
  resendInvariant held w → resendInvariant held w'.
Proof.
  intros Hq Hp Hinv H. rewrite (places_frame _ _ _ _ Hq Hp), Hp. apply Hinv.
Qed.

Lemma resendInvariant_mono (held held' : option Handle) (w w' : World) :
  nextHandle (pool w') = nextHandle (pool w) →
  (∀ H, (places held' H w' ≤ places held H w)%nat) →
  resendInvariant held w → resendInvariant held' w'.
Proof.
  intros Hn Hle Hinv H. destruct (Hinv H) as [H1 H0]. specialize (Hle H).
  split; [lia|]. rewrite Hn. intros Hge. specialize (H0 Hge). lia.
Qed.

Lemma resendInvariant_release (h : Handle) (w : World) :
  resendInvariant (Some h) w → resendInvariant None w.
Proof.
  apply resendInvariant_mono; [reflexivity|].
  intros H. unfold places. simpl. lia.
Qed.

Lemma resendInvariant_initial (w : World) :
  storedRequests (d w) = [] → inFlight (pool w) = ∅ → sent (pool w) = [] →
  resendInvariant None w.
Proof.
  intros Hq Hin Hs H.
  unfold places, storedFor, resendsOf, awaitsResponse.
  rewrite Hq, Hin, Hs, lookup_empty. simpl. split; [lia|reflexivity].
Qed.

Lemma places_dispatch (held : option Handle) (H : Handle) (rq : Request)
    (c : CompletionFunc) (w w' : World) :
  storedRequests (d w') = storedRequests (d w) →
  pool w' = (pool_sendRequest rq c (pool w)).2 →
  places held H w'
  = (Nat.b2n (heldBy held H)
     + Nat.b2n (if bool_decide (H = nextHandle (pool w)) then isSessionAware c
                else awaitsResponse H w)
     + length (storedFor H w) + length (resendsOf H w)
     + Nat.b2n (isResendOf H (nextHandle (pool w), rq, c)))%nat.
Proof.
  intros Hq Hp. unfold places, storedFor, resendsOf, awaitsResponse.
  rewrite Hq, Hp. cbn [snd pool_sendRequest sent inFlight].
  rewrite List.filter_app, length_app. cbn [List.filter].
  case_bool_decide as Hn.
  - subst H. rewrite lookup_insert_eq.
    destruct (isResendOf _ _); simpl; lia.
  - rewrite lookup_insert_ne by done.
    destruct (isResendOf _ _); simpl; lia.
Qed.

Lemma sendRequest_footprint (rq : Request) (c : CompletionFunc) (w : World)
    (h : Handle) (w' : World) :
  sendRequest rq c w = Some (h, w') →
  storedRequests (d w') = storedRequests (d w)
  ∧ (pool w' = pool w ∨ pool w' = (pool_sendRequest rq c (pool w)).2).
Proof.
  rewrite sendRequest_eq. intros Hs.
  destruct (match directConnect (d w) with
            | Some dc => Some (certificateVerifier dc)
            | None => ctx_certificateVerifier <$> systemContext (d w)
            end) as [[]|]; simpl in Hs; [| |discriminate].
  - injection Hs as _ <-. destruct_world w. split; [reflexivity|by right].
  - injection Hs as _ <-. split; [reflexivity|by left].
Qed.

(** A resend moves the handle it is made for from the handler to the
    resends. *)
Lemma sendRequest_resend (rq : Request) (ctx : InteractionContext) (H0 : Handle)
    (w : World) (h : Handle) (w' : World) :
  resendInvariant (Some H0) w →
  sendRequest rq (FixedCallback ctx H0) w = Some (h, w') →
  resendInvariant None w'.
Proof.
  intros Hinv Hs.
  destruct (sendRequest_footprint _ _ _ _ _ Hs) as [Hq [Hp|Hp]].
  - apply (resendInvariant_release H0).
    by apply (resendInvariant_frame _ w).
  - intros H. destruct (Hinv H) as [H1 Hfresh].
    rewrite (places_dispatch _ _ _ _ _ _ Hq Hp), Hp.
    cbn [snd pool_sendRequest nextHandle].
    unfold places in *. unfold isResendOf. cbn [snd heldBy isSessionAware] in *.
    assert (Nat.b2n (if bool_decide (H = nextHandle (pool w)) then false
                     else awaitsResponse H w)
            ≤ Nat.b2n (awaitsResponse H w))%nat as Hle.
    { destruct (bool_decide (H = nextHandle (pool w))), (awaitsResponse H w); simpl; lia. }
    change (Nat.b2n false) with 0%nat.
    split; [lia|]. intros Hge.
    assert (nextHandle (pool w) ≤ H) as Hge' by lia.
    specialize (Hfresh Hge'). lia.
Qed.

(** A call that is not a resend takes a handle that is in no place yet. *)
Lemma sendRequest_first (rq : Request) (c : CompletionFunc) (w : World)
    (h : Handle) (w' : World) :
  (∀ ctx H0, c ≠ FixedCallback ctx H0) →
  resendInvariant None w →
  sendRequest rq c w = Some (h, w') →
  resendInvariant None w'.
Proof.
  intros Hc Hinv Hs.
  destruct (sendRequest_footprint _ _ _ _ _ Hs) as [Hq [Hp|Hp]].
  - by apply (resendInvariant_frame _ w).
  - intros H. destruct (Hinv H) as [H1 Hfresh].
    rewrite (places_dispatch _ _ _ _ _ _ Hq Hp), Hp.
    cbn [snd pool_sendRequest nextHandle].
    assert (isResendOf H (nextHandle (pool w), rq, c) = false) as ->.
    { unfold isResendOf. simpl. destruct c; try reflexivity. by destruct (Hc ctx originalHandle). }
    unfold places in *. cbn [heldBy] in *. change (Nat.b2n false) with 0%nat in *.
    case_bool_decide as Hn.
    + subst H. assert (nextHandle (pool w) ≤ nextHandle (pool w)) as Hge by lia.
      specialize (Hfresh Hge). split; [destruct (isSessionAware c); simpl; lia|lia].
    + split; [lia|]. intros Hge.
      assert (nextHandle (pool w) ≤ H) as Hge' by lia.
      specialize (Hfresh Hge'). lia.
Qed.

Lemma fixedCallback_footprint (ctx : InteractionContext) (originalHandle : Handle)
    (success : bool) (h : Handle) (r : CallbackResult) (w : World) :
  storedRequests (d (fixedCallback ctx originalHandle success h r w))
  = storedRequests (d w)
  ∧ pool (fixedCallback ctx originalHandle success h r w) = pool w.
Proof.
  unfold fixedCallback. destruct (alive w); simpl; [|done].
  set (w0 := setD _ w).
  assert (storedRequests (d w0) = storedRequests (d w) ∧ pool w0 = pool w) as [Hq Hp].
  { subst w0. destruct_world w. by split. }
  rewrite <- Hq, <- Hp. clearbody w0.
  assert (∀ cb s hh rr,
            storedRequests (d (invoke cb s hh rr w0)) = storedRequests (d w0)
            ∧ pool (invoke cb s hh rr w0) = pool w0) as Hinvoke.
  { intros cb s hh rr.
    destruct (invokeIfSet_fields (Some cb) s hh rr w0) as (_ & Hd & _ & Hpool & _).
    simpl in Hd, Hpool. by rewrite Hd, Hpool. }
  destruct r as [r'|body ct|r'], (callback ctx) as [cb|];
    try apply Hinvoke; try done.
  destruct (mergeJsonRpcResults _ _) as [[] ?]; apply Hinvoke.
Qed.

Lemma retry_invariant (f : ResendRequestFunc) (token : option AuthToken)
    (w w' : World) :
  resendInvariant (Some (rr_handle f)) w →
  retry f token w = Some w' →
  resendInvariant None w'.
Proof.
  intros Hinv. unfold retry.
  destruct (alive w); simpl.
  2: { intros [= <-]. by apply (resendInvariant_release (rr_handle f)). }
  destruct token as [t|].
  - destruct (credentials (request (rr_ctx f))) as [creds|]; simpl; [|discriminate].
    unfold executeRequest.
    destruct (sendRequest _ _ w) as [[h w1]|] eqn:Hs; simpl; [|discriminate].
    intros [= <-].
    apply (resendInvariant_frame _ w1); [by destruct_world w1|by destruct_world w1|].
    by apply (sendRequest_resend _ _ _ _ _ _ Hinv Hs).
  - intros [= <-].
    destruct (invokeIfSet_fields (callback (rr_ctx f)) (rr_success f) (rr_handle f)
                (rr_result f) w) as (_ & Hd & _ & Hp & _).
    apply (resendInvariant_release (rr_handle f)).
    apply (resendInvariant_frame _ w); [by rewrite Hd|exact Hp|exact Hinv].
Qed.

(** Taking the first stored request off the queue. *)
Lemma resendInvariant_pop (f : ResendRequestFunc) (rest : list ResendRequestFunc)
    (w : World) :
  storedRequests (d w) = f :: rest →
  resendInvariant None w →
  resendInvariant (Some (rr_handle f)) (setD (setStoredRequests rest (d w)) w).
Proof.
  intros Hq. apply resendInvariant_mono; [by destruct_world w|].
  intros H. unfold places, storedFor, resendsOf, awaitsResponse.
  rewrite Hq.
  replace (storedRequests (d (setD (setStoredRequests rest (d w)) w))) with rest
    by (by destruct_world w).
  replace (pool (setD (setStoredRequests rest (d w)) w)) with (pool w)
    by (by destruct_world w).
  cbn [List.filter heldBy]. destruct (bool_decide (rr_handle f = H)); simpl; lia.
Qed.

(** Putting the request in hand at the end of the queue. *)
Lemma resendInvariant_push (f : ResendRequestFunc) (w : World) :
  resendInvariant (Some (rr_handle f)) w →
  resendInvariant None (enqueue f w).
Proof.
  destruct (enqueue_fields f w) as (_ & Hq & _ & Hp & _).
  apply resendInvariant_mono; [by rewrite Hp|].
  intros H. unfold places, storedFor, resendsOf, awaitsResponse.
  rewrite Hq, Hp, List.filter_app, length_app.
  cbn [List.filter heldBy]. destruct (bool_decide (rr_handle f = H)); simpl; lia.
Qed.

Lemma drain_invariant (q : list ResendRequestFunc) (token : option AuthToken)
    (w w' : World) :
  storedRequests (d w) = q →
  resendInvariant None w →
  drain q token w = Some w' →
  resendInvariant None w'.
Proof.
  revert w. induction q as [|f rest IH]; intros w Hq Hinv; simpl.
  - by intros [= <-].
  - destruct (retry f token _) as [w1|] eqn:Hr; simpl; [|discriminate].
    apply IH.
    + rewrite (retry_storedRequests _ _ _ _ Hr). by destruct_world w.
    + apply (retry_invariant _ _ _ _ (resendInvariant_pop _ _ _ Hq Hinv) Hr).
Qed.

Lemma resolveSession_footprint (c : nat) (token : option AuthToken) (w w' : World) :
  resolveSession c token w = Some w' →
  storedRequests (d w') = storedRequests (d w) ∧ pool w' = pool w.
Proof.
  unfold resolveSession. destruct token as [t|].
  - destruct (directConnect _) eqn:Hdc; simpl; [|discriminate].
    intros [= <-]. by destruct_world w.
  - intros [= <-]. by destruct_world w.
Qed.

Lemma interaction_invariant (refreshToken : RefreshToken) (ctx : InteractionContext)
    (h : Handle) (success : bool) (r : CallbackResult) (w w' : World) :
  keepsResendInvariant refreshToken →
  resendInvariant (Some h) w →
  interaction refreshToken ctx h success r w = Some w' →
  resendInvariant None w'.
Proof.
  intros Hrt Hinv. unfold interaction.
  destruct (alive w); simpl.
  2: { intros [= <-]. by apply (resendInvariant_release h). }
  set (f := mkResendRequestFunc ctx h success r).
  fold (enqueue f w).
  pose proof (resendInvariant_push f w Hinv) as Hpush.
  destruct (bool_decide (storedRequests (d w) = []) && _) eqn:Hfirst.
  - destruct (refreshToken _ _) as [[token wd]|] eqn:Hd; simpl; [|discriminate].
    assert (resendInvariant None wd) as Hwd.
    { apply (Hrt _ _ _ _ (resendInvariant_frame _ _ _
               (f_equal storedRequests (proj1 (proj2 (logRefresh_fields _ _))))
               (proj1 (proj2 (proj2 (proj2 (logRefresh_fields _ _))))) Hpush) Hd). }
    destruct (alive wd); simpl; [|by intros [= <-]].
    destruct (resolveSession _ token wd) as [wr|] eqn:Hres; simpl; [|discriminate].
    destruct (resolveSession_footprint _ _ _ _ Hres) as [Hq Hp].
    apply drain_invariant; [reflexivity|].
    by apply (resendInvariant_frame _ wd).
  - destruct (tokenHasValue _ w).
    + by apply retry_invariant.
    + by intros [= <-].
Qed.

(** A call that completes leaves the pool; if it was waiting for its first
    response, its handle is now in the hands of the handler. *)
Lemma resendInvariant_completed (h : Handle) (rq : Request) (c : CompletionFunc)
    (w : World) :
  inFlight (pool w) !! h = Some (rq, c) →
  resendInvariant None w →
  resendInvariant (if isSessionAware c then Some h else None) (completed h w).
Proof.
  intros Hin. destruct (completed_fields h w) as (_ & Hd & _ & Hp).
  apply resendInvariant_mono; [by rewrite Hp|].
  intros H. unfold places, storedFor, resendsOf, awaitsResponse.
  rewrite Hd, Hp. cbn [pool_complete inFlight sent heldBy].
  destruct (decide (h = H)) as [->|Hne].
  - rewrite lookup_delete_eq, Hin.
    destruct (isSessionAware c); simpl; [rewrite bool_decide_eq_true_2 by done|];
      simpl; lia.
  - rewrite lookup_delete_ne by done.
    destruct (isSessionAware c); simpl; [rewrite bool_decide_eq_false_2 by done|];
      simpl; lia.
Qed.

Lemma complete_invariant (refreshToken : RefreshToken) (h : Handle) (success : bool)
    (r : CallbackResult) (w w' : World) :
  keepsResendInvariant refreshToken →
  resendInvariant None w →
  complete refreshToken h success r w = Some w' →
  resendInvariant None w'.
Proof.
  intros Hrt Hinv. unfold complete.
  destruct (alive w); simpl; [|by intros [= <-]].
  destruct (inFlight (pool w) !! h) as [[rq c]|] eqn:Hin; [|by intros [= <-]].
  fold (completed h w).
  pose proof (resendInvariant_completed _ _ _ _ Hin Hinv) as Hdone.
  destruct c as [ctx|ctx originalHandle|cb]; simpl in Hdone.
  - unfold sessionAwareCallback.
    destruct (requestNewSession success r) as [[]|]; simpl; [| |discriminate].
    + by apply interaction_invariant.
    + intros [= <-].
      destruct (invokeIfSet_fields (callback (recordExpired ctx success r)) success h r
                  (completed h w)) as (_ & Hd' & _ & Hp' & _).
      apply (resendInvariant_release h).
      apply (resendInvariant_frame _ (completed h w)); [by rewrite Hd'|exact Hp'|exact Hdone].
  - intros [= <-].
    destruct (fixedCallback_footprint ctx originalHandle success h r (completed h w))
      as [Hq' Hp'].
    by apply (resendInvariant_frame _ (completed h w)).
  - intros [= <-].
    destruct (invokeIfSet_fields cb success h r (completed h w))
      as (_ & Hd' & _ & Hp' & _).
    apply (resendInvariant_frame _ (completed h w)); [by rewrite Hd'|exact Hp'|exact Hdone].
Qed.

Lemma cancelRequest_invariant (requestId : Handle) (w : World) :
  resendInvariant None w → resendInvariant None (cancelRequest requestId w).
Proof.
  assert (∀ h, resendInvariant None w →
               resendInvariant None (setPool (pool_terminate h (pool w)) w)) as Hterm.
  { intros h. apply resendInvariant_mono; [by destruct_world w|].
    intros H. unfold places, storedFor, resendsOf, awaitsResponse.
    replace (d (setPool (pool_terminate h (pool w)) w)) with (d w) by (by destruct_world w).
    replace (pool (setPool (pool_terminate h (pool w)) w)) with (pool_terminate h (pool w))
      by (by destruct_world w).
    cbn [pool_terminate inFlight sent].
    destruct (decide (h = H)) as [->|Hne].
    - rewrite lookup_delete_eq. simpl. lia.
    - rewrite lookup_delete_ne by done. lia. }
  unfold cancelRequest. destruct (substitutions (d w) !! requestId); apply Hterm.
Qed.

(** Induction over an event and the events of its dialogs. *)
Lemma step_invariant (P : World → Prop) :
  (∀ refreshToken h success r w w',
     (∀ hl w0 token w1, P w0 → refreshToken hl w0 = Some (token, w1) → P w1) →
     P w → complete refreshToken h success r w = Some w' → P w') →
  (∀ e w w', isCompleted e = false → P w → step e w = Some w' → P w') →
  ∀ e w w', P w → step e w = Some w' → P w'.
Proof.
  intros Hc Ho.
  fix IH 1. intros e.
  destruct e as [h s r dialog token| | | | |];
    try (intros w w' HP Hs; refine (Ho _ w w' _ HP Hs); reflexivity).
  intros w w' HP Hstep.
  rewrite step_Completed in Hstep.
  refine (Hc _ _ _ _ _ _ _ HP Hstep).
  clear Hstep HP. intros hl w0 tok w1.
  unfold dialogOf. revert w0.
  induction dialog as [|e es IHes]; intros w0 HP0 Hrt; simpl in Hrt.
  - injection Hrt as _ <-. exact HP0.
  - destruct (step e w0) as [w2|] eqn:Hs; [|discriminate]. simpl in Hrt.
    apply (IHes w2); [eapply IH; eauto|]. exact Hrt.
Qed.

Lemma run_invariant (P : World → Prop) :
  (∀ e w w', P w → step e w = Some w' → P w') →
  ∀ es w w', P w → run es w = Some w' → P w'.
Proof.
  intros Hstep es. induction es as [|e es IH]; intros w w' HP; simpl.
  - by intros [= <-].
  - destruct (step e w) as [w1|] eqn:Hs; simpl; [|discriminate].
    apply IH. by apply (Hstep e w).
Qed.

Lemma step_resendInvariant (e : Event) (w w' : World) :
  resendInvariant None w → step e w = Some w' → resendInvariant None w'.
Proof.
  revert e w w'. apply step_invariant.
  - intros refreshToken h success r w w' Hrt. by apply complete_invariant.
  - intros e w w' He Hinv.
    destruct e as [|requestId|creds|tokenHelper requests issuer
                   |aHelper aMethod aUrl body aCallback proxyToServer|];
      [discriminate| | | | |]; simpl.
    + intros [= <-]. by apply cancelRequest_invariant.
    + intros [= <-]. apply (resendInvariant_frame _ w); [| |exact Hinv].
      * unfold updateCredentials. destruct_world w.
        by repeat case_match.
      * by destruct_world w.
    + unfold jsonRpcBatchCall, executeRequest.
      destruct (isValid _); simpl.
      * destruct (sendRequest _ _ w) as [[h w1]|] eqn:Hs; simpl; [|discriminate].
        intros [= <-]. by refine (sendRequest_first _ _ _ _ _ _ Hinv Hs).
      * by intros [= <-].
    + unfold sendRequestWithHelper, executeRequest.
      destruct (isValid _); simpl.
      * destruct (sendRequest _ _ w) as [[h w1]|] eqn:Hs; simpl; [|discriminate].
        intros [= <-]. refine (sendRequest_first _ _ _ _ _ _ Hinv Hs).
        by destruct aHelper.
      * by intros [= <-].
    + intros [= <-]. apply (resendInvariant_frame _ w); [| |exact Hinv];
        by destruct_world w.
Qed.

(** ** The broker changes the pool through the pool's operations only *)

Lemma retry_pool (P : ClientPool → Prop) (f : ResendRequestFunc)
    (token : option AuthToken) (w w' : World) :
  keptByPool P → P (pool w) → retry f token w = Some w' → P (pool w').
Proof.
  intros (Hsend & _ & _) HP. unfold retry.
  destruct (alive w); simpl; [|by intros [= <-]].
  destruct token as [t|].
  - destruct (credentials (request (rr_ctx f))) as [creds|]; simpl; [|discriminate].
    unfold executeRequest.
    destruct (sendRequest _ _ w) as [[h w1]|] eqn:Hs; simpl; [|discriminate].
    intros [= <-].
    replace (pool (setD _ w1)) with (pool w1) by (by destruct_world w1).
    destruct (sendRequest_footprint _ _ _ _ _ Hs) as [_ [-> | ->]];
      [exact HP|by apply Hsend].
  - intros [= <-].
    destruct (invokeIfSet_fields (callback (rr_ctx f)) (rr_success f) (rr_handle f)
                (rr_result f) w) as (_ & _ & _ & -> & _).
    exact HP.
Qed.

Lemma drain_pool (P : ClientPool → Prop) (q : list ResendRequestFunc)
    (token : option AuthToken) (w w' : World) :
  keptByPool P → P (pool w) → drain q token w = Some w' → P (pool w').
Proof.
  intros Hkept. revert w. induction q as [|f rest IH]; intros w HP; simpl.
  - by intros [= <-].
  - destruct (retry f token _) as [w1|] eqn:Hr; simpl; [|discriminate].
    apply IH. apply (retry_pool P _ _ _ _ Hkept) in Hr; [exact Hr|].
    by destruct_world w.
Qed.

Lemma complete_pool (P : ClientPool → Prop) (refreshToken : RefreshToken)
    (h : Handle) (success : bool) (r : CallbackResult) (w w' : World) :
  keptByPool P →
  (∀ hl w0 token w1,
     P (pool w0) → refreshToken hl w0 = Some (token, w1) → P (pool w1)) →
  P (pool w) → complete refreshToken h success r w = Some w' → P (pool w').
Proof.
  intros Hkept Hrt HP. unfold complete.
  destruct (alive w) eqn:Hal; simpl; [|by intros [= <-]].
  destruct (inFlight (pool w) !! h) as [[rq c]|] eqn:Hin; [|by intros [= <-]].
  fold (completed h w).
  destruct (completed_fields h w) as ((Hal' & _) & _ & _ & Hp).
  assert (P (pool (completed h w))) as Hdone.
  { rewrite Hp. by apply Hkept. }
  destruct c as [ctx|ctx originalHandle|cb].
  - unfold sessionAwareCallback.
    destruct (requestNewSession success r) as [[]|]; simpl; [| |discriminate].
    + unfold interaction. rewrite Hal', Hal. simpl.
      set (f := mkResendRequestFunc _ h success r).
      destruct (bool_decide _ && _).
      * destruct (refreshToken _ _) as [[token wd]|] eqn:Hd; simpl; [|discriminate].
        assert (P (pool wd)) as Hwd.
        { apply (Hrt _ _ _ _) in Hd; [exact Hd|].
          exact Hdone. }
        destruct (alive wd); simpl; [|by intros [= <-]].
        destruct (resolveSession _ token wd) as [wr|] eqn:Hres; simpl; [|discriminate].
        destruct (resolveSession_footprint _ _ _ _ Hres) as [_ Hpr].
        apply (drain_pool P); [exact Hkept|by rewrite Hpr].
      * destruct (tokenHasValue _ _).
        -- by apply (retry_pool P).
        -- intros [= <-]. exact Hdone.
    + intros [= <-].
      destruct (invokeIfSet_fields (callback (recordExpired ctx success r)) success h r
                  (completed h w)) as (_ & _ & _ & -> & _).
      exact Hdone.
  - intros [= <-].
    destruct (fixedCallback_footprint ctx originalHandle success h r (completed h w))
      as [_ ->].
    exact Hdone.
  - intros [= <-].
    destruct (invokeIfSet_fields cb success h r (completed h w))
      as (_ & _ & _ & -> & _).
    exact Hdone.
Qed.

Lemma step_pool (P : ClientPool → Prop) (e : Event) (w w' : World) :
  keptByPool P → P (pool w) → step e w = Some w' → P (pool w').
Proof.
  intros Hkept. revert e w w'.
  apply (step_invariant (λ w, P (pool w))).
  - intros refreshToken h success r w w' Hrt. by apply complete_pool.
  - intros e w w' He HP.
    assert (∀ rq c h w1, sendRequest rq c w = Some (h, w1) → P (pool w1)) as Hsend.
    { intros rq c h w1 Hs.
      destruct (sendRequest_footprint _ _ _ _ _ Hs) as [_ [-> | ->]];
        [exact HP|by apply Hkept]. }
    destruct e as [|requestId|creds|tokenHelper requests issuer
                   |aHelper aMethod aUrl body aCallback proxyToServer|];
      [discriminate| | | | |]; simpl.
    + intros [= <-]. unfold cancelRequest.
      destruct (substitutions (d w) !! requestId); by apply Hkept.
    + intros [= <-]. by destruct_world w.
    + unfold jsonRpcBatchCall, executeRequest.
      destruct (isValid _); simpl; [|by intros [= <-]].
      destruct (sendRequest _ _ w) as [[h w1]|] eqn:Hs; simpl; [|discriminate].
      intros [= <-]. by apply (Hsend _ _ _ _ Hs).
    + unfold sendRequestWithHelper, executeRequest.
      destruct (isValid _); simpl; [|by intros [= <-]].
      destruct (sendRequest _ _ w) as [[h w1]|] eqn:Hs; simpl; [|discriminate].
      intros [= <-]. by apply (Hsend _ _ _ _ Hs).
    + intros [= <-]. by destruct_world w.
Qed.

Lemma continues_kept (log : list (Handle * Request * CompletionFunc)) :
  keptByPool (continues log).
Proof.
  unfold continues. repeat split.
  - intros rq c p [more Hp]. exists (more ++ [(nextHandle p, rq, c)]).
    simpl. by rewrite Hp, app_assoc.
  - intros h p HP. exact HP.
  - intros h p HP. exact HP.
Qed.

(** The pool's log only grows. *)
Lemma run_sent (es : list Event) (w w' : World) :
  run es w = Some w' → continues (sent (pool w)) (pool w').
Proof.
  apply (run_invariant (λ x, continues (sent (pool w)) (pool x))).
  - intros e w0 w1. apply step_pool, continues_kept.
  - exists []. by rewrite app_nil_r.
Qed.

Lemma run_resendInvariant (es : list Event) (w w' : World) :
  resendInvariant None w → run es w = Some w' → resendInvariant None w'.
Proof. apply run_invariant. exact step_resendInvariant. Qed.

(** Once the handle [H] has been resent, no event adds another resend for
    it. *)
Lemma resend_is_final (H : Handle) (c : Handle * Request * CompletionFunc)
    (es : list Event) (w w' : World) :
  resendInvariant None w → resendsOf H w = [c] → run es w = Some w' →
  resendsOf H w' = [c].
Proof.
  intros Hinv Hone Hrun.
  destruct (run_sent _ _ _ Hrun) as [more Hmore].
  destruct (run_resendInvariant _ _ _ Hinv Hrun H) as [Hle _].
  unfold places, resendsOf in *. rewrite Hmore, List.filter_app in *.
  rewrite Hone in *. rewrite length_app in Hle. simpl in Hle.
  destruct (List.filter (isResendOf H) more); [reflexivity|simpl in Hle; lia].
Qed.

(** A session-expired response that arrives when the session of its context
    is already resolved is handled at once with the outcome of that
    session. *)
Lemma complete_late (refreshToken : RefreshToken) (h : Handle) (rq : Request)
    (ctx0 : InteractionContext) (success : bool) (r : CallbackResult) (w : World) :
  alive w = true →
  inFlight (pool w) !! h = Some (rq, SessionAwareCallback ctx0) →
  requestNewSession success r = Some true →
  tokenHasValue (ctx_reissuedToken ctx0) w = true →
  complete refreshToken h success r w
  = retry (mkResendRequestFunc (recordExpired ctx0 success r) h success r)
      (tokenValue' (ctx_reissuedToken ctx0) w) (completed h w).
Proof.
  intros Hal Hin Hnew Htok. unfold complete. rewrite Hal, Hin. simpl.
  unfold sessionAwareCallback. rewrite Hnew. simpl.
  unfold interaction.
  destruct (recordExpired_fields ctx0 success r) as (_ & Hcell & _).
  rewrite Hcell.
  destruct (completed_fields h w) as (Hs & _).
  fold (completed h w).
  rewrite (tokenHasValue_sameSession _ _ _ Hs), Htok.
  destruct Hs as (-> & Ht & _). rewrite Hal. simpl. rewrite andb_false_r.
  unfold tokenValue'. rewrite Ht. reflexivity.
Qed.

(** C2.  Correlation of a resend.  When a stored request with original
    handle [H] is sent again with a new token, the transport gets exactly
    one new call, under a fresh handle different from [H], and the
    substitution map sends [H] to it.  If, before, every handle was in at
    most one place and [H] in the hands of the handler, then after any
    further events this call is still the only resend ever made for [H],
    and no handle has more than one.  Whenever that call completes, with
    any outcome, the entry of [H] is removed, every callback invocation made
    carries [H] (exactly one when the request has an issuer), nothing is sent
    and no reauthorization starts (so no second resend follows, even if the
    outcome is session-expired again), and the call cannot complete twice. *)
Theorem resend_reports_original_handle (w : World) (f : ResendRequestFunc)
    (t : AuthToken) (rq : Request) :
  alive w = true → canResend w → fixedRequestOf f t = Some rq →
  rr_handle f < nextHandle (pool w) →
  ∃ w1,
    retry f (Some t) w = Some w1
    ∧ nextHandle (pool w) ≠ rr_handle f
    ∧ sent (pool w1)
      = sent (pool w)
        ++ [(nextHandle (pool w), rq, FixedCallback (rr_ctx f) (rr_handle f))]
    ∧ inFlight (pool w1) !! nextHandle (pool w)
      = Some (rq, FixedCallback (rr_ctx f) (rr_handle f))
    ∧ substitutions (d w1) !! rr_handle f = Some (nextHandle (pool w))
    ∧ delivered w1 = delivered w
    ∧ (resendInvariant (Some (rr_handle f)) w →
       ∀ es w', run es w1 = Some w' →
         resendsOf (rr_handle f) w'
         = [(nextHandle (pool w), rq, FixedCallback (rr_ctx f) (rr_handle f))]
         ∧ ∀ H, (length (resendsOf H w') ≤ 1)%nat)
    ∧ ∀ w2 success r dialog token,
        alive w2 = true →
        inFlight (pool w2) !! nextHandle (pool w)
        = Some (rq, FixedCallback (rr_ctx f) (rr_handle f)) →
        ∃ w3,
          step (Completed (nextHandle (pool w)) success r dialog token) w2 = Some w3
          ∧ substitutions (d w3) = delete (rr_handle f) (substitutions (d w2))
          ∧ substitutions (d w3) !! rr_handle f = None
          ∧ delivered w3
            = delivered w2 ++ fixedDelivery (rr_ctx f) (rr_handle f) success r
          ∧ Forall (λ dlv, dlv_handle dlv = rr_handle f)
              (fixedDelivery (rr_ctx f) (rr_handle f) success r)
          ∧ (hasIssuer f → sameInstance (rr_result f) r →
               ∃ dlv, fixedDelivery (rr_ctx f) (rr_handle f) success r = [dlv])
          ∧ sent (pool w3) = sent (pool w2)
          ∧ refreshCalls w3 = refreshCalls w2
          ∧ storedRequests (d w3) = storedRequests (d w2)
          ∧ inFlight (pool w3) !! nextHandle (pool w) = None
          ∧ ∀ success' r' dialog' token',
              step (Completed (nextHandle (pool w)) success' r' dialog' token') w3
              = Some w3.
Proof.
  intros Hal Hcan Hrq Hlt.
  destruct (retry_resend f t rq w Hal Hcan Hrq) as (w1 & Hr & Hs1 & Hq1 & Hsub1 & Hp1 & Hd1).
  exists w1. split; [exact Hr|]. split; [lia|].
  rewrite Hp1, Hsub1. cbn [snd pool_sendRequest sent inFlight].
  split; [reflexivity|]. split; [apply lookup_insert_eq|].
  split; [apply lookup_insert_eq|]. split; [exact Hd1|].
  split.
  { intros Hinv es w' Hrun.
    pose proof (retry_invariant _ _ _ _ Hinv Hr) as Hinv1.
    split.
    - refine (resend_is_final _ _ _ _ _ Hinv1 _ Hrun).
      unfold resendsOf. rewrite Hp1. cbn [snd pool_sendRequest sent].
      rewrite List.filter_app.
      destruct (Hinv (rr_handle f)) as [Hle _]. unfold places, resendsOf in Hle.
      cbn [heldBy] in Hle. rewrite bool_decide_eq_true_2 in Hle by done.
      simpl in Hle.
      destruct (List.filter _ (sent (pool w))); [|simpl in Hle; lia].
      cbn [List.filter isResendOf snd]. by rewrite bool_decide_eq_true_2.
    - intros H. destruct (run_resendInvariant _ _ _ Hinv1 Hrun H) as [Hle _].
      unfold places in Hle. lia. }
  intros w2 success r dialog token Hal2 Hin2.
  rewrite step_Completed.
  destruct (complete_fixed (dialogOf dialog token) _ _ _ _ success r w2 Hal2 Hin2)
    as (w3 & Hstep & Hs3 & Hq3 & Hsub3 & Hp3 & Hd3).
  exists w3. split; [exact Hstep|]. split; [exact Hsub3|].
  split; [rewrite Hsub3; apply lookup_delete_eq|]. split; [exact Hd3|].
  split; [apply fixedDelivery_handle|].
  split.
  { intros Hiss Hinst. destruct (fixedDelivery_once f success r Hiss Hinst) as (dlv & ? & _).
    eauto. }
  rewrite Hp3. cbn [pool_complete sent inFlight].
  split; [reflexivity|].
  split; [by destruct Hs3 as (_ & _ & _ & -> & _)|].
  split; [exact Hq3|].
  split; [apply lookup_delete_eq|].
  intros success' r' dialog' token'. rewrite step_Completed.
  apply complete_absent. rewrite Hp3. simpl. apply lookup_delete_eq.
Qed.

(** C8 (amended).  When [refreshToken] returns, the session of the first
    request is resolved with its outcome and a new unset session becomes the
    broker's current one (this is done before the queue is drained); at the
    end of the round the queue is empty.  From then on, in any idle state
    with these sessions, a session-expired response to a call issued under
    the new session makes the broker call [refreshToken] again, while a
    session-expired response to a call issued under the resolved session is
    handled with the outcome of that session and no [refreshToken] call. *)
Theorem fresh_session_after_resolution (w : World) (first : ResendRequestFunc)
    (others : list ResendRequestFunc) (token : option AuthToken) :
  alive w = true →
  storedRequests (d w) = [] →
  tokens w !! reissuedToken (d w) = Some newReissuedToken →
  NoDup (map rr_handle (first :: others)) →
  Forall (expiredInFlight (reissuedToken (d w)) w) (first :: others) →
  (∀ t, token = Some t →
     canResend w ∧ Forall (λ f, is_Some (fixedRequestOf f t)) (first :: others)) →
  ∃ w',
    step (Completed (rr_handle first) (rr_success first) (rr_result first)
            (map responseOf others) token) w = Some w'
    ∧ storedRequests (d w') = []
    ∧ tokens w' !! reissuedToken (d w) = Some (setValue token newReissuedToken)
    ∧ reissuedToken (d w') = length (tokens w)
    ∧ reissuedToken (d w') ≠ reissuedToken (d w)
    ∧ tokens w' !! reissuedToken (d w') = Some newReissuedToken
    ∧ ∀ w2 h rq ctx0 success r,
        alive w2 = true →
        storedRequests (d w2) = [] →
        tokens w2 = tokens w' →
        reissuedToken (d w2) = reissuedToken (d w') →
        inFlight (pool w2) !! h = Some (rq, SessionAwareCallback ctx0) →
        requestNewSession success r = Some true →
        (ctx_reissuedToken ctx0 = reissuedToken (d w') →
           ∀ token2,
             (∀ t, token2 = Some t →
                canResend w2
                ∧ is_Some (fixedRequestOf
                             (mkResendRequestFunc (recordExpired ctx0 success r) h success r)
                             t)) →
             ∃ w3, step (Completed h success r [] token2) w2 = Some w3
               ∧ refreshCalls w3 = refreshCalls w2 ++ [helper ctx0])
        ∧ (ctx_reissuedToken ctx0 = reissuedToken (d w) →
           ∀ dialog token2,
             step (Completed h success r dialog token2) w2
             = retry (mkResendRequestFunc (recordExpired ctx0 success r) h success r)
                 token (completed h w2)
             ∧ ∀ w3, step (Completed h success r dialog token2) w2 = Some w3 →
                 refreshCalls w3 = refreshCalls w2).
Proof.
  intros Hal Hq Hcell Hnd Hall Hres.
  assert (tokenHasValue (reissuedToken (d w)) w = false) as Htok.
  { unfold tokenHasValue. rewrite Hcell. reflexivity. }
  pose proof (lookup_lt_Some _ _ _ Hcell) as Hlt.
  destruct (reauthorization_round w first others token Hal Hq Htok Hnd Hall Hres) as
    (wd & w' & _ & _ & _ & _ & _ & _ & _ & _ & Hstep & Hal' & _ & Hq' & Ht' & Hc' & _).
  assert (tokens w' !! reissuedToken (d w) = Some (setValue token newReissuedToken))
    as Hold.
  { rewrite Ht', lookup_app_l by (rewrite length_alter; exact Hlt).
    rewrite list_lookup_alter_eq, Hcell. reflexivity. }
  assert (tokens w' !! reissuedToken (d w') = Some newReissuedToken) as Hnew.
  { rewrite Ht', Hc'.
    rewrite lookup_app_r by (rewrite length_alter; lia).
    rewrite length_alter, Nat.sub_diag. reflexivity. }
  exists w'. split; [exact Hstep|]. split; [exact Hq'|]. split; [exact Hold|].
  split; [exact Hc'|]. split; [rewrite Hc'; lia|]. split; [exact Hnew|].
  intros w2 h rq ctx0 success r Hal2 Hq2 Ht2 Hc2 Hin2 Hnew2.
  destruct (recordExpired_fields ctx0 success r) as (Hhelper & _).
  split.
  - intros Hctx token2 Hres2.
    set (f := mkResendRequestFunc (recordExpired ctx0 success r) h success r) in *.
    destruct (reauthorization_round w2 f [] token2) as
      (_ & w3 & _ & _ & _ & _ & _ & _ & _ & _ & Hstep3 & _ & Hrc3 & _); try assumption.
    + unfold tokenHasValue. rewrite Ht2, Hc2, Hnew. reflexivity.
    + simpl. repeat constructor. by intros ?%elem_of_nil.
    + repeat constructor. exists rq, ctx0. simpl. rewrite Hc2. by repeat split.
    + intros t Ht. destruct (Hres2 t Ht) as [Hcan Hfix].
      split; [exact Hcan|]. constructor; [exact Hfix|constructor].
    + exists w3. split; [exact Hstep3|]. rewrite Hrc3. simpl. by rewrite Hhelper.
  - intros Hctx dialog token2.
    assert (step (Completed h success r dialog token2) w2
            = retry (mkResendRequestFunc (recordExpired ctx0 success r) h success r)
                token (completed h w2)) as Hlate.
    { rewrite step_Completed.
      rewrite (complete_late _ _ rq ctx0); try assumption.
      - unfold tokenValue'. rewrite Hctx, Ht2, Hold. reflexivity.
      - unfold tokenHasValue. rewrite Hctx, Ht2, Hold. reflexivity. }
    split; [exact Hlate|].
    intros w3 Hstep3. rewrite Hlate in Hstep3.
    rewrite (retry_refreshCalls _ _ _ _ Hstep3).
    by destruct (completed_fields h w2) as ((_ & _ & _ & -> & _) & _).
Qed.

(** ** The claims about batches *)

Lemma recordExpired_batch (ctx0 : InteractionContext) (r : ErrorOrData JsonRpcResultType) :
  expiredIds (recordExpired ctx0 true (JsonRpcResult r)) = fst (extractJsonRpcExpired r)
  ∧ originalResponse (recordExpired ctx0 true (JsonRpcResult r))
    = snd (extractJsonRpcExpired r).
Proof. simpl. by destruct (extractJsonRpcExpired r). Qed.

Lemma mergedItem_spec (resent : list JsonRpcResponse) (o : JsonRpcResponse) :
  (id o ≠ IdNull →
   ∀ replacement, firstWithId (id o) resent = Some replacement →
     mergedItem resent o = replacement ∧ replacement ∈ resent ∧ id replacement = id o)
  ∧ (id o = IdNull → mergedItem resent o = o)
  ∧ ((∀ x, x ∈ resent → id x ≠ id o) → mergedItem resent o = o).
Proof.
  unfold mergedItem, firstWithId. split; [|split].
  - intros Hnull repl Hfind. rewrite bool_decide_eq_false_2 by assumption.
    rewrite Hfind. split; [reflexivity|].
    apply find_some in Hfind as [Hin Hid].
    split; [by apply list_elem_of_In|]. by apply bool_decide_eq_true in Hid.
  - intros Hnull. by rewrite bool_decide_eq_true_2.
  - intros Hno. case_bool_decide; [reflexivity|].
    destruct (find _ resent) as [x|] eqn:Hfind; [|reflexivity].
    apply find_some in Hfind as [Hin Hid].
    apply bool_decide_eq_true in Hid. exfalso.
    by apply (Hno x); [apply list_elem_of_In|].
Qed.

(** C5 (amended).  A batch call has completed with the response array
    [original].  The expired set holds the integer and string ids of the
    items classified as session-expired (a null id never enters it), and a
    new token is asked for exactly when the set is not empty.  With a new
    token, exactly one call is sent, whose body is the original requests
    with an id in the expired set, in their order.  When that call returns
    the array [resent], the issuer is called once, with success, under the
    original handle, with the original array in which every item whose id
    is not null and is the id of an item of [resent] is replaced by the first
    such item, and every other item (any item with a null id included) is
    unchanged. *)
Theorem batch_partial_resend (w : World) (ctx0 : InteractionContext) (handle : Handle)
    (original : list JsonRpcResponse) (t : AuthToken) (issuer : nat) :
  alive w = true → canResend w →
  is_Some (credentials (request ctx0)) →
  callback ctx0 = Some (BatchInternalCallback issuer) →
  let r := JsonRpcResult (Data (ResponseArray original)) in
  let ctx := recordExpired ctx0 true r in
  let f := mkResendRequestFunc ctx handle true r in
  (∀ i, i ∈ expiredIds ctx
        ↔ ∃ response j, response ∈ original
            ∧ isSessionExpiredErrorResponse response = true
            ∧ i = Some j ∧ id response = responseIdOf j)
  ∧ requestNewSession true r = Some (negb (bool_decide (expiredIds ctx = ∅)))
  ∧ ∃ w1 rq,
      retry f (Some t) w = Some w1
      ∧ sent (pool w1)
        = sent (pool w) ++ [(nextHandle (pool w), rq, FixedCallback ctx handle)]
      ∧ messageBody rq
        = reflect_serialize
            (filter (λ q, bool_decide (req_id q ∈ expiredIds ctx)) (requestData ctx0))
      ∧ inFlight (pool w1) !! nextHandle (pool w) = Some (rq, FixedCallback ctx handle)
      ∧ ∀ w2 success resent dialog token,
          alive w2 = true →
          inFlight (pool w2) !! nextHandle (pool w) = Some (rq, FixedCallback ctx handle) →
          ∃ w3,
            step (Completed (nextHandle (pool w)) success
                    (JsonRpcResult (Data (ResponseArray resent))) dialog token) w2
            = Some w3
            ∧ delivered w3
              = delivered w2
                ++ [mkDelivery issuer true handle
                      (PayloadBatch (map (mergedItem resent) original))]
            ∧ sent (pool w3) = sent (pool w2)
            ∧ ∀ o,
                (id o ≠ IdNull →
                 ∀ replacement, firstWithId (id o) resent = Some replacement →
                   mergedItem resent o = replacement
                   ∧ replacement ∈ resent ∧ id replacement = id o)
                ∧ (id o = IdNull → mergedItem resent o = o)
                ∧ ((∀ x, x ∈ resent → id x ≠ id o) → mergedItem resent o = o).
Proof.
  intros Hal Hcan [creds Hcreds] Hcb r ctx f.
  destruct (recordExpired_batch ctx0 (Data (ResponseArray original))) as [Hids Horig].
  fold r in Hids, Horig. fold ctx in Hids, Horig.
  destruct (recordExpired_fields ctx0 true r) as (_ & _ & Hreq & Hcb' & Hdata).
  fold ctx in Hreq, Hcb', Hdata.
  split.
  { intros i. rewrite Hids. apply extractJsonRpcExpired_elem. }
  split.
  { unfold r, requestNewSession. by rewrite Hids. }
  assert (∃ rq, fixedRequestOf f t = Some rq
            ∧ messageBody rq
              = reflect_serialize
                  (filter (λ q, bool_decide (req_id q ∈ expiredIds ctx)) (requestData ctx0)))
    as (rq & Hrq & Hbody).
  { unfold fixedRequestOf, f. cbn [rr_ctx rr_result]. rewrite Hreq, Hcreds.
    unfold r. cbn [mbind option_bind]. eexists. split; [reflexivity|].
    cbn [messageBody setMessageBody]. by rewrite Hdata. }
  destruct (retry_resend f t rq w Hal Hcan Hrq) as (w1 & Hr & _ & _ & _ & Hp1 & _).
  exists w1, rq. split; [exact Hr|].
  rewrite Hp1. cbn [snd pool_sendRequest sent inFlight].
  split; [reflexivity|]. split; [exact Hbody|]. split; [apply lookup_insert_eq|].
  intros w2 success resent dialog token Hal2 Hin2.
  rewrite step_Completed.
  destruct (complete_fixed (dialogOf dialog token) _ _ _ _ success
              (JsonRpcResult (Data (ResponseArray resent))) w2 Hal2 Hin2)
    as (w3 & Hstep & _ & _ & _ & Hp3 & Hd3).
  exists w3. split; [exact Hstep|].
  split.
  { rewrite Hd3. f_equal.
    rewrite (fixedDelivery_batch ctx handle success _ issuer) by (by rewrite Hcb').
    rewrite Horig. cbn [extractJsonRpcExpired snd].
    rewrite mergeJsonRpcResults_array. reflexivity. }
  split; [by rewrite Hp3|].
  intros o. apply mergedItem_spec.
Qed.

(** C6.  The resend of a batch fails as a whole: its result is the error
    [failure] instead of a response array.  Then every item of the original
    response array that is classified as session-expired is replaced by the
    application error made from [failure] (same id, code
    [applicationError], the error string as message, the error as data),
    every other item is unchanged, and the callback of the batch is called
    once, with success [true], under the original handle, whatever the
    success flag of the resend; the substitution is removed. *)
Theorem failed_resend_is_delivered (w2 : World) (ctx : InteractionContext)
    (handle resendHandle : Handle) (rq : Request) (issuer : nat) (failure : RestResult)
    (success : bool) (dialog : list Event) (token : option AuthToken) :
  alive w2 = true →
  inFlight (pool w2) !! resendHandle = Some (rq, FixedCallback ctx handle) →
  callback ctx = Some (BatchInternalCallback issuer) →
  Forall2
    (λ o m,
       id m = id o
       ∧ (isSessionExpiredErrorResponse o = true →
          m = makeError (id o) applicationError (errorString failure) failure)
       ∧ (isSessionExpiredErrorResponse o = false → m = o))
    (originalResponse ctx) (map (failedItem failure) (originalResponse ctx))
  ∧ ∃ w3,
      step (Completed resendHandle success (JsonRpcResult (Unexpected failure))
              dialog token) w2 = Some w3
      ∧ delivered w3
        = delivered w2
          ++ [mkDelivery issuer true handle
                (PayloadBatch (map (failedItem failure) (originalResponse ctx)))]
      ∧ substitutions (d w3) = delete handle (substitutions (d w2))
      ∧ sent (pool w3) = sent (pool w2).
Proof.
  intros Hal2 Hin2 Hcb. split.
  - induction (originalResponse ctx) as [|o l IH]; simpl; constructor; [|exact IH].
    unfold failedItem.
    destruct (isSessionExpiredErrorResponse o); simpl;
      repeat split; intros; congruence.
  - rewrite step_Completed.
    destruct (complete_fixed (dialogOf dialog token) _ _ _ _ success
                (JsonRpcResult (Unexpected failure)) w2 Hal2 Hin2)
      as (w3 & Hstep & _ & _ & Hsub3 & Hp3 & Hd3).
    exists w3. split; [exact Hstep|].
    split.
    { rewrite Hd3. f_equal. by rewrite (fixedDelivery_batch ctx handle success _ issuer). }
    split; [exact Hsub3|]. by rewrite Hp3.
Qed.

(** ** Request preparation *)

Lemma setupAuth_unavailable (w : World) (rq : Request) (u : Url) :
  unpreparable w →
  fst (setupAuth (systemContext (d w)) (auditId (d w)) (serverId (d w)) (app w)
         rq u (userId (d w))) = false.
Proof.
  intros [_ [Hsc|(sc & Hsc & [Hsrv|Hconn])]]; unfold setupAuth; rewrite Hsc;
    [reflexivity|by rewrite Hsrv|].
  destruct (servers sc !! serverId (d w)) as [server|]; [|reflexivity].
  unfold setupRoute. rewrite Hconn.
  destruct (route_reverseConnect server), (localPeerIsClient (app w));
    try reflexivity; by destruct (route_addr server).
Qed.

(** When the request cannot be prepared, [prepareRequest] returns the
    default-constructed request, which is not valid. *)
Lemma prepareRequest_unprepared (w : World) (m : Method) (u : Url) (ct body : string) :
  unpreparable w →
  prepareRequest w m u ct body = defaultRequest ∧ isValid defaultRequest = false.
Proof.
  intros Hun. split; [|reflexivity].
  pose proof (setupAuth_unavailable w defaultRequest u Hun) as Hauth.
  destruct Hun as [Hdc _]. unfold prepareRequest. rewrite Hdc.
  destruct (setupAuth _ _ _ _ _ _ _) as [authIsSet rq]. simpl in Hauth. by subst.
Qed.

(** The operations that check [request.isValid()] then return the null
    handle and leave the broker and the transport as they were. *)
Lemma guarded_send_unprepared (w : World) :
  unpreparable w →
  (∀ tokenHelper requests issuer,
     jsonRpcBatchCall tokenHelper requests issuer w = Some (nullHandle, w))
  ∧ (∀ aHelper aMethod aUrl body aCallback proxyToServer,
       sendRequestWithHelper aHelper aMethod aUrl body aCallback proxyToServer w
       = Some (nullHandle, w))
  ∧ (∀ aUrl aCallback proxyToServer,
       executeDelete aUrl aCallback proxyToServer w = Some (nullHandle, w)).
Proof.
  intros Hun. split; [|split].
  - intros. unfold jsonRpcBatchCall.
    by destruct (prepareRequest_unprepared w post (setPathQuery kJsonRpcPath "" emptyUrl)
                   kJsonContentType (reflect_serialize requests) Hun) as [-> _].
  - intros. unfold sendRequestWithHelper.
    destruct (prepareRequest_unprepared w aMethod aUrl kJsonContentType body Hun) as [-> _].
    by destruct proxyToServer.
  - intros. unfold executeDelete.
    destruct (prepareRequest_unprepared w delete_ aUrl "" "" Hun) as [-> _].
    by destruct proxyToServer.
Qed.

(** C9.  On a broker whose server is not in the resource pool, request
    preparation returns the default-constructed, invalid request.
    [jsonRpcBatchCall] then returns the null handle and sends nothing, but
    [createTicket] passes the invalid request to the transport and returns
    the handle of that call. *)
Theorem createTicket_dispatches_unprepared_request :
  unpreparable sampleRemoteWorld
  ∧ prepareRequest sampleRemoteWorld post
      (setPathQuery "/rest/v3/login/tickets" "" emptyUrl) kJsonContentType ""
    = defaultRequest
  ∧ isValid (proxyRequestUsingServer defaultRequest 33) = false
  ∧ jsonRpcBatchCall 7 sampleBatchRequests 5 sampleRemoteWorld
    = Some (nullHandle, sampleRemoteWorld)
  ∧ ∃ w',
      createTicket 33 (Some (IssuerCallback 1)) sampleRemoteWorld = Some (1, w')
      ∧ 1 ≠ nullHandle
      ∧ sent (pool w')
        = [(1, proxyRequestUsingServer defaultRequest 33,
            PlainCallback (Some (IssuerCallback 1)))]
      ∧ inFlight (pool w') !! 1
        = Some (proxyRequestUsingServer defaultRequest 33,
                PlainCallback (Some (IssuerCallback 1))).
Proof.
  assert (unpreparable sampleRemoteWorld) as Hun.
  { split; [reflexivity|]. right. exists sampleSystemContext.
    split; [reflexivity|]. left. reflexivity. }
  split; [exact Hun|].
  split; [by apply prepareRequest_unprepared|].
  split; [reflexivity|].
  split; [by apply guarded_send_unprepared|].
  eexists. split; [reflexivity|]. split; [discriminate|].
  split; [reflexivity|]. apply lookup_insert_eq.
Qed.

(** * Further properties of the broker *)

(** ** Every callback is called at most once *)

Lemma issuedAs_dispatchesOf (H : Handle) (w : World) :
  (length (issuedAs H w) ≤ length (dispatchesOf H w))%nat.
Proof.
  unfold issuedAs, dispatchesOf.
  induction (sent (pool w)) as [|c l IH]; simpl; [lia|].
  destruct (bool_decide (c.1.1 = H)); simpl; [|exact IH].
  destruct (negb (isFixed c.2)); simpl; lia.
Qed.

Lemma pendingFor_insert (H n : Handle) (rq : Request) (c : CompletionFunc)
    (m : gmap Z (Request * CompletionFunc)) :
  m !! n = None →
  size (filter (λ kv, answersFor kv.1 kv.2.2 = H) (<[ n := (rq, c) ]> m))
  = (size (filter (λ kv : Z * (Request * CompletionFunc),
                     answersFor kv.1 kv.2.2 = H) m)
     + Nat.b2n (bool_decide (answersFor n c = H)))%nat.
Proof.
  intros Hn. rewrite map_filter_insert. simpl.
  destruct (decide (answersFor n c = H)) as [Heq|Hne].
  - rewrite bool_decide_eq_true_2 by done.
    rewrite map_size_insert_None; [simpl; lia|].
    apply map_lookup_filter_None. by left.
  - rewrite bool_decide_eq_false_2 by done.
    rewrite delete_id by done. simpl. lia.
Qed.

Lemma pendingFor_delete (H h : Handle) (m : gmap Z (Request * CompletionFunc)) :
  (size (filter (λ kv : Z * (Request * CompletionFunc),
                   answersFor kv.1 kv.2.2 = H) (delete h m))
   + match m !! h with
     | Some (_, c) => Nat.b2n (bool_decide (answersFor h c = H))
     | None => 0
     end
   = size (filter (λ kv : Z * (Request * CompletionFunc),
                     answersFor kv.1 kv.2.2 = H) m))%nat.
Proof.
  rewrite map_filter_delete, map_size_delete.
  destruct (m !! h) as [[rq c]|] eqn:Hm.
  - destruct (decide (answersFor h c = H)) as [Heq|Hne].
    + rewrite bool_decide_eq_true_2 by done.
      assert (filter (λ kv : Z * (Request * CompletionFunc),
                        answersFor kv.1 kv.2.2 = H) m !! h = Some (rq, c)) as Hf.
      { apply map_lookup_filter_Some. by split. }
      rewrite Hf. simpl.
      assert (size (filter (λ kv : Z * (Request * CompletionFunc),
                              answersFor kv.1 kv.2.2 = H) m) ≠ 0%nat) as Hnz.
      { intros Hz. apply map_size_empty_inv in Hz. rewrite Hz in Hf.
        by rewrite lookup_empty in Hf. }
      lia.
    + rewrite bool_decide_eq_false_2 by done.
      assert (filter (λ kv : Z * (Request * CompletionFunc),
                        answersFor kv.1 kv.2.2 = H) m !! h = None) as Hf.
      { apply map_lookup_filter_None. right. intros x Hx. rewrite Hm in Hx.
        injection Hx as <-. exact Hne. }
      rewrite Hf. simpl. lia.
  - assert (filter (λ kv : Z * (Request * CompletionFunc),
                      answersFor kv.1 kv.2.2 = H) m !! h = None) as Hf.
    { apply map_lookup_filter_None. by left. }
    rewrite Hf. simpl. lia.
Qed.

Lemma callbackInvariant_mono (held held' : option Handle) (w w' : World) :
  nextHandle (pool w') = nextHandle (pool w) →
  sent (pool w') = sent (pool w) →
  (∀ H, (stages held' H w' ≤ stages held H w)%nat) →
  (∀ H, inFlight (pool w) !! H = None → inFlight (pool w') !! H = None) →
  callbackInvariant held w → callbackInvariant held' w'.
Proof.
  intros Hn Hs Hle Hin Hinv H. destruct (Hinv H) as (H1 & H2 & H3).
  specialize (Hle H). unfold issuedAs, dispatchesOf in *. rewrite Hs, Hn.
  split; [lia|]. split; [exact H2|].
  intros Hge. destruct (H3 Hge) as [Hd Hf]. split; [exact Hd|by apply Hin].
Qed.

Lemma callbackInvariant_frame (held : option Handle) (w w' : World) :
  storedRequests (d w') = storedRequests (d w) → pool w' = pool w →
  delivered w' = delivered w →
  callbackInvariant held w → callbackInvariant held w'.
Proof.
  intros Hq Hp Hd. apply callbackInvariant_mono; try by rewrite Hp.
  intros H. unfold stages, pendingFor, storedFor. by rewrite Hq, Hp, Hd.
Qed.

Lemma callbackInvariant_release (h : Handle) (w : World) :
  callbackInvariant (Some h) w → callbackInvariant None w.
Proof.
  apply callbackInvariant_mono; try done.
  intros H. unfold stages. simpl. lia.
Qed.

Lemma callbackInvariant_initial (w : World) :
  storedRequests (d w) = [] → inFlight (pool w) = ∅ → sent (pool w) = [] →
  delivered w = [] →
  callbackInvariant None w.
Proof.
  intros Hq Hin Hs Hd H.
  unfold stages, pendingFor, storedFor, issuedAs, dispatchesOf.
  rewrite Hq, Hin, Hs, Hd, map_filter_empty, map_size_empty, lookup_empty. simpl.
  repeat split; lia.
Qed.

(** The handler that holds [h] calls a callback: at most one call, with
    the handle [h]. *)
Lemma callbackInvariant_deliver (h : Handle) (ds : list Delivery) (w w' : World) :
  storedRequests (d w') = storedRequests (d w) → pool w' = pool w →
  delivered w' = delivered w ++ ds →
  (length ds ≤ 1)%nat → Forall (λ dlv, dlv_handle dlv = h) ds →
  callbackInvariant (Some h) w → callbackInvariant None w'.
Proof.
  intros Hq Hp Hd Hlen Hall.
  apply callbackInvariant_mono; try by rewrite Hp.
  intros H. unfold stages, pendingFor, storedFor, deliveredTo.
  rewrite Hq, Hp, Hd, List.filter_app, length_app. cbn [heldBy].
  change (Nat.b2n false) with 0%nat.
  assert (length (List.filter (λ dlv, bool_decide (dlv_handle dlv = H)) ds)
          ≤ Nat.b2n (bool_decide (h = H)))%nat; [|lia].
  destruct ds as [|dlv [|? ?]]; simpl in *; [lia| |lia].
  apply Forall_cons in Hall as [Hh _]. rewrite Hh.
  destruct (bool_decide (h = H)); simpl; lia.
Qed.

Lemma deliveryOf_length (cb : option Callback) (success : bool) (h : Handle)
    (r : CallbackResult) :
  (length (deliveryOf cb success h r) ≤ 1)%nat.
Proof.
  destruct cb as [[issuer|issuer]|]; simpl; try lia.
  destruct r as [?|? ?|r']; simpl; try lia.
  unfold batchDelivery. destruct success, r' as [?|[?|?]]; simpl; lia.
Qed.

Lemma fixedCallback_delivers (ctx : InteractionContext) (originalHandle : Handle)
    (success : bool) (h : Handle) (r : CallbackResult) (w : World) :
  ∃ ds, delivered (fixedCallback ctx originalHandle success h r w) = delivered w ++ ds
    ∧ (length ds ≤ 1)%nat
    ∧ Forall (λ dlv, dlv_handle dlv = originalHandle) ds.
Proof.
  unfold fixedCallback. destruct (alive w); simpl.
  2: { exists []. rewrite app_nil_r. repeat split; [simpl; lia|constructor]. }
  set (w0 := setD _ w).
  assert (delivered w0 = delivered w) as <- by (subst w0; by destruct_world w).
  clearbody w0.
  assert (∀ cb s rr,
            ∃ ds, delivered (invokeIfSet cb s originalHandle rr w0) = delivered w0 ++ ds
              ∧ (length ds ≤ 1)%nat
              ∧ Forall (λ dlv, dlv_handle dlv = originalHandle) ds) as Hinvoke.
  { intros cb s rr. exists (deliveryOf cb s originalHandle rr).
    destruct (invokeIfSet_fields cb s originalHandle rr w0) as (_ & _ & _ & _ & _ & _ & Hd).
    split; [exact Hd|]. split; [apply deliveryOf_length|apply deliveryOf_handle]. }
  destruct r as [r'|body ct|r'], (callback ctx) as [cb|];
    try apply (Hinvoke None); try apply (Hinvoke (Some cb)).
  - destruct (mergeJsonRpcResults _ _) as [[] ?]; apply (Hinvoke (Some cb)).
  - exact (Hinvoke None success (JsonRpcResult r')).
Qed.

Lemma callbackInvariant_dispatch (held : option Handle) (rq : Request)
    (c : CompletionFunc) (w w' : World) :
  storedRequests (d w') = storedRequests (d w) → delivered w' = delivered w →
  pool w' = (pool_sendRequest rq c (pool w)).2 →
  heldBy held (answersFor (nextHandle (pool w)) c) = isFixed c →
  callbackInvariant held w → callbackInvariant None w'.
Proof.
  intros Hq Hd Hp Hheld Hinv H. destruct (Hinv H) as (H1 & H2 & H3).
  destruct (Hinv (nextHandle (pool w))) as (_ & _ & Hfresh).
  destruct Hfresh as [Hfd Hfi]; [lia|].
  set (n := nextHandle (pool w)) in *.
  assert (stages None H w'
          = (size (pendingFor H w) + Nat.b2n (bool_decide (answersFor n c = H))
             + length (storedFor H w) + length (deliveredTo H (delivered w)))%nat)
    as Hst.
  { unfold stages, pendingFor, storedFor. rewrite Hq, Hd, Hp.
    cbn [snd pool_sendRequest inFlight heldBy]. fold n.
    rewrite (pendingFor_insert _ _ _ _ _ Hfi). simpl. lia. }
  assert (length (issuedAs H w')
          = (length (issuedAs H w)
             + Nat.b2n (bool_decide (n = H) && negb (isFixed c)))%nat) as His.
  { unfold issuedAs. rewrite Hp. cbn [snd pool_sendRequest sent]. fold n.
    rewrite List.filter_app, length_app. cbn [List.filter fst snd].
    by destruct (bool_decide (n = H) && negb (isFixed c)). }
  assert (length (dispatchesOf H w')
          = (length (dispatchesOf H w) + Nat.b2n (bool_decide (n = H)))%nat) as Hdi.
  { unfold dispatchesOf. rewrite Hp. cbn [snd pool_sendRequest sent]. fold n.
    rewrite List.filter_app, length_app. cbn [List.filter fst snd].
    by destruct (bool_decide (n = H)). }
  assert (Nat.b2n (bool_decide (answersFor n c = H))
          ≤ Nat.b2n (heldBy held H)
            + Nat.b2n (bool_decide (n = H) && negb (isFixed c)))%nat as Hle.
  { destruct c as [ctx|ctx originalHandle|cb]; cbn [answersFor isFixed negb] in *.
    - rewrite andb_true_r. lia.
    - destruct held as [h0|]; [|discriminate]. cbn [heldBy] in *.
      apply bool_decide_eq_true_1 in Hheld. subst h0. lia.
    - rewrite andb_true_r. lia. }
  rewrite Hst, His, Hdi. unfold stages in H1.
  split; [lia|]. split.
  - destruct (decide (n = H)) as [->|Hne].
    + rewrite Hfd. simpl. destruct (bool_decide (H = H)); simpl; lia.
    + rewrite bool_decide_eq_false_2 by done. simpl. lia.
  - rewrite Hp. cbn [snd pool_sendRequest nextHandle inFlight]. fold n. intros Hge.
    destruct H3 as [H3d H3i]; [lia|].
    split.
    + apply length_zero_iff_nil. rewrite Hdi, H3d.
      rewrite bool_decide_eq_false_2 by lia. reflexivity.
    + rewrite lookup_insert_ne by lia. exact H3i.
Qed.

Lemma sendRequest_callbackInvariant (held : option Handle) (rq : Request)
    (c : CompletionFunc) (w : World) (h : Handle) (w' : World) :
  heldBy held (answersFor (nextHandle (pool w)) c) = isFixed c →
  (isFixed c = false → held = None) →
  callbackInvariant held w →
  sendRequest rq c w = Some (h, w') →
  callbackInvariant None w'.
Proof.
  intros Hheld Hnone Hinv Hs.
  destruct (sendRequest_footprint _ _ _ _ _ Hs) as [Hq [Hp|Hp]];
    destruct (sendRequest_fields _ _ _ _ _ Hs) as (_ & _ & Hd).
  - destruct held as [h0|].
    + apply (callbackInvariant_release h0).
      by apply (callbackInvariant_frame _ w).
    + by apply (callbackInvariant_frame _ w).
  - by apply (callbackInvariant_dispatch held rq c w).
Qed.

Lemma retry_callbackInvariant (f : ResendRequestFunc) (token : option AuthToken)
    (w w' : World) :
  callbackInvariant (Some (rr_handle f)) w →
  retry f token w = Some w' →
  callbackInvariant None w'.
Proof.
  intros Hinv. unfold retry.
  destruct (alive w); simpl.
  2: { intros [= <-]. by apply (callbackInvariant_release (rr_handle f)). }
  destruct token as [t|].
  - destruct (credentials (request (rr_ctx f))) as [creds|]; simpl; [|discriminate].
    unfold executeRequest.
    destruct (sendRequest _ _ w) as [[h w1]|] eqn:Hs; simpl; [|discriminate].
    intros [= <-].
    apply (callbackInvariant_frame _ w1); try by destruct_world w1.
    refine (sendRequest_callbackInvariant _ _ _ _ _ _ _ _ Hinv Hs); simpl.
    + by rewrite bool_decide_eq_true_2.
    + discriminate.
  - intros [= <-].
    destruct (invokeIfSet_fields (callback (rr_ctx f)) (rr_success f) (rr_handle f)
                (rr_result f) w) as (_ & Hd & _ & Hp & _ & _ & Hdl).
    refine (callbackInvariant_deliver (rr_handle f) _ w _ _ Hp Hdl _ _ Hinv).
    + by rewrite Hd.
    + apply deliveryOf_length.
    + apply deliveryOf_handle.
Qed.

Lemma callbackInvariant_pop (f : ResendRequestFunc) (rest : list ResendRequestFunc)
    (w : World) :
  storedRequests (d w) = f :: rest →
  callbackInvariant None w →
  callbackInvariant (Some (rr_handle f)) (setD (setStoredRequests rest (d w)) w).
Proof.
  intros Hq. apply callbackInvariant_mono; try by destruct_world w.
  intros H. unfold stages, pendingFor, storedFor.
  rewrite Hq.
  replace (storedRequests (d (setD (setStoredRequests rest (d w)) w))) with rest
    by (by destruct_world w).
  replace (pool (setD (setStoredRequests rest (d w)) w)) with (pool w)
    by (by destruct_world w).
  replace (delivered (setD (setStoredRequests rest (d w)) w)) with (delivered w)
    by (by destruct_world w).
  cbn [List.filter heldBy]. destruct (bool_decide (rr_handle f = H)); simpl; lia.
Qed.

Lemma callbackInvariant_push (f : ResendRequestFunc) (w : World) :
  callbackInvariant (Some (rr_handle f)) w →
  callbackInvariant None (enqueue f w).
Proof.
  destruct (enqueue_fields f w) as (_ & Hq & _ & Hp & Hd).
  apply callbackInvariant_mono; try by rewrite Hp.
  intros H. unfold stages, pendingFor, storedFor.
  rewrite Hq, Hp, Hd, List.filter_app, length_app.
  cbn [List.filter heldBy]. destruct (bool_decide (rr_handle f = H)); simpl; lia.
Qed.

Lemma drain_callbackInvariant (q : list ResendRequestFunc) (token : option AuthToken)
    (w w' : World) :
  storedRequests (d w) = q →
  callbackInvariant None w →
  drain q token w = Some w' →
  callbackInvariant None w'.
Proof.
  revert w. induction q as [|f rest IH]; intros w Hq Hinv; simpl.
  - by intros [= <-].
  - destruct (retry f token _) as [w1|] eqn:Hr; simpl; [|discriminate].
    apply IH.
    + rewrite (retry_storedRequests _ _ _ _ Hr). by destruct_world w.
    + apply (retry_callbackInvariant _ _ _ _ (callbackInvariant_pop _ _ _ Hq Hinv) Hr).
Qed.

Lemma resolveSession_delivered (c : nat) (token : option AuthToken) (w w' : World) :
  resolveSession c token w = Some w' → delivered w' = delivered w.
Proof.
  unfold resolveSession. destruct token as [t|].
  - destruct (directConnect _) eqn:Hdc; simpl; [|discriminate].
    intros [= <-]. by destruct_world w.
  - intros [= <-]. by destruct_world w.
Qed.

(** A call that completes leaves the pool, and the handle it answers for
    is in the hands of the handler. *)
Lemma callbackInvariant_completed (h : Handle) (rq : Request) (c : CompletionFunc)
    (w : World) :
  inFlight (pool w) !! h = Some (rq, c) →
  callbackInvariant None w →
  callbackInvariant (Some (answersFor h c)) (completed h w).
Proof.
  intros Hin. destruct (completed_fields h w) as (_ & Hd & Hdl & Hp).
  apply callbackInvariant_mono; try by rewrite Hp.
  - intros H. unfold stages, pendingFor, storedFor.
    rewrite Hd, Hdl, Hp. cbn [pool_complete inFlight heldBy].
    pose proof (pendingFor_delete H h (inFlight (pool w))) as Hdel.
    rewrite Hin in Hdel. change (Nat.b2n false) with 0%nat. lia.
  - intros H HN. rewrite Hp. cbn [pool_complete inFlight].
    destruct (decide (h = H)) as [->|Hne];
      [apply lookup_delete_eq|by rewrite lookup_delete_ne].
Qed.

Lemma complete_callbackInvariant (refreshToken : RefreshToken) (h : Handle)
    (success : bool) (r : CallbackResult) (w w' : World) :
  (∀ hl w0 token w1,
     callbackInvariant None w0 → refreshToken hl w0 = Some (token, w1) →
     callbackInvariant None w1) →
  callbackInvariant None w →
  complete refreshToken h success r w = Some w' →
  callbackInvariant None w'.
Proof.
  intros Hrt Hinv. unfold complete.
  destruct (alive w) eqn:Hal; simpl; [|by intros [= <-]].
  destruct (inFlight (pool w) !! h) as [[rq c]|] eqn:Hin; [|by intros [= <-]].
  fold (completed h w).
  pose proof (callbackInvariant_completed _ _ _ _ Hin Hinv) as Hdone.
  destruct (completed_fields h w) as ((Hal' & _) & _).
  destruct c as [ctx|ctx originalHandle|cb]; cbn [answersFor] in Hdone.
  - unfold sessionAwareCallback.
    destruct (requestNewSession success r) as [[]|]; simpl; [| |discriminate].
    + unfold interaction. rewrite Hal', Hal. simpl.
      set (f := mkResendRequestFunc _ h success r).
      pose proof (callbackInvariant_push f (completed h w) Hdone) as Hpush.
      destruct (bool_decide _ && _).
      * destruct (refreshToken _ _) as [[token wd]|] eqn:Hd; simpl; [|discriminate].
        assert (callbackInvariant None wd) as Hwd.
        { refine (Hrt _ _ _ _ _ Hd).
          revert Hpush. apply callbackInvariant_frame; reflexivity. }
        destruct (alive wd); simpl; [|by intros [= <-]].
        destruct (resolveSession _ token wd) as [wr|] eqn:Hres; simpl; [|discriminate].
        destruct (resolveSession_footprint _ _ _ _ Hres) as [Hq Hp].
        apply drain_callbackInvariant; [reflexivity|].
        apply (callbackInvariant_frame _ wd); try done.
        by apply (resolveSession_delivered _ _ _ _ Hres).
      * destruct (tokenHasValue _ _).
        -- by apply retry_callbackInvariant.
        -- by intros [= <-].
    + intros [= <-].
      destruct (invokeIfSet_fields (callback (recordExpired ctx success r)) success h r
                  (completed h w)) as (_ & Hd' & _ & Hp' & _ & _ & Hdl').
      refine (callbackInvariant_deliver h _ (completed h w) _ _ Hp' Hdl' _ _ Hdone).
      * by rewrite Hd'.
      * apply deliveryOf_length.
      * apply deliveryOf_handle.
  - intros [= <-].
    destruct (fixedCallback_footprint ctx originalHandle success h r (completed h w))
      as [Hq' Hp'].
    destruct (fixedCallback_delivers ctx originalHandle success h r (completed h w))
      as (ds & Hdl' & Hlen & Hall).
    exact (callbackInvariant_deliver originalHandle ds (completed h w) _ Hq' Hp' Hdl'
             Hlen Hall Hdone).
  - intros [= <-].
    destruct (invokeIfSet_fields cb success h r (completed h w))
      as (_ & Hd' & _ & Hp' & _ & _ & Hdl').
    refine (callbackInvariant_deliver h _ (completed h w) _ _ Hp' Hdl' _ _ Hdone).
    + by rewrite Hd'.
    + apply deliveryOf_length.
    + apply deliveryOf_handle.
Qed.

Lemma cancelRequest_callbackInvariant (requestId : Handle) (w : World) :
  callbackInvariant None w → callbackInvariant None (cancelRequest requestId w).
Proof.
  assert (∀ h, callbackInvariant None w →
               callbackInvariant None (setPool (pool_terminate h (pool w)) w)) as Hterm.
  { intros h. apply callbackInvariant_mono; try by destruct_world w.
    - intros H. unfold stages, pendingFor, storedFor.
      replace (d (setPool (pool_terminate h (pool w)) w)) with (d w)
        by (by destruct_world w).
      replace (delivered (setPool (pool_terminate h (pool w)) w)) with (delivered w)
        by (by destruct_world w).
      replace (pool (setPool (pool_terminate h (pool w)) w))
        with (pool_terminate h (pool w)) by (by destruct_world w).
      cbn [pool_terminate inFlight].
      pose proof (pendingFor_delete H h (inFlight (pool w))) as Hdel. lia.
    - intros H HN.
      replace (pool (setPool (pool_terminate h (pool w)) w))
        with (pool_terminate h (pool w)) by (by destruct_world w).
      cbn [pool_terminate inFlight].
      destruct (decide (h = H)) as [->|Hne];
        [apply lookup_delete_eq|by rewrite lookup_delete_ne]. }
  unfold cancelRequest. destruct (substitutions (d w) !! requestId); apply Hterm.
Qed.

Lemma step_callbackInvariant (e : Event) (w w' : World) :
  callbackInvariant None w → step e w = Some w' → callbackInvariant None w'.
Proof.
  revert e w w'. apply step_invariant.
  - intros refreshToken h success r w w' Hrt. by apply complete_callbackInvariant.
  - intros e w w' He Hinv.
    destruct e as [|requestId|creds|tokenHelper requests issuer
                   |aHelper aMethod aUrl body aCallback proxyToServer|];
      [discriminate| | | | |]; simpl.
    + intros [= <-]. by apply cancelRequest_callbackInvariant.
    + intros [= <-]. apply (callbackInvariant_frame _ w); [| | |exact Hinv].
      * unfold updateCredentials. destruct_world w.
        by repeat case_match.
      * by destruct_world w.
      * by destruct_world w.
    + unfold jsonRpcBatchCall, executeRequest.
      destruct (isValid _); simpl.
      * destruct (sendRequest _ _ w) as [[h w1]|] eqn:Hs; simpl; [|discriminate].
        intros [= <-]. by refine (sendRequest_callbackInvariant _ _ _ _ _ _ _ _ Hinv Hs).
      * by intros [= <-].
    + unfold sendRequestWithHelper, executeRequest.
      destruct (isValid _); simpl.
      * destruct (sendRequest _ _ w) as [[h w1]|] eqn:Hs; simpl; [|discriminate].
        intros [= <-].
        refine (sendRequest_callbackInvariant _ _ _ _ _ _ _ _ Hinv Hs);
          by destruct aHelper.
      * by intros [= <-].
    + intros [= <-]. apply (callbackInvariant_frame _ w); [| | |exact Hinv];
        by destruct_world w.
Qed.

Lemma run_callbackInvariant (es : list Event) (w w' : World) :
  callbackInvariant None w → run es w = Some w' → callbackInvariant None w'.
Proof. apply run_invariant. exact step_callbackInvariant. Qed.

Lemma filter_nil_sub {A : Type} (p q : A → bool) (l : list A) :
  (∀ a, q a = true → p a = true) → List.filter p l = [] → List.filter q l = [].
Proof.
  intros Hqp. induction l as [|a l IH]; simpl; [done|].
  destruct (p a) eqn:Hp; [discriminate|].
  destruct (q a) eqn:Hq; [by rewrite (Hqp a Hq) in Hp|exact IH].
Qed.

Lemma filter_singleton_sub {A : Type} (p q : A → bool) (l : list A) (x : A) :
  (∀ a, q a = true → p a = true) →
  List.filter p l = [x] → length (List.filter q l) = 1%nat → List.filter q l = [x].
Proof.
  intros Hqp. induction l as [|a l IH]; simpl; [discriminate|].
  destruct (p a) eqn:Hp.
  - intros [= -> Hnil]. rewrite (filter_nil_sub p q l Hqp Hnil).
    by destruct (q x).
  - destruct (q a) eqn:Hq; [by rewrite (Hqp a Hq) in Hp|exact IH].
Qed.

(** X1.  In every run of events from a state that satisfies the accounting
    invariant (a broker that has sent nothing yet does), whatever the
    replies, the cancellations, the dialogs and their outcomes: no handle
    receives more than one callback invocation. *)
Theorem callback_called_at_most_once (es : list Event) (w w' : World) :
  callbackInvariant None w → run es w = Some w' →
  ∀ H, (length (deliveredTo H (delivered w')) ≤ 1)%nat.
Proof.
  intros Hinv Hrun H.
  destruct (run_callbackInvariant _ _ _ Hinv Hrun H) as (Hst & Hdi & _).
  pose proof (issuedAs_dispatchesOf H w') as Hle.
  unfold stages in Hst. lia.
Qed.

(** X2.  In every such run, a callback is only ever invoked with a handle
    that a send operation has returned: the handle is in the pool's log
    with a completion function that is not a resend's, it is never the
    handle of a resend, and it is below the pool's next handle. *)
Theorem callback_handle_was_issued (es : list Event) (w w' : World) (dlv : Delivery) :
  callbackInvariant None w → run es w = Some w' →
  dlv ∈ delivered w' →
  (∃ rq c, (dlv_handle dlv, rq, c) ∈ sent (pool w') ∧ isFixed c = false)
  ∧ (∀ rq ctx originalHandle,
       (dlv_handle dlv, rq, FixedCallback ctx originalHandle) ∉ sent (pool w'))
  ∧ dlv_handle dlv < nextHandle (pool w').
Proof.
  intros Hinv Hrun Hdlv.
  destruct (run_callbackInvariant _ _ _ Hinv Hrun (dlv_handle dlv)) as (Hst & Hdi & Hfresh).
  pose proof (issuedAs_dispatchesOf (dlv_handle dlv) w') as Hle.
  assert (dlv ∈ deliveredTo (dlv_handle dlv) (delivered w')) as Hin.
  { unfold deliveredTo. apply list_elem_of_In, List.filter_In.
    split; [by apply list_elem_of_In|by apply bool_decide_eq_true_2]. }
  assert (length (deliveredTo (dlv_handle dlv) (delivered w')) ≠ 0%nat) as Hnz.
  { intros Hz. apply length_zero_iff_nil in Hz. rewrite Hz in Hin.
    by apply elem_of_nil in Hin. }
  unfold stages in Hst.
  assert (∃ x, issuedAs (dlv_handle dlv) w' = [x] ∧ dispatchesOf (dlv_handle dlv) w' = [x])
    as (x & Hx & Hdx).
  { assert (length (issuedAs (dlv_handle dlv) w') = 1%nat) as H1 by lia.
    assert (length (dispatchesOf (dlv_handle dlv) w') = 1%nat) as H2 by lia.
    destruct (dispatchesOf (dlv_handle dlv) w') as [|y [|? ?]] eqn:Hy; try discriminate.
    exists y. split; [|reflexivity].
    refine (filter_singleton_sub _ _ _ _ _ Hy H1).
    intros a Ha. by apply andb_true_iff in Ha as [Ha _]. }
  assert (x ∈ sent (pool w') ∧ x.1.1 = dlv_handle dlv ∧ isFixed x.2 = false) as (Hxs & Hxh & Hxf).
  { assert (In x (issuedAs (dlv_handle dlv) w')) as Hi by (rewrite Hx; by left).
    unfold issuedAs in Hi. apply List.filter_In in Hi as [Hi Hb].
    apply andb_true_iff in Hb as [Hb1 Hb2].
    split; [by apply list_elem_of_In|]. split; [by apply bool_decide_eq_true_1 in Hb1|].
    by apply negb_true_iff in Hb2. }
  split; [|split].
  - destruct x as [[h rq] c]. simpl in *. subst h. by exists rq, c.
  - intros rq ctx originalHandle Hfix.
    assert (In (dlv_handle dlv, rq, FixedCallback ctx originalHandle)
              (dispatchesOf (dlv_handle dlv) w')) as Hi.
    { unfold dispatchesOf. apply List.filter_In.
      split; [by apply list_elem_of_In|by apply bool_decide_eq_true_2]. }
    rewrite Hdx in Hi. destruct Hi as [Hi|[]]. subst x. discriminate Hxf.
  - destruct (decide (dlv_handle dlv < nextHandle (pool w'))) as [|Hge]; [done|].
    destruct Hfresh as [Hnil _]; [lia|]. by rewrite Hnil in Hdx.
Qed.

(** ** A destroyed connection *)

Lemma step_destroyed (e : Event) (w w' : World) :
  alive w = false → step e w = Some w' →
  alive w' = false
  ∧ delivered w' = delivered w
  ∧ refreshCalls w' = refreshCalls w
  ∧ storedRequests (d w') = storedRequests (d w)
  ∧ substitutions (d w') = substitutions (d w)
  ∧ tokens w' = tokens w.
Proof.
  intros Hal.
  destruct e as [h success r dialog token|requestId|creds|tokenHelper requests issuer
                 |aHelper aMethod aUrl body aCallback proxyToServer|].
  - rewrite step_Completed. unfold complete. rewrite Hal. simpl.
    intros [= <-]. by repeat split.
  - simpl. intros [= <-]. unfold cancelRequest.
    destruct (substitutions (d w) !! requestId); by destruct_world w.
  - simpl. intros [= <-]. unfold updateCredentials. destruct_world w.
    subst. by repeat case_match.
  - simpl. unfold jsonRpcBatchCall, executeRequest.
    destruct (isValid _); simpl.
    + destruct (sendRequest _ _ w) as [[h w1]|] eqn:Hs; simpl; [|discriminate].
      intros [= <-].
      destruct (sendRequest_fields _ _ _ _ _ Hs) as ((Hal' & Ht & _ & Hrc & _) & Hd & Hdl).
      rewrite Hd. repeat split; congruence.
    + intros [= <-]. by repeat split.
  - simpl. unfold sendRequestWithHelper, executeRequest.
    destruct (isValid _); simpl.
    + destruct (sendRequest _ _ w) as [[h w1]|] eqn:Hs; simpl; [|discriminate].
      intros [= <-].
      destruct (sendRequest_fields _ _ _ _ _ Hs) as ((Hal' & Ht & _ & Hrc & _) & Hd & Hdl).
      rewrite Hd. repeat split; congruence.
    + intros [= <-]. by repeat split.
  - simpl. intros [= <-]. by destruct_world w.
Qed.

(** Nothing brings a destroyed connection back. *)
Lemma step_alive (e : Event) (w w' : World) :
  step e w = Some w' → alive w' = true → alive w = true.
Proof.
  intros Hstep Hal'. destruct (alive w) eqn:Hal; [reflexivity|].
  destruct (step_destroyed e w w' Hal Hstep) as (Hf & _). congruence.
Qed.

Lemma run_alive (es : list Event) (w w' : World) :
  run es w = Some w' → alive w' = true → alive w = true.
Proof.
  revert w. induction es as [|e es IH]; intros w; simpl.
  - by intros [= <-].
  - destruct (step e w) as [w1|] eqn:Hs; simpl; [|discriminate].
    intros Hrun Hal'. apply (step_alive e w w1 Hs). by apply (IH w1).
Qed.

Lemma run_destroyed (es : list Event) (w w' : World) :
  alive w = false → run es w = Some w' →
  alive w' = false
  ∧ delivered w' = delivered w
  ∧ refreshCalls w' = refreshCalls w
  ∧ storedRequests (d w') = storedRequests (d w)
  ∧ substitutions (d w') = substitutions (d w)
  ∧ tokens w' = tokens w.
Proof.
  revert w. induction es as [|e es IH]; intros w Hal; simpl.
  - intros [= <-]. by repeat split.
  - destruct (step e w) as [w1|] eqn:Hs; simpl; [|discriminate].
    intros Hrun.
    destruct (step_destroyed e w w1 Hal Hs) as (Hal1 & Hdl1 & Hrc1 & Hq1 & Hsub1 & Ht1).
    destruct (IH w1 Hal1 Hrun) as (Hal' & Hdl' & Hrc' & Hq' & Hsub' & Ht').
    repeat split; congruence.
Qed.

(** X3.  Once the connection object is destroyed, whatever completes, is
    cancelled, updated or sent afterwards: no callback is invoked, no token
    is requested, and the queue of stored requests, the substitutions and
    the sessions stay as they are. *)
Theorem destroyed_connection_is_inert (es : list Event) (w w' : World) :
  alive w = false → run es w = Some w' →
  alive w' = false
  ∧ delivered w' = delivered w
  ∧ refreshCalls w' = refreshCalls w
  ∧ storedRequests (d w') = storedRequests (d w)
  ∧ substitutions (d w') = substitutions (d w)
  ∧ tokens w' = tokens w.
Proof.
  revert w. induction es as [|e es IH]; intros w Hal; simpl.
  - intros [= <-]. by repeat split.
  - destruct (step e w) as [w1|] eqn:Hs; simpl; [|discriminate].
    intros Hrun.
    destruct (step_destroyed e w w1 Hal Hs) as (Hal1 & Hdl1 & Hrc1 & Hq1 & Hsub1 & Ht1).
    destruct (IH w1 Hal1 Hrun) as (Hal' & Hdl' & Hrc' & Hq' & Hsub' & Ht').
    repeat split; congruence.
Qed.

(** ** The round of reauthorization, for any dialog *)

Lemma drain_storedRequests (q : list ResendRequestFunc) (token : option AuthToken)
    (w w' : World) :
  storedRequests (d w) = q → drain q token w = Some w' → storedRequests (d w') = [].
Proof.
  revert w. induction q as [|f rest IH]; intros w Hq; simpl.
  - by intros [= <-].
  - destruct (retry f token _) as [w1|] eqn:Hr; simpl; [|discriminate].
    apply IH. rewrite (retry_storedRequests _ _ _ _ Hr). by destruct_world w.
Qed.

(** The response that opens a round, in terms of what its dialog does. *)
Lemma round_with_dialog (w : World) (first : ResendRequestFunc)
    (dialog : list Event) (token : option AuthToken) :
  alive w = true →
  storedRequests (d w) = [] →
  tokenHasValue (reissuedToken (d w)) w = false →
  expiredInFlight (reissuedToken (d w)) w first →
  step (Completed (rr_handle first) (rr_success first) (rr_result first) dialog token) w
  = (wd ← run dialog
            (logRefresh (helper (rr_ctx first))
               (enqueue first (completed (rr_handle first) w)));
     if negb (alive wd) then Some wd
     else w3 ← resolveSession (reissuedToken (d w)) token wd;
          drain (storedRequests (d w3)) token w3).
Proof.
  intros Hal Hq Htok (rq & ctx0 & Hin & Hc & Hnew & Hctx).
  destruct (recordExpired_fields ctx0 (rr_success first) (rr_result first))
    as (Hhelper & Hcell & _).
  rewrite <- Hctx in Hhelper, Hcell.
  destruct (completed_fields (rr_handle first) w) as (Hs0 & Hd0 & _).
  rewrite step_Completed. unfold complete. rewrite Hal, Hin. simpl.
  unfold sessionAwareCallback. rewrite Hnew. simpl. rewrite <- Hctx.
  fold (completed (rr_handle first) w).
  rewrite interaction_first.
  - replace (mkResendRequestFunc (rr_ctx first) (rr_handle first) (rr_success first)
               (rr_result first)) with first by (by destruct first).
    unfold dialogOf. rewrite Hcell, Hc.
    destruct (run dialog _) as [wd|]; reflexivity.
  - destruct Hs0 as (-> & _). exact Hal.
  - by rewrite Hd0.
  - rewrite Hcell, Hc. by rewrite (tokenHasValue_sameSession _ _ _ Hs0).
Qed.

(** X4.  The connection object is destroyed while the dialog of a round is
    open.  Then the round ends when [refreshToken] returns, whatever it
    returns: the session is not resolved, the requests that wait in the
    queue are neither sent again nor answered, and no later event calls a
    callback. *)
Theorem destruction_abandons_round (w : World) (first : ResendRequestFunc)
    (dialog : list Event) (token : option AuthToken) (wd : World) :
  alive w = true →
  storedRequests (d w) = [] →
  tokenHasValue (reissuedToken (d w)) w = false →
  expiredInFlight (reissuedToken (d w)) w first →
  run dialog
    (logRefresh (helper (rr_ctx first))
       (enqueue first (completed (rr_handle first) w))) = Some wd →
  alive wd = false →
  step (Completed (rr_handle first) (rr_success first) (rr_result first) dialog token) w
  = Some wd
  ∧ (∃ more, storedRequests (d wd) = first :: more)
  ∧ ∀ es w', run es wd = Some w' →
      delivered w' = delivered wd
      ∧ refreshCalls w' = refreshCalls w ++ [helper (rr_ctx first)]
      ∧ storedRequests (d w') = storedRequests (d wd)
      ∧ tokens w' = tokens wd.
Proof.
  intros Hal Hq Htok Hfirst Hrun Hald.
  split.
  { rewrite (round_with_dialog w first dialog token Hal Hq Htok Hfirst), Hrun.
    simpl. by rewrite Hald. }
  destruct (refresh_start_fields (helper (rr_ctx first)) first (rr_handle first) w Hq)
    as [Hq0 Hrc0].
  destruct (run_while_queued dialog
              (logRefresh (helper (rr_ctx first))
                 (enqueue first (completed (rr_handle first) w))) wd)
    as [Hrcd (more & Hqd)]; [by rewrite Hq0|exact Hrun|].
  split; [exists more; by rewrite Hqd, Hq0|].
  intros es w' Hrun'.
  destruct (run_destroyed es wd w' Hald Hrun')
    as (_ & Hdl & Hrc & Hq' & _ & Ht).
  repeat split; congruence.
Qed.

(** X5.  No request is left waiting: if the queue of stored requests is
    empty before a sequence of events and the connection is alive after
    it, the queue is empty again, whatever the events and the dialogs they
    open. *)
Theorem no_request_left_waiting (es : list Event) (w w' : World) :
  storedRequests (d w) = [] → run es w = Some w' → alive w' = true →
  storedRequests (d w') = [].
Proof.
  revert w. induction es as [|e es IH]; intros w Hq; simpl.
  - by intros [= <-].
  - destruct (step e w) as [w1|] eqn:Hs; simpl; [|discriminate].
    intros Hrun Hal'. apply (IH w1); [|exact Hrun|exact Hal'].
    pose proof (run_alive _ _ _ Hrun Hal') as Hal1.
    clear IH Hrun Hal' es w'.
    destruct e as [h success r dialog token|requestId|creds|tokenHelper requests issuer
                   |aHelper aMethod aUrl body aCallback proxyToServer|].
    + rewrite step_Completed in Hs. unfold complete in Hs.
      destruct (alive w) eqn:Hal; simpl in Hs; [|injection Hs as <-; exact Hq].
      destruct (inFlight (pool w) !! h) as [[rq c]|] eqn:Hin; [|injection Hs as <-; exact Hq].
      fold (completed h w) in Hs.
      destruct (completed_fields h w) as ((Hal0 & _) & Hd0 & _).
      destruct c as [ctx|ctx originalHandle|cb].
      * unfold sessionAwareCallback in Hs.
        destruct (requestNewSession success r) as [[]|]; simpl in Hs; [| |discriminate].
        -- unfold interaction in Hs. rewrite Hal0, Hal, Hd0, Hq in Hs. simpl in Hs.
           destruct (negb (tokenHasValue _ _)) eqn:Htok.
           ++ destruct (dialogOf dialog token _ _) as [[tok wd]|]; simpl in Hs; [|discriminate].
              destruct (alive wd) eqn:Hald; simpl in Hs;
                [|injection Hs as <-; congruence].
              destruct (resolveSession _ tok wd) as [wr|]; simpl in Hs; [|discriminate].
              by apply (drain_storedRequests _ _ _ _ eq_refl Hs).
           ++ apply negb_false_iff in Htok. rewrite Htok in Hs.
              rewrite (retry_storedRequests _ _ _ _ Hs). by rewrite Hd0.
        -- injection Hs as <-.
           destruct (invokeIfSet_fields (callback (recordExpired ctx success r)) success h r
                       (completed h w)) as (_ & -> & _).
           by rewrite Hd0.
      * injection Hs as <-.
        destruct (fixedCallback_footprint ctx originalHandle success h r (completed h w))
          as [-> _].
        by rewrite Hd0.
      * injection Hs as <-.
        destruct (invokeIfSet_fields cb success h r (completed h w)) as (_ & -> & _).
        by rewrite Hd0.
    + simpl in Hs. injection Hs as <-. unfold cancelRequest.
      destruct (substitutions (d w) !! requestId); by destruct_world w.
    + simpl in Hs. injection Hs as <-. unfold updateCredentials. destruct_world w.
      subst. by repeat case_match.
    + simpl in Hs. unfold jsonRpcBatchCall, executeRequest in Hs.
      destruct (isValid _); simpl in Hs; [|injection Hs as <-; exact Hq].
      destruct (sendRequest _ _ w) as [[h w2]|] eqn:Hs2; simpl in Hs; [|discriminate].
      injection Hs as <-.
      destruct (sendRequest_fields _ _ _ _ _ Hs2) as (_ & -> & _). exact Hq.
    + simpl in Hs. unfold sendRequestWithHelper, executeRequest in Hs.
      destruct (isValid _); simpl in Hs; [|injection Hs as <-; exact Hq].
      destruct (sendRequest _ _ w) as [[h w2]|] eqn:Hs2; simpl in Hs; [|discriminate].
      injection Hs as <-.
      destruct (sendRequest_fields _ _ _ _ _ Hs2) as (_ & -> & _). exact Hq.
    + simpl in Hs. injection Hs as <-. by destruct_world w.
Qed.

(** ** Cancellation of a request that waits for a token *)

Lemma run_app (es1 es2 : list Event) (w : World) :
  run (es1 ++ es2) w = (w1 ← run es1 w; run es2 w1).
Proof.
  revert w. induction es1 as [|e es1 IH]; intros w; simpl; [reflexivity|].
  destruct (step e w) as [w1|]; simpl; [apply IH|reflexivity].
Qed.

Lemma cancelRequest_fields (requestId : Handle) (w : World) :
  sameSession w (cancelRequest requestId w)
  ∧ d (cancelRequest requestId w) = d w
  ∧ delivered (cancelRequest requestId w) = delivered w
  ∧ sent (pool (cancelRequest requestId w)) = sent (pool w)
  ∧ nextHandle (pool (cancelRequest requestId w)) = nextHandle (pool w).
Proof.
  unfold cancelRequest, sameSession.
  destruct (substitutions (d w) !! requestId); destruct_world w; by repeat split.
Qed.

Lemma resendLog_elem (n : Handle) (t : AuthToken) (q : list ResendRequestFunc)
    (g : ResendRequestFunc) :
  g ∈ q → Forall (λ f, is_Some (fixedRequestOf f t)) q →
  ∃ k rq, (k, rq, FixedCallback (rr_ctx g) (rr_handle g)) ∈ resendLog n t q.
Proof.
  revert n. induction q as [|f q IH]; intros n Hg Hfix; [by apply elem_of_nil in Hg|].
  apply Forall_cons in Hfix as [[rq Hrq] Hfix]. simpl. rewrite Hrq.
  apply elem_of_cons in Hg as [->|Hg].
  - exists n, rq. by left.
  - destruct (IH (n + 1) Hg Hfix) as (k & rq' & Hk).
    exists k, rq'. by right.
Qed.

(** The token branch writes the token into the credentials of the direct
    connection: without one it dereferences an empty [std::optional]. *)
Lemma resolveSession_undefined (c : nat) (t : AuthToken) (w : World) :
  directConnect (d w) = None → resolveSession c (Some t) w = None.
Proof. intros Hdc. unfold resolveSession. destruct_world w. by subst. Qed.

Lemma token_round_undefined (w : World) (first : ResendRequestFunc)
    (dialog : list Event) (t : AuthToken) (wd : World) :
  alive w = true →
  storedRequests (d w) = [] →
  tokenHasValue (reissuedToken (d w)) w = false →
  expiredInFlight (reissuedToken (d w)) w first →
  run dialog
    (logRefresh (helper (rr_ctx first))
       (enqueue first (completed (rr_handle first) w))) = Some wd →
  alive wd = true →
  directConnect (d wd) = None →
  step (Completed (rr_handle first) (rr_success first) (rr_result first) dialog (Some t)) w
  = None.
Proof.
  intros Hal Hq Htok Hfirst Hrun Hald Hdc.
  rewrite (round_with_dialog w first dialog (Some t) Hal Hq Htok Hfirst), Hrun.
  cbn -[resolveSession drain]. rewrite Hald. cbn -[resolveSession drain].
  by rewrite (resolveSession_undefined _ _ _ Hdc).
Qed.

(** A round in which the request [g] is cancelled while the dialog is open,
    after its response has arrived. *)
Lemma cancelled_round (w : World) (first : ResendRequestFunc)
    (others : list ResendRequestFunc) (token : option AuthToken)
    (g : ResendRequestFunc) :
  alive w = true →
  storedRequests (d w) = [] →
  tokenHasValue (reissuedToken (d w)) w = false →
  NoDup (map rr_handle (first :: others)) →
  Forall (expiredInFlight (reissuedToken (d w)) w) (first :: others) →
  (∀ t, token = Some t →
     canResend w ∧ Forall (λ f, is_Some (fixedRequestOf f t)) (first :: others)) →
  g ∈ first :: others →
  ∃ wc w',
    run (map responseOf others ++ [Cancel (rr_handle g)])
      (logRefresh (helper (rr_ctx first))
         (enqueue first (completed (rr_handle first) w))) = Some wc
    ∧ alive wc = true
    ∧ storedRequests (d wc) = first :: others
    ∧ directConnect (d wc) = directConnect (d w)
    ∧ step (Completed (rr_handle first) (rr_success first) (rr_result first)
              (map responseOf others ++ [Cancel (rr_handle g)]) token) w = Some w'
    ∧ storedRequests (d w') = []
    ∧ (token = None →
         delivered w' = delivered w ++ flat_map originalDelivery (first :: others)
         ∧ sent (pool w') = sent (pool w)
         ∧ (hasIssuer g →
            ∃ dlv, dlv ∈ delivered w' ∧ originalDelivery g = [dlv]
              ∧ dlv_handle dlv = rr_handle g))
    ∧ (∀ t, token = Some t →
         delivered w' = delivered w
         ∧ sent (pool w')
           = sent (pool w) ++ resendLog (nextHandle (pool w)) t (first :: others)
         ∧ ∃ n rq, (n, rq, FixedCallback (rr_ctx g) (rr_handle g)) ∈ sent (pool w')).
Proof.
  intros Hal Hq Htok Hnd Hall Hres Hg.
  set (c := reissuedToken (d w)) in *.
  pose proof Hall as Hall0.
  inversion Hall as [|? ? Hfirst Hrest]; subst.
  pose proof Hfirst as (rq & ctx0 & Hin & Hc & Hnew & Hctx).
  pose proof Hnd as Hnd0. apply NoDup_cons in Hnd0 as [Hnotin Hnd'].
  destruct (completed_fields (rr_handle first) w) as (Hs0 & Hd0 & Hdl0 & Hp0).
  set (w0 := completed (rr_handle first) w) in *.
  destruct (enqueue_fields first w0) as (Hs1 & Hq1 & Hsub1 & Hp1 & Hdl1).
  set (w1 := enqueue first w0) in *.
  destruct (logRefresh_fields (helper (rr_ctx first)) w1)
    as (Hal2 & Hd2 & Ht2 & Hp2 & Hap2 & Hdl2 & Hrc2).
  set (w2 := logRefresh (helper (rr_ctx first)) w1) in *.
  assert (sameSession w w1) as Hs01 by eauto using sameSession_trans.
  assert (alive w2 = true) as Halive2.
  { rewrite Hal2. destruct Hs01 as (-> & _). exact Hal. }
  assert (storedRequests (d w2) = [first]) as Hq2.
  { rewrite Hd2, Hq1, Hd0, Hq. reflexivity. }
  assert (tokenHasValue c w2 = false) as Htok2.
  { unfold tokenHasValue. rewrite Ht2. destruct Hs01 as (_ & -> & _). exact Htok. }
  assert (Forall (expiredInFlight c w2) others) as Hall2.
  { apply Forall_forall. intros f Hf. rewrite Forall_forall in Hrest.
    destruct (Hrest f Hf) as (rq' & ctx' & Hin' & Hrest').
    exists rq', ctx'. split; [|exact Hrest'].
    rewrite Hp2, Hp1, Hp0. simpl. rewrite lookup_delete_ne; [exact Hin'|].
    intros Heq. apply Hnotin. rewrite Heq. apply list_elem_of_fmap. by exists f. }
  destruct (dialog_enqueues c others w2 Halive2) as
    (wd & Hrun & Hsd & Hqd & Hsubd & Hdld & Hnextd & Hsentd & _);
    [by rewrite Hq2|exact Htok2|exact Hnd'|exact Hall2|].
  (* the cancellation *)
  destruct (cancelRequest_fields (rr_handle g) wd) as (Hsc & Hdc & Hdlc & Hsentc & Hnextc).
  set (wc := cancelRequest (rr_handle g) wd) in *.
  assert (alive wc = true) as Halc.
  { destruct Hsc as (-> & _). destruct Hsd as (-> & _). exact Halive2. }
  assert (storedRequests (d wc) = first :: others) as Hqc by (by rewrite Hdc, Hqd, Hq2).
  assert (directConnect (d wc) = directConnect (d w)) as Hdirc.
  { rewrite Hdc. destruct Hsd as (_ & _ & _ & _ & _ & -> & _). rewrite Hd2.
    by destruct Hs01 as (_ & _ & _ & _ & _ & -> & _). }
  assert (delivered wc = delivered w) as Hdlw by (by rewrite Hdlc, Hdld, Hdl2, Hdl1, Hdl0).
  assert (pool w2 = pool_complete (rr_handle first) (pool w)) as Hpw2
    by (by rewrite Hp2, Hp1, Hp0).
  assert (sent (pool wc) = sent (pool w)) as Hsentw by (by rewrite Hsentc, Hsentd, Hpw2).
  assert (nextHandle (pool wc) = nextHandle (pool w)) as Hnextw
    by (by rewrite Hnextc, Hnextd, Hpw2).
  assert (run (map responseOf others ++ [Cancel (rr_handle g)]) w2 = Some wc) as Hrunc.
  { rewrite run_app, Hrun. reflexivity. }
  destruct (resolveSession_fields c token wc) as
    (w3 & Hres3 & Hal3 & _ & _ & Hdl3 & Hp3 & Hq3 & _ & _ & _ & Hver3 & _).
  { intros t Ht. destruct (Hres t Ht) as [[(dc & Hdc' & _) _] _].
    rewrite Hdirc, Hdc'. eauto. }
  assert (step (Completed (rr_handle first) (rr_success first) (rr_result first)
                  (map responseOf others ++ [Cancel (rr_handle g)]) token) w
          = drain (first :: others) token w3) as Hstep.
  { rewrite (round_with_dialog w first _ token Hal Hq Htok Hfirst).
    fold w0 w1 w2. rewrite Hrunc. simpl. rewrite Halc. simpl. fold c.
    rewrite Hres3. simpl. by rewrite Hq3, Hqc. }
  rewrite Hstep.
  destruct token as [t|].
  - destruct (Hres t eq_refl) as [[(dc & Hdc' & Hverdc) Hnext] Hfix].
    assert (canResend w3) as Hcan3.
    { split.
      - rewrite Hdirc, Hdc' in Hver3. simpl in Hver3.
        destruct (directConnect (d w3)) as [dc3|]; [|discriminate].
        exists dc3. split; [reflexivity|]. simpl in Hver3. congruence.
      - rewrite Hp3, Hnextw. exact Hnext. }
    destruct (drain_resend t (first :: others) w3) as
      (w' & Hdr & _ & Hq' & Hdl' & _ & _ & Hsent' & _);
      [congruence|exact Hcan3|congruence|exact Hfix|].
    exists wc, w'. split; [exact Hrunc|]. split; [exact Halc|]. split; [exact Hqc|].
    split; [exact Hdirc|]. split; [exact Hdr|]. split; [exact Hq'|].
    split; [discriminate|].
    intros t' [= <-]. split; [congruence|].
    assert (sent (pool w')
            = sent (pool w) ++ resendLog (nextHandle (pool w)) t (first :: others))
      as Hlog by (by rewrite Hsent', Hp3, Hsentw, Hnextw).
    split; [exact Hlog|].
    destruct (resendLog_elem (nextHandle (pool w)) t (first :: others) g Hg Hfix)
      as (n & rq' & Hn).
    exists n, rq'. rewrite Hlog. apply elem_of_app. by right.
  - destruct (drain_decline (first :: others) w3) as
      (w' & Hdr & _ & Hq' & _ & Hp' & Hdl'); [congruence|congruence|].
    exists wc, w'. split; [exact Hrunc|]. split; [exact Halc|]. split; [exact Hqc|].
    split; [exact Hdirc|]. split; [exact Hdr|]. split; [exact Hq'|].
    split; [|discriminate].
    intros _. split; [congruence|]. split; [by rewrite Hp', Hp3, Hsentw|].
    intros Hissuer. rewrite Forall_forall in Hall0.
    destruct (Hall0 g Hg) as (_ & _ & _ & _ & Hnewg & _).
    destruct (originalDelivery_once g Hissuer Hnewg) as (dlv & Hone & Hh & _).
    exists dlv. split; [|by split].
    rewrite Hdl'. apply elem_of_app. right.
    apply list_elem_of_In, in_flat_map. exists g.
    split; [by apply list_elem_of_In|]. rewrite Hone. by left.
Qed.

(** X6.  [cancelRequest] does not withdraw a request that waits in the
    queue for a token.  In a round of reauthorization, the request [g] is
    cancelled by its issuer while the dialog is open, after its
    session-expired response has arrived.  When [refreshToken] returns, the
    queue still holds [g] with the others, on every connection.  If no token
    is returned, the callback of [g] is called with the original response
    like the others.  If a token is returned and the broker can resend (a
    direct connection with a certificate verifier, a pool whose next handle
    is positive, stored requests that carry credentials), [g] is sent again
    like the others.  If a token is returned and there is no direct
    connection, the round has no defined outcome, cancellation or not. *)
Theorem cancelRequest_keeps_queued_request (w : World) (first : ResendRequestFunc)
    (others : list ResendRequestFunc) (g : ResendRequestFunc) :
  alive w = true →
  storedRequests (d w) = [] →
  tokenHasValue (reissuedToken (d w)) w = false →
  NoDup (map rr_handle (first :: others)) →
  Forall (expiredInFlight (reissuedToken (d w)) w) (first :: others) →
  g ∈ first :: others →
  (∃ wc,
     run (map responseOf others ++ [Cancel (rr_handle g)])
       (logRefresh (helper (rr_ctx first))
          (enqueue first (completed (rr_handle first) w))) = Some wc
     ∧ alive wc = true
     ∧ storedRequests (d wc) = first :: others)
  ∧ (∃ w',
       step (Completed (rr_handle first) (rr_success first) (rr_result first)
               (map responseOf others ++ [Cancel (rr_handle g)]) None) w = Some w'
       ∧ storedRequests (d w') = []
       ∧ delivered w' = delivered w ++ flat_map originalDelivery (first :: others)
       ∧ sent (pool w') = sent (pool w)
       ∧ (hasIssuer g →
          ∃ dlv, dlv ∈ delivered w' ∧ originalDelivery g = [dlv]
            ∧ dlv_handle dlv = rr_handle g))
  ∧ (∀ t,
       canResend w →
       Forall (λ f, is_Some (fixedRequestOf f t)) (first :: others) →
       ∃ w',
         step (Completed (rr_handle first) (rr_success first) (rr_result first)
                 (map responseOf others ++ [Cancel (rr_handle g)]) (Some t)) w = Some w'
         ∧ storedRequests (d w') = []
         ∧ delivered w' = delivered w
         ∧ sent (pool w')
           = sent (pool w) ++ resendLog (nextHandle (pool w)) t (first :: others)
         ∧ ∃ n rq, (n, rq, FixedCallback (rr_ctx g) (rr_handle g)) ∈ sent (pool w'))
  ∧ (∀ t,
       directConnect (d w) = None →
       step (Completed (rr_handle first) (rr_success first) (rr_result first)
               (map responseOf others ++ [Cancel (rr_handle g)]) (Some t)) w = None
       ∧ step (Completed (rr_handle first) (rr_success first) (rr_result first)
                 (map responseOf others) (Some t)) w = None).
Proof.
  intros Hal Hq Htok Hnd Hall Hg.
  destruct (cancelled_round w first others None g Hal Hq Htok Hnd Hall
              ltac:(discriminate) Hg)
    as (wc & w0 & Hrunc & Halc & Hqc & Hdirc & Hstep0 & Hq0 & Hdecline & _).
  assert (expiredInFlight (reissuedToken (d w)) w first) as Hfirst
    by (by inversion Hall).
  split; [by exists wc|]. split; [|split].
  - exists w0. destruct (Hdecline eq_refl) as (Hdl & Hsent & Hgdl).
    by repeat (split; [assumption|]).
  - intros t Hcan Hfix.
    destruct (cancelled_round w first others (Some t) g Hal Hq Htok Hnd Hall) as
      (_ & w' & _ & _ & _ & _ & Hstep & Hq' & _ & Htoken); [|exact Hg|].
    { intros t' [= <-]. by split. }
    exists w'. destruct (Htoken t eq_refl) as (Hdl & Hsent & Hgsent).
    by repeat (split; [assumption|]).
  - intros t Hdc. split.
    + apply (token_round_undefined w first _ t wc Hal Hq Htok Hfirst Hrunc Halc).
      by rewrite Hdirc.
    + rewrite run_app in Hrunc.
      destruct (run (map responseOf others) _) as [wd|] eqn:Hrun; [|discriminate].
      simpl in Hrunc. injection Hrunc as <-.
      destruct (cancelRequest_fields (rr_handle g) wd) as ((Halive & _) & Hd & _).
      apply (token_round_undefined w first _ t wd Hal Hq Htok Hfirst Hrun).
      * by rewrite <- Halive.
      * by rewrite <- Hd, Hdirc.
Qed.


(** ** The merge of a batch *)

(** X7.  Whatever the resend of a batch returns (an error, a single
    response or an array), [mergeJsonRpcResults] reports that it has merged
    and keeps the shape of the original response: the same number of items
    in the same order, each with the id it had.  An item is changed only if
    it was session-expired, or if the resent array has an item with its
    non-null id, which then takes its place. *)
Theorem mergeJsonRpcResults_keeps_shape (original : list JsonRpcResponse)
    (r : ErrorOrData JsonRpcResultType) :
  (mergeJsonRpcResults original r).1 = true
  ∧ length (mergeJsonRpcResults original r).2 = length original
  ∧ map id (mergeJsonRpcResults original r).2 = map id original
  ∧ Forall2
      (λ o m,
         m = o
         ∨ isSessionExpiredErrorResponse o = true
         ∨ ∃ resent, r = Data (ResponseArray resent) ∧ m ∈ resent ∧ id o ≠ IdNull)
      original (mergeJsonRpcResults original r).2.
Proof.
  split; [apply mergeJsonRpcResults_true|].
  assert (Forall2
            (λ o m,
               id m = id o
               ∧ (m = o
                  ∨ isSessionExpiredErrorResponse o = true
                  ∨ ∃ resent, r = Data (ResponseArray resent) ∧ m ∈ resent
                      ∧ id o ≠ IdNull))
            original (mergeJsonRpcResults original r).2) as Hall.
  { destruct r as [failure|[single|resent]].
    - simpl. induction original as [|o l IH]; simpl; constructor; [|exact IH].
      destruct (isSessionExpiredErrorResponse o); simpl; auto.
    - simpl. induction original as [|o l IH]; simpl; constructor; [|exact IH].
      destruct (isSessionExpiredErrorResponse o); simpl; auto.
    - rewrite mergeJsonRpcResults_array. simpl.
      induction original as [|o l IH]; simpl; constructor; [|exact IH].
      destruct (mergedItem_spec resent o) as (Hrepl & Hnull & _).
      destruct (decide (id o = IdNull)) as [Hid|Hid].
      + rewrite (Hnull Hid). auto.
      + destruct (firstWithId (id o) resent) as [repl|] eqn:Hfind.
        * destruct (Hrepl Hid repl eq_refl) as (-> & Hin & Hsame).
          split; [exact Hsame|]. right. right. by exists resent.
        * unfold mergedItem. rewrite bool_decide_eq_false_2 by done.
          rewrite Hfind. auto. }
  split; [symmetry; by apply (Forall2_length _ _ _ Hall)|].
  split.
  - induction Hall as [|o m l l' [Hid _] _ IH]; simpl; [reflexivity|].
    by rewrite Hid, IH.
  - eapply Forall2_impl; [exact Hall|]. by intros o m [_ H].
Qed.

(** ** A batch answered by a single response *)

(** X8.  The first reply to a batch is reported as a success whose result
    is a single JSON-RPC response, not an array.  Then the call leaves the
    pool and nothing else happens: the issuer's callback is not called,
    nothing is sent and no token is requested; and since the call is gone,
    no later completion of this handle does anything. *)
Theorem batch_single_response_calls_nobody (w : World) (h : Handle) (rq : Request)
    (ctx : InteractionContext) (issuer : nat) (single : JsonRpcResponse)
    (dialog : list Event) (token : option AuthToken) :
  alive w = true →
  inFlight (pool w) !! h = Some (rq, SessionAwareCallback ctx) →
  callback ctx = Some (BatchInternalCallback issuer) →
  step (Completed h true (JsonRpcResult (Data (SingleResponse single))) dialog token) w
  = Some (completed h w)
  ∧ delivered (completed h w) = delivered w
  ∧ sent (pool (completed h w)) = sent (pool w)
  ∧ refreshCalls (completed h w) = refreshCalls w
  ∧ d (completed h w) = d w
  ∧ inFlight (pool (completed h w)) = delete h (inFlight (pool w))
  ∧ ∀ success' r' dialog' token',
      step (Completed h success' r' dialog' token') (completed h w)
      = Some (completed h w).
Proof.
  intros Hal Hin Hcb.
  destruct (completed_fields h w) as ((_ & _ & _ & Hrc & _) & Hd & Hdl & Hp).
  split.
  { rewrite step_Completed. unfold complete. rewrite Hal, Hin. simpl.
    unfold sessionAwareCallback. simpl. rewrite Hcb. reflexivity. }
  split; [exact Hdl|]. split; [by rewrite Hp|]. split; [exact Hrc|].
  split; [exact Hd|]. split; [by rewrite Hp|].
  intros success' r' dialog' token'. rewrite step_Completed.
  apply complete_absent. rewrite Hp. simpl. apply lookup_delete_eq.
Qed.

(** ** Request preparation and dispatch *)

Lemma emplaceHeader_fields (name val : string) (r : Request) :
  method (emplaceHeader name val r) = method r
  ∧ url (emplaceHeader name val r) = url r
  ∧ contentType (emplaceHeader name val r) = contentType r
  ∧ messageBody (emplaceHeader name val r) = messageBody r
  ∧ credentials (emplaceHeader name val r) = credentials r
  ∧ headers (emplaceHeader name val r) = headers r ++ [(name, val)].
Proof. by destruct r. Qed.

Lemma setupAuth_prepared (sc : option SystemContext) (audit server : Uuid)
    (ac : AppContext) (rq : Request) (u : Url) (user : Uuid) (prepared : Request) :
  setupAuth sc audit server ac rq u user = (true, prepared) →
  path (url prepared) = path u
  ∧ query (url prepared) = query u
  ∧ is_Some (credentials prepared).
Proof.
  unfold setupAuth.
  destruct sc as [sc|]; [|discriminate].
  destruct (servers sc !! server) as [srv|]; [|discriminate].
  destruct (setupRoute sc ac srv _) as [routed|] eqn:Hroute; [|discriminate].
  destruct (messageBusConnection sc) as [connection|]; [|discriminate].
  intros [= <-].
  assert (path (url routed) = path u ∧ query (url routed) = query u) as [Hp Hq].
  { unfold setupRoute in Hroute.
    destruct (route_reverseConnect srv), (localPeerIsClient ac), (route_addr srv);
      repeat case_match; simplify_eq; by destruct rq. }
  destruct (String.eqb _ ""), (route_gatewayId srv =? 0); simpl; eauto.
Qed.

Lemma setupAuth_available (w : World) (rq : Request) (u : Url) :
  directConnect (d w) = None → ¬ unpreparable w →
  fst (setupAuth (systemContext (d w)) (auditId (d w)) (serverId (d w)) (app w)
         rq u (userId (d w))) = true.
Proof.
  intros Hdc Hprep. unfold setupAuth.
  destruct (systemContext (d w)) as [sc|] eqn:Hsc;
    [|exfalso; apply Hprep; split; [exact Hdc|by left]].
  destruct (servers sc !! serverId (d w)) as [server|] eqn:Hsrv;
    [|exfalso; apply Hprep; split; [exact Hdc|]; right; exists sc; by split; [|left]].
  destruct (messageBusConnection sc) as [connection|] eqn:Hconn;
    [|exfalso; apply Hprep; split; [exact Hdc|]; right; exists sc; by split; [|right]].
  unfold setupRoute. rewrite Hconn.
  by destruct (route_reverseConnect server), (localPeerIsClient (app w)),
       (route_addr server).
Qed.

Lemma setupAuth_headers (sc : option SystemContext) (audit server : Uuid)
    (ac : AppContext) (u : Url) (user : Uuid) (prepared : Request) (name : string) :
  setupAuth sc audit server ac defaultRequest u user = (true, prepared) →
  name ≠ EC2_RUNTIME_GUID_HEADER_NAME →
  name ≠ SERVER_GUID_HEADER_NAME →
  name ≠ CUSTOM_USERNAME_HEADER_NAME →
  List.filter (λ h, String.eqb h.1 name) (headers prepared) = [].
Proof.
  unfold setupAuth. intros Hauth Hruntime Hserver Huser.
  apply String.eqb_neq in Hruntime, Hserver, Huser.
  rewrite String.eqb_sym in Hruntime, Hserver, Huser.
  destruct sc as [sc|]; [|discriminate].
  destruct (servers sc !! server) as [srv|]; [|discriminate].
  destruct (setupRoute sc ac srv _) as [routed|] eqn:Hroute; [|discriminate].
  destruct (messageBusConnection sc) as [connection|]; [|discriminate].
  injection Hauth as <-.
  assert (headers routed = [(EC2_RUNTIME_GUID_HEADER_NAME, toSimpleString audit)]) as Hrouted.
  { unfold setupRoute in Hroute.
    destruct (route_reverseConnect srv), (localPeerIsClient ac), (route_addr srv);
      repeat case_match; simplify_eq; reflexivity. }
  destruct (String.eqb _ ""), (route_gatewayId srv =? 0);
    cbn [headers emplaceHeader setHeaders setCredentials setGatewayId];
    rewrite Hrouted, !List.filter_app; cbn [List.filter fst];
    by rewrite ?Hruntime, ?Hserver, ?Huser.
Qed.

(** X9.  [prepareRequest] returns the default-constructed request exactly
    when the connection is not direct and the system context, the server in
    its resource pool or the message bus connection is missing.  In every
    other state the request has the method, the content type and the body
    asked for, the path and the query of the URL given, credentials, and
    exactly one [Accept-Language] header, whose value is the thread's locale,
    or the application's when the thread has none. *)
Theorem prepareRequest_default_iff (w : World) (m : Method) (u : Url)
    (ct body : string) :
  (prepareRequest w m u ct body = defaultRequest ↔ unpreparable w)
  ∧ (¬ unpreparable w →
     method (prepareRequest w m u ct body) = Some m
     ∧ contentType (prepareRequest w m u ct body) = ct
     ∧ messageBody (prepareRequest w m u ct body) = body
     ∧ path (url (prepareRequest w m u ct body)) = path u
     ∧ query (url (prepareRequest w m u ct body)) = query u
     ∧ is_Some (credentials (prepareRequest w m u ct body))
     ∧ List.filter (λ h, String.eqb h.1 kAcceptLanguage)
         (headers (prepareRequest w m u ct body))
       = [(kAcceptLanguage,
           if String.eqb (threadLocale (app w)) "" then appLocale (app w)
           else threadLocale (app w))]).
Proof.
  assert (¬ unpreparable w →
          method (prepareRequest w m u ct body) = Some m
          ∧ contentType (prepareRequest w m u ct body) = ct
          ∧ messageBody (prepareRequest w m u ct body) = body
          ∧ path (url (prepareRequest w m u ct body)) = path u
          ∧ query (url (prepareRequest w m u ct body)) = query u
          ∧ is_Some (credentials (prepareRequest w m u ct body))
          ∧ List.filter (λ h, String.eqb h.1 kAcceptLanguage)
              (headers (prepareRequest w m u ct body))
            = [(kAcceptLanguage,
                if String.eqb (threadLocale (app w)) "" then appLocale (app w)
                else threadLocale (app w))]) as Hshape.
  { intros Hprep. unfold prepareRequest.
    set (locale := if String.eqb (threadLocale (app w)) "" then appLocale (app w)
                   else threadLocale (app w)).
    destruct (directConnect (d w)) as [dc|] eqn:Hdc.
    { cbn [negb]. set (request := setupAuthDirect _ _ _ _ _ _).
      destruct (emplaceHeader_fields kAcceptLanguage locale
                  {| method := Some m; url := url request; headers := headers request;
                     contentType := ct; messageBody := body;
                     credentials := credentials request;
                     gatewayId := gatewayId request |})
        as (-> & -> & -> & -> & -> & ->).
      cbn [method contentType messageBody url credentials headers].
      repeat split; eauto. }
    pose proof (setupAuth_available w defaultRequest u Hdc Hprep) as Htrue.
    destruct (setupAuth _ _ _ _ _ _ _) as [authIsSet request] eqn:Hauth.
    simpl in Htrue. subst authIsSet. cbn [negb].
    destruct (setupAuth_prepared _ _ _ _ _ _ _ _ Hauth) as (Hp & Hq & Hcred).
    destruct (emplaceHeader_fields kAcceptLanguage locale
                {| method := Some m; url := url request; headers := headers request;
                   contentType := ct; messageBody := body;
                   credentials := credentials request;
                   gatewayId := gatewayId request |})
      as (-> & -> & -> & -> & -> & ->).
    cbn [method contentType messageBody url credentials headers].
    repeat split; try assumption.
    rewrite List.filter_app, (setupAuth_headers _ _ _ _ _ _ _ kAcceptLanguage Hauth);
      [|discriminate..].
    cbn [List.filter fst]. by rewrite String.eqb_refl. }
  split; [|exact Hshape].
  split.
  - intros Hdef.
    destruct (directConnect (d w)) as [dc|] eqn:Hdc.
    { exfalso. assert (¬ unpreparable w) as Hprep.
      { intros [Hno _]. congruence. }
      destruct (Hshape Hprep) as (Hm & _). rewrite Hdef in Hm. discriminate. }
    split; [exact Hdc|].
    destruct (systemContext (d w)) as [sc|] eqn:Hsc; [|by left].
    right. exists sc. split; [reflexivity|].
    destruct (servers sc !! serverId (d w)) as [server|] eqn:Hsrv; [|by left].
    destruct (messageBusConnection sc) as [connection|] eqn:Hconn; [|by right].
    exfalso. assert (¬ unpreparable w) as Hprep.
    { intros [_ [Hno|(sc' & Hsc' & [Hno|Hno])]]; congruence. }
    destruct (Hshape Hprep) as (Hm & _). rewrite Hdef in Hm. discriminate.
  - intros Hun. by apply prepareRequest_unprepared.
Qed.

(** X10.  A handle that is not null, returned by the [sendRequest] that
    takes a credential source or by [jsonRpcBatchCall], is the handle that the
    pool has given to the call: exactly one request is added to the pool
    under it, a valid one, and nothing else has changed.  And an operation
    that leaves the state as it was, having dispatched nothing, returns the
    null handle.  The converse is not stated: [sendRequest] also returns the
    null handle for a call that the pool has accepted under the null handle
    or has already finished. *)
Theorem nonnull_handle_is_in_flight (w : World) :
  (∀ aHelper aMethod aUrl body aCallback proxyToServer h w',
     sendRequestWithHelper aHelper aMethod aUrl body aCallback proxyToServer w
     = Some (h, w') →
     (w' = w → h = nullHandle)
     ∧ (h ≠ nullHandle →
        h = nextHandle (pool w)
        ∧ d w' = d w
        ∧ delivered w' = delivered w
        ∧ ∃ rq c, isValid rq = true
            ∧ inFlight (pool w') = <[ h := (rq, c) ]> (inFlight (pool w))
            ∧ sent (pool w') = sent (pool w) ++ [(h, rq, c)]))
  ∧ (∀ tokenHelper requests issuer h w',
       jsonRpcBatchCall tokenHelper requests issuer w = Some (h, w') →
       (w' = w → h = nullHandle)
       ∧ (h ≠ nullHandle →
          h = nextHandle (pool w)
          ∧ d w' = d w
          ∧ delivered w' = delivered w
          ∧ ∃ rq c, isValid rq = true
              ∧ inFlight (pool w') = <[ h := (rq, c) ]> (inFlight (pool w))
              ∧ sent (pool w') = sent (pool w) ++ [(h, rq, c)])).
Proof.
  assert (∀ rq c h w',
            isValid rq = true → sendRequest rq c w = Some (h, w') →
            (w' = w → h = nullHandle)
            ∧ (h ≠ nullHandle →
               h = nextHandle (pool w)
               ∧ d w' = d w
               ∧ delivered w' = delivered w
               ∧ ∃ rq c, isValid rq = true
                   ∧ inFlight (pool w') = <[ h := (rq, c) ]> (inFlight (pool w))
                   ∧ sent (pool w') = sent (pool w) ++ [(h, rq, c)])) as Hsend.
  { intros rq c h w' Hvalid. rewrite sendRequest_eq.
    destruct (match directConnect (d w) with
              | Some dc => Some (certificateVerifier dc)
              | None => ctx_certificateVerifier <$> systemContext (d w)
              end) as [[]|]; simpl; [| |discriminate].
    - intros [= <- <-]. split.
      + intros Heq. exfalso.
        pose proof (f_equal (λ x, nextHandle (pool x)) Heq) as Hn.
        simpl in Hn. lia.
      + destruct (Z.eqb_spec (nextHandle (pool w)) 0) as [Hnull|Hnext]; [done|].
        intros _. split; [reflexivity|]. split; [by destruct_world w|].
        split; [by destruct_world w|]. exists rq, c.
        split; [exact Hvalid|]. by destruct_world w.
    - intros [= <- <-]. split; [done|]. by intros []. }
  split.
  - intros aHelper aMethod aUrl body aCallback proxyToServer h w'.
    unfold sendRequestWithHelper, executeRequest.
    destruct (isValid _) eqn:Hvalid.
    + by apply Hsend.
    + intros [= <- <-]. split; [done|]. by intros [].
  - intros tokenHelper requests issuer h w'.
    unfold jsonRpcBatchCall, executeRequest.
    destruct (isValid _) eqn:Hvalid.
    + by apply Hsend.
    + intros [= <- <-]. split; [done|]. by intros [].
Qed.

(** X11.  A round of reauthorization returns a token on a broker that can
    resend (a direct connection with a certificate verifier, a pool whose
    next handle is positive) and whose stored requests carry credentials.
    In the state in which the round ends, the credentials of the direct
    connection hold this token: whatever request the connection prepares in
    that state carries the token in its credentials, and it is not the
    default request.  Nothing is said of later states, in which
    [updateCredentials] or another round may have replaced the token. *)
Theorem round_token_reaches_prepared_requests (w : World) (first : ResendRequestFunc)
    (others : list ResendRequestFunc) (t : AuthToken) :
  alive w = true →
  storedRequests (d w) = [] →
  tokenHasValue (reissuedToken (d w)) w = false →
  NoDup (map rr_handle (first :: others)) →
  Forall (expiredInFlight (reissuedToken (d w)) w) (first :: others) →
  canResend w →
  Forall (λ f, is_Some (fixedRequestOf f t)) (first :: others) →
  ∃ w',
    step (Completed (rr_handle first) (rr_success first) (rr_result first)
            (map responseOf others) (Some t)) w = Some w'
    ∧ ∀ m u ct body,
        ∃ creds, credentials (prepareRequest w' m u ct body) = Some creds
          ∧ authToken creds = t
          ∧ prepareRequest w' m u ct body ≠ defaultRequest.
Proof.
  intros Hal Hq Htok Hnd Hall Hcan Hfix.
  destruct (reauthorization_round w first others (Some t) Hal Hq Htok Hnd Hall) as
    (wd & w' & _ & _ & _ & _ & _ & _ & _ & _ & Hstep & _ & _ & _ & _ & _ & _ & _ & Hsome).
  { intros t' [= <-]. by split. }
  destruct (Hsome t eq_refl) as (_ & _ & _ & dc & Hdc & Htoken).
  exists w'. split; [exact Hstep|].
  intros m u ct body. exists (dc_credentials dc).
  unfold prepareRequest. rewrite Hdc. simpl. by repeat split.
Qed.

(** ** Sessions *)

Lemma sameStore_refl (w : World) : sameStore w w.
Proof. by split. Qed.

Lemma sameStore_trans (w1 w2 w3 : World) :
  sameStore w1 w2 → sameStore w2 w3 → sameStore w1 w3.
Proof. unfold sameStore. intros [? ?] [? ?]. split; congruence. Qed.

Lemma sameSession_sameStore (w w' : World) : sameSession w w' → sameStore w w'.
Proof. intros (_ & Ht & _ & _ & Hc & _). by split. Qed.

Lemma invokeIfSet_sameStore (cb : option Callback) (success : bool) (h : Handle)
    (r : CallbackResult) (w : World) :
  sameStore w (invokeIfSet cb success h r w).
Proof.
  destruct (invokeIfSet_fields cb success h r w) as (_ & Hd & Ht & _).
  split; [exact Ht|by rewrite Hd].
Qed.

Lemma retry_sameStore (f : ResendRequestFunc) (token : option AuthToken) (w w' : World) :
  retry f token w = Some w' → sameStore w w'.
Proof.
  unfold retry. destruct (alive w); simpl; [|intros [= <-]; apply sameStore_refl].
  destruct token as [t|].
  - destruct (credentials (request (rr_ctx f))) as [creds|]; simpl; [|discriminate].
    unfold executeRequest.
    destruct (sendRequest _ _ w) as [[h w1]|] eqn:Hs; simpl; [|discriminate].
    intros [= <-].
    destruct (sendRequest_fields _ _ _ _ _ Hs) as ((_ & Ht & _ & _ & Hc & _) & _).
    split; [by destruct_world w1|by destruct_world w1].
  - intros [= <-]. apply invokeIfSet_sameStore.
Qed.

Lemma drain_sameStore (q : list ResendRequestFunc) (token : option AuthToken)
    (w w' : World) :
  drain q token w = Some w' → sameStore w w'.
Proof.
  revert w. induction q as [|f rest IH]; intros w; simpl.
  - intros [= <-]. apply sameStore_refl.
  - destruct (retry f token _) as [w1|] eqn:Hr; simpl; [|discriminate].
    intros Hd. apply (sameStore_trans _ w1); [|by apply IH].
    apply (sameStore_trans _ (setD (setStoredRequests rest (d w)) w));
      [by destruct_world w|by apply (retry_sameStore f token)].
Qed.

Lemma fixedCallback_sameStore (ctx : InteractionContext) (originalHandle : Handle)
    (success : bool) (h : Handle) (r : CallbackResult) (w : World) :
  sameStore w (fixedCallback ctx originalHandle success h r w).
Proof.
  unfold fixedCallback. destruct (alive w); simpl; [|apply sameStore_refl].
  set (w1 := setD _ w).
  assert (sameStore w w1) as H1 by (by destruct_world w).
  assert (∀ cb b r0, sameStore w (invoke cb b originalHandle r0 w1)) as Hinvoke.
  { intros cb b r0. apply (sameStore_trans _ w1); [exact H1|].
    apply (invokeIfSet_sameStore (Some cb)). }
  destruct r as [r0|body hdrs|r0];
    try (apply (sameStore_trans _ w1); [exact H1|apply invokeIfSet_sameStore]).
  destruct (callback ctx) as [cb|]; [|exact H1].
  destruct (mergeJsonRpcResults _ r0) as [[|] originalResponse']; apply Hinvoke.
Qed.

(** A property of the sessions is kept by every event if it is kept by the
    resolution of a session that had no value when its round started. *)
Lemma step_sessions (P : World → Prop) :
  (∀ w w', sameStore w w' → P w → P w') →
  (∀ c w0, tokenHasValue c w0 = false → P w0 →
     ∀ token wd w', P wd → resolveSession c token wd = Some w' → P w') →
  ∀ e w w', P w → step e w = Some w' → P w'.
Proof.
  intros Hframe Hresolve. apply step_invariant.
  - intros refreshToken h success r w w' Hrt HP. unfold complete.
    destruct (alive w); simpl; [|by intros [= <-]].
    destruct (inFlight (pool w) !! h) as [[rq c]|]; [|by intros [= <-]].
    fold (completed h w).
    assert (P (completed h w)) as Hdone.
    { apply (Hframe w); [|exact HP]. apply sameSession_sameStore, completed_fields. }
    destruct c as [ctx|ctx originalHandle|cb].
    + unfold sessionAwareCallback.
      destruct (requestNewSession success r) as [[]|]; simpl; [| |discriminate].
      * unfold interaction. destruct (alive (completed h w)); simpl; [|by intros [= <-]].
        set (f := mkResendRequestFunc _ h success r). fold (enqueue f (completed h w)).
        match goal with
        | |- context [bool_decide ?A && ?B] => destruct (bool_decide A && B) eqn:Hfirst
        end.
        -- apply andb_true_iff in Hfirst as [_ Hunset].
           apply negb_true_iff in Hunset.
           destruct (refreshToken _ _) as [[token wd]|] eqn:Hd; simpl; [|discriminate].
           assert (P wd) as Hwd.
           { refine (Hrt _ _ _ _ _ Hd). apply (Hframe (completed h w)); [|exact Hdone].
             by destruct_world w. }
           destruct (alive wd); simpl; [|by intros [= <-]].
           destruct (resolveSession _ token wd) as [wr|] eqn:Hres; simpl; [|discriminate].
           intros Hdrain. apply (Hframe wr); [exact (drain_sameStore _ _ _ _ Hdrain)|].
           exact (Hresolve _ _ Hunset Hdone token wd wr Hwd Hres).
        -- destruct (tokenHasValue _ (completed h w)).
           ++ intros Hr. apply (Hframe (completed h w)); [|exact Hdone].
              exact (retry_sameStore _ _ _ _ Hr).
           ++ intros [= <-]. apply (Hframe (completed h w)); [|exact Hdone].
              by destruct_world w.
      * intros [= <-]. apply (Hframe (completed h w)); [|exact Hdone].
        apply invokeIfSet_sameStore.
    + intros [= <-]. apply (Hframe (completed h w)); [|exact Hdone].
      apply fixedCallback_sameStore.
    + intros [= <-]. apply (Hframe (completed h w)); [|exact Hdone].
      apply invokeIfSet_sameStore.
  - intros e w w' He HP.
    destruct e as [|requestId|creds|tokenHelper requests issuer
                   |aHelper aMethod aUrl body aCallback proxyToServer|];
      [discriminate| | | | |]; simpl.
    + intros [= <-]. apply (Hframe w); [|exact HP].
      apply sameSession_sameStore, cancelRequest_fields.
    + intros [= <-]. apply (Hframe w); [|exact HP].
      unfold updateCredentials. destruct_world w. by repeat case_match.
    + unfold jsonRpcBatchCall, executeRequest.
      destruct (isValid _); simpl; [|by intros [= <-]].
      destruct (sendRequest _ _ w) as [[h w1]|] eqn:Hs; simpl; [|discriminate].
      intros [= <-]. apply (Hframe w); [|exact HP].
      apply sameSession_sameStore. apply (sendRequest_fields _ _ _ _ _ Hs).
    + unfold sendRequestWithHelper, executeRequest.
      destruct (isValid _); simpl; [|by intros [= <-]].
      destruct (sendRequest _ _ w) as [[h w1]|] eqn:Hs; simpl; [|discriminate].
      intros [= <-]. apply (Hframe w); [|exact HP].
      apply sameSession_sameStore. apply (sendRequest_fields _ _ _ _ _ Hs).
    + intros [= <-]. apply (Hframe w); [|exact HP]. by destruct_world w.
Qed.

(** X17.  A session that has its value keeps it: once [refreshToken] has
    answered for a session, with a token or with nothing, no reply,
    cancellation, send, update or later round changes the answer, so every
    late response of that session is treated with the same one. *)
Theorem resolved_session_is_final (es : list Event) (w w' : World) (c : nat)
    (t : ReissuedToken) :
  tokens w !! c = Some t → hasValue t = true →
  run es w = Some w' →
  tokens w' !! c = Some t
  ∧ tokenHasValue c w' = true
  ∧ tokenValue' c w' = value t.
Proof.
  intros Hc Hset Hrun.
  assert (tokens w' !! c = Some t) as Hc'.
  { revert Hc Hrun. apply (run_invariant (λ w0, tokens w0 !! c = Some t)).
    apply step_sessions.
    - intros w1 w2 [Ht _]. by rewrite Ht.
    - intros c0 w0 Hunset H0 token wd wr Hd Hres.
      assert (c0 ≠ c) as Hne.
      { intros ->. unfold tokenHasValue in Hunset. rewrite H0 in Hunset. congruence. }
      assert (tokens wr = alter (setValue token) c0 (tokens wd) ++ [newReissuedToken])
        as ->.
      { unfold resolveSession in Hres. destruct token as [tk|].
        - destruct (directConnect _); simpl in Hres; [|discriminate].
          injection Hres as <-. by destruct_world wd.
        - injection Hres as <-. by destruct_world wd. }
      apply lookup_app_l_Some. by rewrite list_lookup_alter_ne. }
  split; [exact Hc'|]. unfold tokenHasValue, tokenValue'. by rewrite Hc'.
Qed.

(** X18.  The broker's current session never has a value: after every
    sequence of events the session that a new request captures is allocated
    and unset, so a request sent now can still ask for a new token when its
    session expires.  Sessions are only ever added. *)
Theorem current_session_stays_unset (es : list Event) (w w' : World) :
  currentSessionUnset w →
  run es w = Some w' →
  currentSessionUnset w'
  ∧ (length (tokens w) ≤ length (tokens w'))%nat
  ∧ ∀ aHelper aRequest aCallback args,
      ∃ ctx, makeSessionAwareCallbackInternal w' aHelper aRequest aCallback args
             = SessionAwareCallback ctx
        ∧ tokenHasValue (ctx_reissuedToken ctx) w' = false.
Proof.
  intros Hcur Hrun.
  assert (currentSessionUnset w' ∧ (length (tokens w) ≤ length (tokens w'))%nat)
    as [Hcur' Hlen].
  { revert Hcur Hrun. intros Hcur.
    apply (run_invariant
             (λ w0, currentSessionUnset w0 ∧ (length (tokens w) ≤ length (tokens w0))%nat));
      [|by split].
    apply step_sessions.
    - intros w1 w2 [Ht Hc]. unfold currentSessionUnset. by rewrite Ht, Hc.
    - intros c0 w0 _ _ token wd wr [_ Hlen] Hres.
      assert (tokens wr = alter (setValue token) c0 (tokens wd) ++ [newReissuedToken]
              ∧ reissuedToken (d wr) = length (alter (setValue token) c0 (tokens wd)))
        as [Ht Hc].
      { unfold resolveSession in Hres. destruct token as [tk|].
        - destruct (directConnect _); simpl in Hres; [|discriminate].
          injection Hres as <-. by destruct_world wd.
        - injection Hres as <-. by destruct_world wd. }
      unfold currentSessionUnset. rewrite Ht, Hc. split.
      + by rewrite lookup_app_r, Nat.sub_diag.
      + rewrite length_app, length_alter. simpl. lia. }
  split; [exact Hcur'|]. split; [exact Hlen|].
  intros aHelper aRequest aCallback args. eexists. split; [reflexivity|].
  simpl. unfold tokenHasValue. by rewrite Hcur'.
Qed.

(** ** Replies *)

Section RepliesProperties.

Variable Document_Parse : string → Document.
Variable Response_deserialize : Json → DeserializationError + JsonRpcResponse.
Variable parseRestResult : Z → SerializationFormat → string → RestResult.
Variable serializationFormatFromHttpContentType : string → SerializationFormat.
Variable Result_default : RestResult.
Variable Result_notImplemented : RestResult.

Local Abbreviation deserializeItems' := (deserializeItems Response_deserialize).
Local Abbreviation deserialize' := (deserialize Document_Parse Response_deserialize).
Local Abbreviation completionOf :=
  (executeRequest_completion parseRestResult serializationFormatFromHttpContentType
     Result_default Result_notImplemented).
Local Abbreviation formatOf context :=
  (serializationFormatFromHttpContentType (reply_contentType context)).

(** The error that [deserialize] builds for the item [i] of an array. *)
Local Abbreviation itemError i r :=
  (mkDeserializationError
     ("Failed to deserialize response item " +:+ pretty i +:+ ": " +:+ errorDescription r)
     (firstBadFragment r) (firstNonDeserializedField r)).

Lemma deserializeItems_inr (items : list Json) (i : nat)
    (collected responses : list JsonRpcResponse) :
  deserializeItems' items i collected = inr responses
  ↔ ∃ new, responses = collected ++ new
      ∧ Forall2 (λ item response, Response_deserialize item = inr response) items new.
Proof.
  revert i collected. induction items as [|item items IH]; intros i collected; simpl.
  - split.
    + intros [= <-]. exists []. by rewrite app_nil_r.
    + intros (new & -> & Hall). apply Forall2_nil_inv_l in Hall as ->.
      by rewrite app_nil_r.
  - destruct (Response_deserialize item) as [r|response] eqn:Hitem.
    + split; [discriminate|]. intros (new & _ & Hall).
      apply Forall2_cons_inv_l in Hall as (response & ? & Hr & _ & _). congruence.
    + rewrite IH. split.
      * intros (new & -> & Hall). exists (response :: new).
        rewrite <- app_assoc. split; [reflexivity|]. by constructor.
      * intros (new & -> & Hall).
        apply Forall2_cons_inv_l in Hall as (response' & new' & Hr & Hall & ->).
        assert (response' = response) as -> by congruence.
        exists new'. rewrite <- app_assoc. by split.
Qed.

Lemma deserializeItems_inl (items : list Json) (i : nat)
    (collected : list JsonRpcResponse) (e : DeserializationError) :
  deserializeItems' items i collected = inl e
  ↔ ∃ (k : nat) item r,
      items !! k = Some item
      ∧ Response_deserialize item = inl r
      ∧ Forall (λ earlier, ∃ response, Response_deserialize earlier = inr response)
          (take k items)
      ∧ e = itemError (i + k)%nat r.
Proof.
  revert i collected. induction items as [|item items IH]; intros i collected; simpl.
  - split; [discriminate|]. by intros (k & item & r & Hk & _).
  - destruct (Response_deserialize item) as [r|response] eqn:Hitem.
    + split.
      * intros [= <-]. exists 0%nat, item, r. rewrite Nat.add_0_r.
        split; [reflexivity|]. split; [exact Hitem|]. split; [constructor|reflexivity].
      * intros (k & item' & r' & Hk & Hr' & Hall & ->).
        destruct k as [|k].
        -- simpl in Hk. injection Hk as <-. rewrite Hitem in Hr'. injection Hr' as <-.
           by rewrite Nat.add_0_r.
        -- simpl in Hall. apply Forall_cons in Hall as [[response Hresp] _]. congruence.
    + rewrite IH. split.
      * intros (k & item' & r & Hk & Hr & Hall & ->).
        exists (S k), item', r. rewrite Nat.add_succ_r.
        split; [exact Hk|]. split; [exact Hr|]. split; [|reflexivity].
        simpl. constructor; eauto.
      * intros (k & item' & r & Hk & Hr & Hall & ->).
        destruct k as [|k].
        -- simpl in Hk. injection Hk as <-. congruence.
        -- exists k, item', r. rewrite Nat.add_succ_r.
           simpl in Hall. apply Forall_cons in Hall as [_ Hall].
           split; [exact Hk|]. split; [exact Hr|]. split; [exact Hall|reflexivity].
Qed.

(** X12.  [deserialize] of a JSON-RPC result succeeds with a single response
    exactly for a document that is an object which deserializes to it, and
    with an array of responses exactly for a document that is an array all of
    whose items deserialize: the responses are those of the items, one for
    each, in the order of the document. *)
Theorem deserialize_result_iff (json : string) :
  (∀ response,
     deserialize' json = inr (SingleResponse response)
     ↔ ∃ value, Document_Parse json = DocObject value
         ∧ Response_deserialize value = inr response)
  ∧ (∀ responses,
       deserialize' json = inr (ResponseArray responses)
       ↔ ∃ items, Document_Parse json = DocArray items
           ∧ Forall2 (λ item response, Response_deserialize item = inr response)
               items responses).
Proof.
  unfold deserialize. split.
  - intros response. destruct (Document_Parse json) as [description|value|items|].
    + split; [discriminate|]. by intros (value & ? & _).
    + destruct (Response_deserialize value) as [r|response'] eqn:Hvalue.
      * split; [discriminate|]. intros (value' & [= <-] & Hr). congruence.
      * split.
        -- intros [= <-]. by exists value.
        -- intros (value' & [= <-] & Hr). congruence.
    + split; [|by intros (value & ? & _)].
      destruct (deserializeItems' items 0 []); discriminate.
    + split; [discriminate|]. by intros (value & ? & _).
  - intros responses. destruct (Document_Parse json) as [description|value|items|].
    + split; [discriminate|]. by intros (items & ? & _).
    + split; [|by intros (items & ? & _)].
      destruct (Response_deserialize value); discriminate.
    + destruct (deserializeItems' items 0 []) as [r|responses'] eqn:Hitems.
      * split; [discriminate|]. intros (items' & [= <-] & Hall).
        assert (deserializeItems' items 0 [] = inr responses) as Hok
          by (apply deserializeItems_inr; by exists responses).
        congruence.
      * apply deserializeItems_inr in Hitems as (new & -> & Hall). simpl. split.
        -- intros [= <-]. by exists items.
        -- intros (items' & [= <-] & Hall'). f_equal. f_equal.
           clear -Hall Hall'. revert responses Hall'.
           induction Hall as [|item response items new Hr _ IH]; intros responses Hall'.
           ++ by apply Forall2_nil_inv_l in Hall' as ->.
           ++ apply Forall2_cons_inv_l in Hall' as (response' & rest & Hr' & Hall' & ->).
              f_equal; [congruence|by apply IH].
    + split; [discriminate|]. by intros (items & ? & _).
Qed.

(** X13.  [deserialize] of a JSON-RPC result fails in four ways only: the
    body is not JSON (the parse error and the whole body are reported), the
    document is an object that does not deserialize (its error is reported
    as it is), the document is neither an object nor an array, or the
    document is an array with an item that does not deserialize.  In the
    last case the error is that of the first such item and its description
    names the index of this item, counted from zero. *)
Theorem deserialize_error_iff (json : string) (e : DeserializationError) :
  deserialize' json = inl e
  ↔ (∃ description, Document_Parse json = DocParseError description
       ∧ e = mkDeserializationError description json None)
    ∨ (∃ value, Document_Parse json = DocObject value
         ∧ Response_deserialize value = inl e)
    ∨ (Document_Parse json = DocOther
         ∧ e = mkDeserializationError "Must be array or object" json None)
    ∨ (∃ items (k : nat) item r,
         Document_Parse json = DocArray items
         ∧ items !! k = Some item
         ∧ Response_deserialize item = inl r
         ∧ Forall (λ earlier, ∃ response, Response_deserialize earlier = inr response)
             (take k items)
         ∧ e = itemError k r).
Proof.
  unfold deserialize.
  destruct (Document_Parse json) as [description|value|items|] eqn:Hdoc.
  - split.
    + intros [= <-]. left. by exists description.
    + intros [(description' & [= <-] & ->)|[(? & ? & _)|[[? _]|(? & ? & ? & ? & ? & _)]]];
        by try discriminate.
  - destruct (Response_deserialize value) as [r|response] eqn:Hvalue.
    + split.
      * intros [= <-]. right; left. by exists value.
      * intros [(? & ? & _)|[(value' & [= <-] & Hr)|[[? _]|(? & ? & ? & ? & ? & _)]]];
          try discriminate. congruence.
    + split; [discriminate|].
      intros [(? & ? & _)|[(value' & [= <-] & Hr)|[[? _]|(? & ? & ? & ? & ? & _)]]];
        try discriminate. congruence.
  - destruct (deserializeItems' items 0 []) as [r|responses] eqn:Hitems.
    + apply deserializeItems_inl in Hitems as (k & item & r' & Hk & Hr & Hall & ->).
      simpl. split.
      * intros [= <-]. right; right; right. by exists items, k, item, r'.
      * intros [(? & ? & _)|[(? & ? & _)|[[? _]|(items' & k' & item' & r'' & [= <-] & Hk' & Hr' & Hall' & ->)]]];
          try discriminate.
        assert (deserializeItems' items 0 [] = inl (itemError k' r'')) as H1
          by (apply deserializeItems_inl; by exists k', item', r'').
        assert (deserializeItems' items 0 [] = inl (itemError k r')) as H2
          by (apply deserializeItems_inl; by exists k, item, r').
        congruence.
    + split; [discriminate|].
      intros [(? & ? & _)|[(? & ? & _)|[[? _]|(items' & k' & item' & r'' & [= <-] & Hk' & Hr' & Hall' & ->)]]];
        try discriminate.
      assert (deserializeItems' items 0 [] = inl (itemError k' r'')) as H1
        by (apply deserializeItems_inl; by exists k', item', r'').
      congruence.
  - split.
    + intros [= <-]. right; right; left. by split.
    + intros [(? & ? & _)|[(? & ? & _)|[[_ ->]|(? & ? & ? & ? & ? & _)]]];
        by try discriminate.
Qed.

Lemma parseMessageBody_ok {T : Type} (type : DataType T) (format : SerializationFormat)
    (messageBody : string) :
  parseMessageBody parseRestResult Result_default Result_notImplemented type format
    messageBody StatusCode_ok
  = match dataOf type messageBody with
    | Some data => (true, Data data)
    | None => (false, Unexpected Result_notImplemented)
    end.
Proof. unfold parseMessageBody. simpl. by destruct type. Qed.

Lemma parseMessageBody_not_ok {T : Type} (type : DataType T) (format : SerializationFormat)
    (messageBody : string) (status : Z) :
  status ≠ StatusCode_ok →
  parseMessageBody parseRestResult Result_default Result_notImplemented type format
    messageBody status
  = (bool_decide (errorId (parseRestResult status format messageBody) = ErrorId.ok),
     Unexpected Result_default).
Proof.
  intros Hstatus. unfold parseMessageBody, parseMessageBody_Result.
  by destruct (Z.eqb_spec status StatusCode_ok).
Qed.

Lemma dataOf_ErrorOrEmpty {T : Type} (type : DataType T) (messageBody : string) :
  isErrorOrEmpty type = true → is_Some (dataOf type messageBody).
Proof. destruct type; by eauto. Qed.

Lemma executeRequest_completion_cases {T : Type} (type : DataType T) (context : Reply) :
  completionOf type context
  = if decide (statusCode context = 200) then
      match dataOf type (reply_messageBody context) with
      | Some data => (bool_decide (systemError context = 0), Data data)
      | None => (false, Unexpected Result_notImplemented)
      end
    else
      (bool_decide (systemError context = 0)
       && isErrorOrEmpty type
       && bool_decide (200 < statusCode context ≤ 206)
       && bool_decide (errorId (parseRestResult (statusCode context) (formatOf context)
                                  (reply_messageBody context)) = ErrorId.ok),
       Unexpected Result_default).
Proof.
  unfold executeRequest_completion.
  destruct context as [status osError type' body]. simpl.
  destruct (decide (status = 200)) as [->|Hstatus].
  - change 200 with StatusCode_ok. rewrite parseMessageBody_ok.
    change StatusCode_ok with 200. change StatusCode_partialContent with 206.
    change SystemError_noError with 0.
    pose proof (dataOf_ErrorOrEmpty type body) as Hempty.
    destruct (dataOf type body) as [data|] eqn:Hdata; simpl.
    + destruct (isErrorOrEmpty type), (Z.eqb_spec osError 0); simpl;
        rewrite ?bool_decide_eq_true_2, ?bool_decide_eq_false_2 by done; reflexivity.
    + destruct (isErrorOrEmpty type).
      { destruct (Hempty eq_refl) as [? ?]. discriminate. }
      by destruct (negb (osError =? 0)).
  - rewrite (parseMessageBody_not_ok _ _ _ _ Hstatus).
    change StatusCode_ok with 200 in *. change StatusCode_partialContent with 206.
    change SystemError_noError with 0. f_equal.
    destruct (isErrorOrEmpty type).
    + destruct (bool_decide (errorId _ = ErrorId.ok));
        destruct (Z.eqb_spec osError 0), (Z.ltb_spec status 200), (Z.ltb_spec 206 status);
        simpl; repeat case_bool_decide; simpl; first [reflexivity | exfalso; lia].
    + destruct (Z.eqb_spec status 200); [done|].
      by rewrite orb_true_r, andb_false_r.
Qed.

(** X14.  What the callback of a request of result type [ErrorOrData<T>] is
    called with, for every reply.  The result holds data exactly when the
    status is 200 and the body gives data; otherwise it holds one of two
    fixed errors, the value-initialized [Result] for every other status and
    [Result::notImplemented()] for a body that cannot be deserialized, and
    never an error read from the body.  The flag is true exactly when there
    is no OS error and either the status is 200 and the body gives data, or
    the data type is [rest::Empty], the status is 201..206 and
    [parseRestResult] reports no error. *)
Theorem typed_reply_classification {T : Type} (type : DataType T) (context : Reply) :
  (∀ data,
     (completionOf type context).2 = Data data
     ↔ statusCode context = 200 ∧ dataOf type (reply_messageBody context) = Some data)
  ∧ (∀ e,
       (completionOf type context).2 = Unexpected e
       ↔ (statusCode context ≠ 200 ∧ e = Result_default)
         ∨ (statusCode context = 200
            ∧ dataOf type (reply_messageBody context) = None
            ∧ e = Result_notImplemented))
  ∧ ((completionOf type context).1 = true
     ↔ systemError context = 0
       ∧ ((statusCode context = 200
           ∧ is_Some (dataOf type (reply_messageBody context)))
          ∨ (isErrorOrEmpty type = true
             ∧ 200 < statusCode context ≤ 206
             ∧ errorId (parseRestResult (statusCode context) (formatOf context)
                          (reply_messageBody context)) = ErrorId.ok))).
Proof.
  unfold executeRequest_completion.
  destruct context as [status osError type' body]. simpl.
  destruct (decide (status = StatusCode_ok)) as [->|Hstatus].
  - rewrite parseMessageBody_ok.
    change StatusCode_ok with 200. change StatusCode_partialContent with 206.
    change SystemError_noError with 0.
    pose proof (dataOf_ErrorOrEmpty type body) as Hempty.
    destruct (dataOf type body) as [data|] eqn:Hdata; simpl.
    + split; [|split].
      * intros data'. split; [intros [= <-]; by split|]. intros [_ [= <-]]. reflexivity.
      * intros e. split; [discriminate|]. intros [[? _]|(_ & ? & _)]; done.
      * destruct (isErrorOrEmpty type), (Z.eqb_spec osError 0); simpl; split;
          try discriminate; try (intros _; split; [done|left; by eauto]);
          intros [? _]; done.
    + split; [|split].
      * intros data'. split; [discriminate|]. intros [_ ?]. discriminate.
      * intros e. split.
        -- intros [= <-]. right. by split.
        -- intros [[? _]|(_ & _ & ->)]; done.
      * destruct (isErrorOrEmpty type) eqn:Hty.
        { destruct (Hempty eq_refl) as [? ?]. discriminate. }
        destruct (negb (osError =? 0)); simpl; split; try discriminate.
        -- intros (_ & [[_ [? ?]]|[? _]]); discriminate.
        -- intros (_ & [[_ [? ?]]|[? _]]); discriminate.
  - rewrite (parseMessageBody_not_ok _ _ _ _ Hstatus).
    change StatusCode_ok with 200 in *. change StatusCode_partialContent with 206.
    change SystemError_noError with 0. simpl.
    split; [|split].
    + intros data. split; [discriminate|]. by intros [? _].
    + intros e. split.
      * intros [= <-]. left. by split.
      * intros [[_ ->]|[? _]]; done.
    + destruct (isErrorOrEmpty type).
      * destruct (Z.eqb_spec osError 0), (Z.ltb_spec status 200), (Z.ltb_spec 206 status);
          simpl; rewrite ?bool_decide_eq_true; split; try discriminate;
          try (intros (? & [[? _]|(_ & ? & _)]); lia).
        -- intros Hok. split; [done|]. right. split; [done|]. split; [lia|done].
        -- intros (_ & [[? _]|(_ & _ & Hok)]); [done|exact Hok].
      * destruct (Z.eqb_spec status 200); [done|].
        rewrite orb_true_r. split; [discriminate|].
        intros (_ & [[? _]|[? _]]); done.
Qed.

(** X15.  A request of result type [ErrorOrData<T>] sent with a credential
    source never asks for a new token, when neither fixed error is a
    session-expired one: whatever the reply, [refreshToken] is not called,
    nothing is stored and the issuer's callback is called at once with the
    flag and the result of the reply.  The one exception has no defined
    outcome: a reply of status 200 with an OS error whose body gives data is
    handed over as a failure that holds data, and the handler reads the
    error of it. *)
Theorem typed_reply_never_opens_dialog {T : Type} (type : DataType T) (view : T → Json)
    (context : Reply) (w : World) (h : Handle) (rq : Request) (ctx : InteractionContext)
    (dialog : list Event) (token : option AuthToken) :
  alive w = true →
  inFlight (pool w) !! h = Some (rq, SessionAwareCallback ctx) →
  isSessionExpiredError (errorId Result_default) = false →
  isSessionExpiredError (errorId Result_notImplemented) = false →
  ∀ success result, completionOf type context = (success, result) →
  (systemError context ≠ 0
   ∧ statusCode context = 200
   ∧ is_Some (dataOf type (reply_messageBody context)) →
   step (Completed h success (GenericResult (mapData view result)) dialog token) w = None)
  ∧ (¬ (systemError context ≠ 0
        ∧ statusCode context = 200
        ∧ is_Some (dataOf type (reply_messageBody context))) →
     ∃ w',
       step (Completed h success (GenericResult (mapData view result)) dialog token) w
       = Some w'
       ∧ w' = invokeIfSet (callback ctx) success h (GenericResult (mapData view result))
                (completed h w)
       ∧ delivered w'
         = delivered w
           ++ deliveryOf (callback ctx) success h (GenericResult (mapData view result))
       ∧ refreshCalls w' = refreshCalls w
       ∧ storedRequests (d w') = storedRequests (d w)
       ∧ sent (pool w') = sent (pool w)).
Proof.
  intros Hal Hin Hdefault HnotImplemented success result Hcompletion.
  rewrite executeRequest_completion_cases in Hcompletion.
  assert (∀ b r, step (Completed h b r dialog token) w
                 = sessionAwareCallback (dialogOf dialog token) ctx b h r
                     (completed h w)) as Hstep.
  { intros b r. rewrite step_Completed. unfold complete. by rewrite Hal, Hin. }
  rewrite Hstep. unfold sessionAwareCallback.
  assert (∀ b (cb : option Callback) r,
            let w' := invokeIfSet cb b h r (completed h w) in
            delivered w' = delivered w ++ deliveryOf cb b h r
            ∧ refreshCalls w' = refreshCalls w
            ∧ storedRequests (d w') = storedRequests (d w)
            ∧ sent (pool w') = sent (pool w)) as Hdirect.
  { intros b cb r.
    destruct (invokeIfSet_fields cb b h r (completed h w))
      as (_ & Hd & _ & Hp & _ & Hrc & Hdl).
    destruct (completed_fields h w) as ((_ & _ & _ & Hrc' & _) & Hd' & Hdl' & Hp').
    simpl. rewrite Hdl, Hdl', Hrc, Hrc', Hd, Hd', Hp, Hp'. by destruct (pool w). }
  clear Hstep.
  destruct (decide (statusCode context = 200)) as [Hstatus|Hstatus].
  - destruct (dataOf type (reply_messageBody context)) as [data|] eqn:Hbody.
    + injection Hcompletion as <- <-.
      destruct (decide (systemError context = 0)) as [Hos|Hos].
      * rewrite bool_decide_eq_true_2 by exact Hos. split; [by intros [? _]|].
        intros _. simpl. eexists. split; [reflexivity|]. split; [reflexivity|].
        apply Hdirect.
      * rewrite bool_decide_eq_false_2 by exact Hos. split; [by intros _|].
        intros Hdefined. exfalso. apply Hdefined. by eauto.
    + injection Hcompletion as <- <-. split; [by intros (_ & _ & [? ?])|].
      intros _. simpl. rewrite HnotImplemented, Tauto.if_same.
      eexists. split; [reflexivity|]. split; [reflexivity|]. apply Hdirect.
  - injection Hcompletion as <- <-. split; [by intros (_ & ? & _)|].
    intros _.
    match goal with
    | |- ∃ w', requestNewSession ?b _ ≫= _ = _ ∧ _ => generalize b
    end.
    intros [|]; simpl; [|rewrite Hdefault, Tauto.if_same];
      (eexists; split; [reflexivity|]; split; [reflexivity|]; apply Hdirect).
Qed.

(** X16.  The reply to a batch has status 200 and no OS error, and its body
    is a single JSON object that deserializes to a response (what a JSON-RPC
    server answers to a batch that it could not read).  Then the issuer's
    callback is never called: the call leaves the pool, nothing is
    delivered, sent or requested, and no later completion of the handle
    does anything. *)
Theorem batch_reply_single_object_is_dropped (context : Reply) (w : World) (h : Handle)
    (rq : Request) (ctx : InteractionContext) (issuer : nat) (value : Json)
    (single : JsonRpcResponse) (dialog : list Event) (token : option AuthToken) :
  alive w = true →
  inFlight (pool w) !! h = Some (rq, SessionAwareCallback ctx) →
  callback ctx = Some (BatchInternalCallback issuer) →
  statusCode context = 200 →
  systemError context = 0 →
  Document_Parse (reply_messageBody context) = DocObject value →
  Response_deserialize value = inr single →
  completionOf (JsonRpcType Document_Parse Response_deserialize) context
  = (true, Data (SingleResponse single))
  ∧ step (Completed h
            (completionOf (JsonRpcType Document_Parse Response_deserialize) context).1
            (JsonRpcResult
               (completionOf (JsonRpcType Document_Parse Response_deserialize) context).2)
            dialog token) w
    = Some (completed h w)
  ∧ delivered (completed h w) = delivered w
  ∧ sent (pool (completed h w)) = sent (pool w)
  ∧ refreshCalls (completed h w) = refreshCalls w
  ∧ ∀ success' r' dialog' token',
      step (Completed h success' r' dialog' token') (completed h w)
      = Some (completed h w).
Proof.
  intros Hal Hin Hcb Hstatus Hos Hdoc Hvalue.
  assert (completionOf (JsonRpcType Document_Parse Response_deserialize) context
          = (true, Data (SingleResponse single))) as Hcompletion.
  { unfold executeRequest_completion. rewrite Hstatus, Hos.
    change 200 with StatusCode_ok. rewrite parseMessageBody_ok. simpl.
    unfold deserialize. by rewrite Hdoc, Hvalue. }
  split; [exact Hcompletion|]. rewrite Hcompletion. cbn [fst snd].
  destruct (completed_fields h w) as ((_ & _ & _ & Hrc & _) & Hd & Hdl & Hp).
  split.
  { rewrite step_Completed. unfold complete. rewrite Hal, Hin. simpl.
    unfold sessionAwareCallback. simpl. rewrite Hcb. reflexivity. }
  split; [exact Hdl|]. split; [by rewrite Hp|]. split; [exact Hrc|].
  intros success' r' dialog' token'. rewrite step_Completed.
  apply complete_absent. rewrite Hp. simpl. apply lookup_delete_eq.
Qed.

End RepliesProperties.

End Broker.

(** * The properties on concrete inputs *)

Abbreviation stepS :=
  (step sampleDeserialize sampleDeserialize sampleSerializeResult
     sampleSerializeRequests sampleToSimpleString sampleToLower).
Abbreviation runS :=
  (run sampleDeserialize sampleDeserialize sampleSerializeResult
     sampleSerializeRequests sampleToSimpleString sampleToLower).

(** C1.  Single-flight reauthorization on a connection made over the system
    context, which has no direct connection.  Two batches are sent with a
    credential source and accepted by the pool; the replies to both have
    session-expired items, the second arriving while the dialog of the first
    is open.  If [refreshToken] returns nothing, it has been called once and
    both issuers receive their result.  If it returns a token, the handler
    writes the token into the credentials of the direct connection, which
    does not exist: the round has no defined outcome, and no issuer is
    called. *)
Theorem reauthorization_without_direct_connection :
  directConnect (d sampleSiteWorld) = None
  ∧ ∃ w2,
      runS [SendBatch 7 sampleBatchRequests 5; SendBatch 7 sampleBatchRequests 6]
        sampleSiteWorld = Some w2
      ∧ map (λ c, c.1.1) (sent (pool w2)) = [1; 2]
      ∧ (∃ rq ctx, inFlight (pool w2) !! 1 = Some (rq, SessionAwareCallback ctx)
           ∧ isValid rq = true ∧ callback ctx = Some (BatchInternalCallback 5))
      ∧ (∃ rq ctx, inFlight (pool w2) !! 2 = Some (rq, SessionAwareCallback ctx)
           ∧ isValid rq = true ∧ callback ctx = Some (BatchInternalCallback 6))
      ∧ (∃ w',
           stepS (Completed 1 true sampleBatchReply
                    [Completed 2 true sampleBatchReply [] None] None) w2 = Some w'
           ∧ refreshCalls w' = [7%nat]
           ∧ map (λ dlv, (dlv_issuer dlv, dlv_handle dlv)) (delivered w')
             = [(5%nat, 1); (6%nat, 2)])
      ∧ stepS (Completed 1 true sampleBatchReply
                 [Completed 2 true sampleBatchReply [] None] (Some sampleToken)) w2
        = None.
Proof.
  split; [reflexivity|].
  eexists. split; [vm_compute; reflexivity|].
  split; [reflexivity|].
  split; [eexists; eexists; split; [reflexivity|split; reflexivity]|].
  split; [eexists; eexists; split; [reflexivity|split; reflexivity]|].
  split; [|vm_compute; reflexivity].
  eexists. split; [vm_compute; reflexivity|]. split; reflexivity.
Qed.

(** The sample state with two calls in flight is what two session-aware
    sends produce. *)
Example sampleBusyWorld_reachable :
  runS [Send (Some 7%nat) post (setPathQuery "/rest/v1/system" "" emptyUrl) "a"
          (Some (IssuerCallback 1)) None;
        Send (Some 7%nat) post (setPathQuery "/rest/v1/system" "" emptyUrl) "b"
          (Some (IssuerCallback 2)) None]
    sampleWorld
  = Some sampleBusyWorld.
Proof. vm_compute. reflexivity. Qed.

Lemma sampleBusyWorld_invariant : resendInvariant None sampleBusyWorld.
Proof.
  refine (run_resendInvariant sampleDeserialize sampleDeserialize sampleSerializeResult
            sampleSerializeRequests sampleToSimpleString sampleToLower
            _ sampleWorld _ _ sampleBusyWorld_reachable).
  by apply resendInvariant_initial.
Qed.

Lemma sampleBusyWorld_expired :
  Forall (expiredInFlight sampleDeserialize sampleDeserialize 0 sampleBusyWorld)
    [sampleFirst; sampleSecond].
Proof.
  repeat constructor.
  - exists (sampleRequest "a"), (sampleContext 1 "a"). repeat split; reflexivity.
  - exists (sampleRequest "b"), (sampleContext 2 "b"). repeat split; reflexivity.
Qed.

Lemma sampleBusyWorld_handles : NoDup (map rr_handle [sampleFirst; sampleSecond]).
Proof. apply (bool_decide_unpack (NoDup _)). vm_compute. exact I. Qed.

Lemma sampleBusyWorld_canResend (t : AuthToken) :
  canResend sampleBusyWorld
  ∧ Forall (λ f, is_Some (fixedRequestOf sampleSerializeRequests f t))
      [sampleFirst; sampleSecond].
Proof.
  split.
  - split; [exists sampleDirect; split; reflexivity|reflexivity].
  - repeat constructor; eexists; reflexivity.
Qed.

(** X19 on two requests with a new token: one [refreshToken] call, both
    requests queued while it runs, both sent again afterwards. *)
Lemma single_flight_reauthorization_witness :
  ∃ wd w',
    runS [responseOf sampleSecond]
      (logRefresh 7 (enqueue sampleFirst (completed 1 sampleBusyWorld))) = Some wd
    ∧ storedRequests (d wd) = [sampleFirst; sampleSecond]
    ∧ stepS (Completed 1 false sampleExpired [responseOf sampleSecond]
               (Some sampleToken)) sampleBusyWorld = Some w'
    ∧ refreshCalls w' = [7%nat]
    ∧ storedRequests (d w') = []
    ∧ length (sent (pool w')) = 4%nat.
Proof.
  destruct (single_flight_reauthorization
              sampleDeserialize sampleDeserialize sampleSerializeResult
              sampleSerializeRequests sampleToSimpleString sampleToLower
              sampleBusyWorld sampleFirst [sampleSecond] (Some sampleToken))
    as (wd & w' & Hrun & Hqd & _ & _ & _ & _ & Hstep & Hrc & Hq & _ & Hsome).
  - reflexivity.
  - reflexivity.
  - reflexivity.
  - exact sampleBusyWorld_handles.
  - exact sampleBusyWorld_expired.
  - repeat constructor.
  - intros t _. apply sampleBusyWorld_canResend.
  - destruct (Hsome sampleToken eq_refl) as (_ & Hlen & _).
    exists wd, w'. repeat split; assumption.
Defined.

(** C2 on the first sample request, when its session-expired response has
    taken it out of the pool: it is sent again under handle 3, the failure
    of that resend is reported under handle 1, and handle 1 has this one
    resend. *)
Lemma resend_reports_original_handle_witness :
  ∃ w1 w3,
    retry sampleSerializeResult sampleSerializeRequests sampleFirst (Some sampleToken)
      (completed 1 sampleBusyWorld) = Some w1
    ∧ substitutions (d w1) !! 1 = Some 3
    ∧ stepS (Completed 3 false sampleExpired [] None) w1 = Some w3
    ∧ substitutions (d w3) !! 1 = None
    ∧ delivered w3 = [mkDelivery 1 false 1 (PayloadResult sampleExpired)]
    ∧ sent (pool w3) = sent (pool w1)
    ∧ resendsOf 1 w3
      = [(3, setCredentials (Some (setAuthToken sampleToken sampleCredentials))
               (sampleRequest "a"),
          FixedCallback (sampleContext 1 "a") 1)].
Proof.
  destruct (resend_reports_original_handle
              sampleDeserialize sampleDeserialize sampleSerializeResult
              sampleSerializeRequests sampleToSimpleString sampleToLower
              (completed 1 sampleBusyWorld) sampleFirst sampleToken
              (setCredentials (Some (setAuthToken sampleToken sampleCredentials))
                 (sampleRequest "a")))
    as (w1 & Hr & _ & _ & Hin & Hsub & Hd1 & Hone & Hdone).
  - reflexivity.
  - destruct (sampleBusyWorld_canResend sampleToken) as [Hcan _]. exact Hcan.
  - reflexivity.
  - reflexivity.
  - assert (alive w1 = true) as Hal1 by (injection Hr as <-; reflexivity).
    destruct (Hdone w1 false sampleExpired [] None Hal1 Hin)
      as (w3 & Hstep & _ & Hsub3 & Hd3 & _ & _ & Hsent3 & _).
    assert (runS [Completed 3 false sampleExpired [] None] w1 = Some w3) as Hrun.
    { change (runS [Completed 3 false sampleExpired [] None] w1)
        with (w' ← stepS (Completed (nextHandle (pool (completed 1 sampleBusyWorld)))
                            false sampleExpired [] None) w1;
              Some w').
      rewrite Hstep. reflexivity. }
    destruct (Hone (resendInvariant_completed 1 (sampleRequest "a")
                      (SessionAwareCallback (sampleContext 1 "a")) sampleBusyWorld
                      eq_refl sampleBusyWorld_invariant)
                _ _ Hrun) as [Hres _].
    exists w1, w3. repeat split; try assumption.
    rewrite Hd3, Hd1. reflexivity.
Defined.

(** C3 on the two sample requests: both issuers get their original failure
    and nothing is sent. *)
Lemma decline_delivers_original_responses_witness :
  ∃ w',
    stepS (Completed 1 false sampleExpired [responseOf sampleSecond] None)
      sampleBusyWorld = Some w'
    ∧ delivered w'
      = [mkDelivery 1 false 1 (PayloadResult sampleExpired);
         mkDelivery 2 false 2 (PayloadResult sampleExpired)]
    ∧ sent (pool w') = sent (pool sampleBusyWorld).
Proof.
  destruct (decline_delivers_original_responses
              sampleDeserialize sampleDeserialize sampleSerializeResult
              sampleSerializeRequests sampleToSimpleString sampleToLower
              sampleBusyWorld sampleFirst [sampleSecond])
    as (w' & Hstep & Hd & _ & _ & Hsent & _).
  - reflexivity.
  - reflexivity.
  - reflexivity.
  - exact sampleBusyWorld_handles.
  - exact sampleBusyWorld_expired.
  - exists w'. repeat split; assumption.
Defined.

(** C5 on the batch of three: items 1 and 3 are resent, item 2 keeps its
    response. *)
Lemma batch_partial_resend_witness :
  let ctx :=
    recordExpired sampleDeserialize sampleBatchContext true
      (JsonRpcResult (Data (ResponseArray sampleBatchResponse))) in
  ∃ w1 rq,
    retry sampleSerializeResult sampleSerializeRequests
      (mkResendRequestFunc ctx 1 true
         (JsonRpcResult (Data (ResponseArray sampleBatchResponse))))
      (Some sampleToken) sampleWorld = Some w1
    ∧ sent (pool w1)
      = [(1, rq,
          FixedCallback
            (recordExpired sampleDeserialize sampleBatchContext true
               (JsonRpcResult (Data (ResponseArray sampleBatchResponse)))) 1)]
    ∧ messageBody rq = "1,3"%string
    ∧ map (mergedItem [sampleOkItem (IdInt 3) "three"; sampleOkItem (IdInt 1) "one"])
        sampleBatchResponse
      = [sampleOkItem (IdInt 1) "one"; sampleOkItem (IdInt 2) "two";
         sampleOkItem (IdInt 3) "three"].
Proof.
  intros ctx.
  destruct (batch_partial_resend
              sampleDeserialize sampleDeserialize sampleSerializeResult
              sampleSerializeRequests sampleToSimpleString sampleToLower
              sampleWorld sampleBatchContext 1 sampleBatchResponse sampleToken 5)
    as (_ & _ & w1 & rq & Hr & Hsent & Hbody & _).
  - reflexivity.
  - split; [exists sampleDirect; split; reflexivity|reflexivity].
  - eexists. reflexivity.
  - reflexivity.
  - exists w1, rq. split; [exact Hr|]. split; [exact Hsent|].
    split; [rewrite Hbody; vm_compute; reflexivity|reflexivity].
Defined.

(** C6 on the resend of that batch, failing with "forbidden". *)
Lemma failed_resend_is_delivered_witness :
  let failure := mkRestResult (ErrorId.other 4) "forbidden" in
  ∃ w3,
    stepS (Completed 2 false (JsonRpcResult (Unexpected failure)) [] None)
      sampleResendWorld = Some w3
    ∧ delivered w3
      = [mkDelivery 5 true 1
           (PayloadBatch
              [makeError sampleSerializeResult (IdInt 1) applicationError "forbidden" failure;
               sampleOkItem (IdInt 2) "two";
               makeError sampleSerializeResult (IdInt 3) applicationError "forbidden" failure])]
    ∧ substitutions (d w3) !! 1 = None.
Proof.
  intros failure.
  destruct (failed_resend_is_delivered
              sampleDeserialize sampleDeserialize sampleSerializeResult
              sampleSerializeRequests sampleToSimpleString sampleToLower
              sampleResendWorld sampleBatchStored 1 2 (sampleRequest "1,3") 5 failure
              false [] None)
    as (_ & w3 & Hstep & Hd & Hsub & _).
  - reflexivity.
  - reflexivity.
  - reflexivity.
  - exists w3. split; [exact Hstep|]. split; [exact Hd|].
    rewrite Hsub. reflexivity.
Defined.

(** C7 on failed calls: a body that is not a server error, and a body with
    the error id [sessionRequired]. *)
Lemma expired_classification_of_single_response_witness :
  requestNewSession sampleDeserialize sampleDeserialize false
    (BytesResult "<html>502</html>" []) = Some false
  ∧ requestNewSession sampleDeserialize sampleDeserialize false
      (BytesResult "{required}" []) = Some true.
Proof.
  destruct (expired_classification_of_single_response
              sampleDeserialize sampleDeserialize sampleSerializeResult
              sampleSerializeRequests
              (dialogOf sampleDeserialize sampleDeserialize sampleSerializeResult
                 sampleSerializeRequests sampleToSimpleString sampleToLower [] None)
              (sampleContext 1 "a") 1 false (BytesResult "<html>502</html>" [])
              sampleBusyWorld I)
    as (_ & _ & Hbody).
  split; [|reflexivity].
  by destruct (Hbody "<html>502</html>"%string [] eq_refl eq_refl).
Defined.

(** C8 on the two sample requests: after the round the current session is
    the new cell 1, unset, and the cell 0 holds the token. *)
Lemma fresh_session_after_resolution_witness :
  ∃ w',
    stepS (Completed 1 false sampleExpired [responseOf sampleSecond]
             (Some sampleToken)) sampleBusyWorld = Some w'
    ∧ reissuedToken (d w') = 1%nat
    ∧ tokens w' !! 0%nat = Some (setValue (Some sampleToken) newReissuedToken)
    ∧ tokens w' !! 1%nat = Some newReissuedToken.
Proof.
  destruct (fresh_session_after_resolution
              sampleDeserialize sampleDeserialize sampleSerializeResult
              sampleSerializeRequests sampleToSimpleString sampleToLower
              sampleBusyWorld sampleFirst [sampleSecond] (Some sampleToken))
    as (w' & Hstep & _ & Hold & Hc & _ & Hnew & _).
  - reflexivity.
  - reflexivity.
  - reflexivity.
  - exact sampleBusyWorld_handles.
  - exact sampleBusyWorld_expired.
  - intros t _. apply sampleBusyWorld_canResend.
  - exists w'. split; [exact Hstep|]. split; [exact Hc|].
    split; [exact Hold|]. rewrite Hc in Hnew. exact Hnew.
Defined.

(** C10 on password credentials: they are not stored; bearer credentials
    are. *)
Lemma updateCredentials_bearer_only_witness :
  stepS (Update samplePassword) sampleWorld = Some sampleWorld
  ∧ stepS (Update (mkCredentials "admin" sampleToken)) sampleWorld
    = Some (setD (setDirectConnect
                    (Some (mkDirectConnect true (mkSocketAddress "server" 7001)
                             (mkCredentials "admin" sampleToken)))
                    samplePrivate) sampleWorld).
Proof.
  destruct (updateCredentials_bearer_only
              sampleDeserialize sampleDeserialize sampleSerializeResult
              sampleSerializeRequests sampleToSimpleString sampleToLower
              samplePassword sampleWorld sampleDirect eq_refl)
    as (w' & dc' & Hstep & _ & _ & _ & _ & Hsame & _).
  split; [|reflexivity].
  rewrite Hstep, (Hsame eq_refl). reflexivity.
Defined.

(** ** Counterexamples to the claims as stated *)

(** C5: the original item without id is not replaced by the resent item
    without id, although the two ids are equal. *)
Lemma batch_merge_null_id_counterexample :
  ¬ replacesEveryMatch sampleNullOriginal sampleNullResent
      (snd (mergeJsonRpcResults sampleDeserialize sampleSerializeResult
              sampleNullOriginal (Data (ResponseArray sampleNullResent)))).
Proof.
  intros H. vm_compute in H.
  apply Forall2_cons_1 in H as [_ H].
  apply Forall2_cons_1 in H as [[H _] _].
  specialize (H _ eq_refl). discriminate H.
Qed.

(** C7: a call reported as successful whose body carries the error id
    [sessionExpired] is not classified as expired. *)
Lemma successful_reply_counterexample :
  ¬ classifiedByErrorIdAlone sampleDeserialize sampleDeserialize true
      (BytesResult "{expired}" []).
Proof.
  intros H. destruct (H ErrorId.sessionExpired eq_refl) as [_ H'].
  specialize (H' (or_introl eq_refl)). discriminate H'.
Qed.

(** C8: after the session of the first request has resolved, the
    session-expired response of the second request, issued before, does not
    make the broker call [refreshToken] again. *)
Lemma late_expiry_counterexample :
  ∃ w,
    stepS (Completed 1 false sampleExpired [] (Some sampleToken)) sampleBusyWorld
    = Some w
    ∧ ¬ everyLaterExpiryRefreshes sampleDeserialize sampleDeserialize
          sampleSerializeResult sampleSerializeRequests sampleToSimpleString
          sampleToLower w.
Proof.
  eexists. split; [vm_compute; reflexivity|].
  intros H.
  match type of H with
  | everyLaterExpiryRefreshes _ _ _ _ _ _ ?w =>
      assert (∃ w', stepS (Completed 2 false sampleExpired [] None) w = Some w'
                    ∧ refreshCalls w' = [7%nat]) as (w' & Hstep & Hrc)
  end.
  { eexists. split; [vm_compute; reflexivity|reflexivity]. }
  specialize (H 2 (sampleRequest "b") (sampleContext 2 "b") false sampleExpired
                [] None w' eq_refl eq_refl Hstep).
  rewrite Hrc in H. discriminate H.
Qed.

(** * The further properties on concrete inputs *)

(** Two session-aware requests are sent; both replies are session-expired,
    the second arriving while the dialog of the first is open; a token is
    returned; the first resend succeeds and the second fails again. *)
Definition sampleRoundEvents : list Event :=
  [Send (Some 7%nat) post (setPathQuery "/rest/v1/system" "" emptyUrl) "a"
     (Some (IssuerCallback 1)) None;
   Send (Some 7%nat) post (setPathQuery "/rest/v1/system" "" emptyUrl) "b"
     (Some (IssuerCallback 2)) None;
   Completed 1 false sampleExpired [responseOf sampleSecond] (Some sampleToken);
   Completed 3 true (GenericResult (Data "done"%string)) [] None;
   Completed 4 false sampleExpired [] None].

Lemma sampleWorld_callbackInvariant : callbackInvariant None sampleWorld.
Proof. by apply callbackInvariant_initial. Qed.

Lemma callback_called_at_most_once_witness :
  ∃ w', runS sampleRoundEvents sampleWorld = Some w'
    ∧ map dlv_handle (delivered w') = [1; 2]
    ∧ (length (deliveredTo 1 (delivered w')) ≤ 1)%nat.
Proof.
  eexists. split; [vm_compute; reflexivity|]. split; [reflexivity|].
  refine (callback_called_at_most_once
            sampleDeserialize sampleDeserialize sampleSerializeResult
            sampleSerializeRequests sampleToSimpleString sampleToLower
            sampleRoundEvents sampleWorld _ sampleWorld_callbackInvariant _ 1).
  vm_compute. reflexivity.
Defined.

Lemma callback_handle_was_issued_witness :
  ∃ w' dlv, runS sampleRoundEvents sampleWorld = Some w'
    ∧ delivered w' = [mkDelivery 1 true 1 (PayloadResult (GenericResult (Data "done"%string))); dlv]
    ∧ map (λ c, c.1.1) (sent (pool w')) = [1; 2; 3; 4]
    ∧ dlv_handle dlv < nextHandle (pool w')
    ∧ ∀ rq ctx originalHandle,
        (dlv_handle dlv, rq, FixedCallback ctx originalHandle) ∉ sent (pool w').
Proof.
  eexists. eexists. split; [vm_compute; reflexivity|]. split; [reflexivity|].
  split; [reflexivity|].
  match goal with
  | |- dlv_handle ?dlv < nextHandle (pool ?w') ∧ _ =>
      destruct (callback_handle_was_issued
                  sampleDeserialize sampleDeserialize sampleSerializeResult
                  sampleSerializeRequests sampleToSimpleString sampleToLower
                  sampleRoundEvents sampleWorld w' dlv sampleWorld_callbackInvariant
                  ltac:(vm_compute; reflexivity) ltac:(right; left))
        as (_ & Hnot & Hlt)
  end.
  split; [exact Hlt|exact Hnot].
Defined.

(** X3 on the sample state with two calls in flight, after the connection
    has been destroyed: their replies and a cancellation call nobody. *)
Lemma destroyed_connection_is_inert_witness :
  ∃ w', runS [Completed 1 false sampleExpired [] None; Cancel 2;
              Completed 2 true (GenericResult (Data "done"%string)) [] None]
          (setAlive false sampleBusyWorld) = Some w'
    ∧ delivered w' = []
    ∧ refreshCalls w' = [].
Proof.
  eexists. split; [vm_compute; reflexivity|].
  match goal with
  | |- delivered ?w' = _ ∧ _ =>
      destruct (destroyed_connection_is_inert
                  sampleDeserialize sampleDeserialize sampleSerializeResult
                  sampleSerializeRequests sampleToSimpleString sampleToLower
                  [Completed 1 false sampleExpired [] None; Cancel 2;
                   Completed 2 true (GenericResult (Data "done"%string)) [] None]
                  (setAlive false sampleBusyWorld) w' eq_refl
                  ltac:(vm_compute; reflexivity))
        as (_ & Hdl & Hrc & _)
  end.
  split; [exact Hdl|exact Hrc].
Defined.

(** X4 on the two sample requests: the connection is destroyed in the
    dialog after the second reply has arrived; the token returned is not
    used. *)
Lemma destruction_abandons_round_witness :
  ∃ wd,
    stepS (Completed 1 false sampleExpired [responseOf sampleSecond; Destroy]
             (Some sampleToken)) sampleBusyWorld = Some wd
    ∧ alive wd = false
    ∧ storedRequests (d wd) = [sampleFirst; sampleSecond]
    ∧ delivered wd = []
    ∧ sent (pool wd) = sent (pool sampleBusyWorld)
    ∧ tokens wd = [newReissuedToken].
Proof.
  eexists.
  match goal with
  | |- _ = Some ?wd ∧ _ =>
      destruct (destruction_abandons_round
                  sampleDeserialize sampleDeserialize sampleSerializeResult
                  sampleSerializeRequests sampleToSimpleString sampleToLower
                  sampleBusyWorld sampleFirst [responseOf sampleSecond; Destroy]
                  (Some sampleToken) wd)
        as (Hstep & _)
  end.
  - reflexivity.
  - reflexivity.
  - reflexivity.
  - exists (sampleRequest "a"), (sampleContext 1 "a"). repeat split; reflexivity.
  - vm_compute. reflexivity.
  - reflexivity.
  - split; [exact Hstep|]. repeat split; reflexivity.
Defined.

(** X5 on the sample round: when the five events have been handled the
    queue is empty. *)
Lemma no_request_left_waiting_witness :
  ∃ w', runS sampleRoundEvents sampleWorld = Some w'
    ∧ alive w' = true
    ∧ storedRequests (d w') = [].
Proof.
  eexists. split; [vm_compute; reflexivity|]. split; [reflexivity|].
  match goal with
  | |- storedRequests (d ?w') = [] =>
      exact (no_request_left_waiting
               sampleDeserialize sampleDeserialize sampleSerializeResult
               sampleSerializeRequests sampleToSimpleString sampleToLower
               sampleRoundEvents sampleWorld w' eq_refl
               ltac:(vm_compute; reflexivity) eq_refl)
  end.
Defined.

(** X6 on the two sample requests: the second one is cancelled while the
    dialog is open.  Without a token its issuer is called nevertheless; with
    a token it is sent again. *)
Lemma cancelRequest_keeps_queued_request_witness :
  (∃ w',
     stepS (Completed 1 false sampleExpired [responseOf sampleSecond; Cancel 2] None)
       sampleBusyWorld = Some w'
     ∧ terminated (pool w') = [2]
     ∧ delivered w'
       = [mkDelivery 1 false 1 (PayloadResult sampleExpired);
          mkDelivery 2 false 2 (PayloadResult sampleExpired)])
  ∧ ∃ w',
      stepS (Completed 1 false sampleExpired [responseOf sampleSecond; Cancel 2]
               (Some sampleToken))
        sampleBusyWorld = Some w'
      ∧ delivered w' = []
      ∧ map (λ c, c.1.1) (sent (pool w')) = [1; 2; 3; 4].
Proof.
  destruct (cancelRequest_keeps_queued_request
              sampleDeserialize sampleDeserialize sampleSerializeResult
              sampleSerializeRequests sampleToSimpleString sampleToLower
              sampleBusyWorld sampleFirst [sampleSecond] sampleSecond)
    as (_ & (w0 & Hstep0 & _ & Hdl0 & _) & Htoken & _).
  - reflexivity.
  - reflexivity.
  - reflexivity.
  - exact sampleBusyWorld_handles.
  - exact sampleBusyWorld_expired.
  - right. left.
  - split.
    + exists w0. split; [exact Hstep0|]. split; [|exact Hdl0].
      vm_compute in Hstep0. injection Hstep0 as <-. reflexivity.
    + destruct (Htoken sampleToken (proj1 (sampleBusyWorld_canResend sampleToken))
                  (proj2 (sampleBusyWorld_canResend sampleToken)))
        as (w' & Hstep & _ & Hdl & Hsent & _).
      exists w'. split; [exact Hstep|]. split; [exact Hdl|].
      rewrite Hsent. reflexivity.
Defined.

(** A batch of three requests in flight under handle 1. *)
Definition sampleBatchWorld : World :=
  mkWorld true samplePrivate [newReissuedToken]
    (mkClientPool 2
       {[ 1 := (sampleRequest "[1,2,3]", SessionAwareCallback sampleBatchContext) ]}
       [(1, sampleRequest "[1,2,3]", SessionAwareCallback sampleBatchContext)] [])
    sampleApp [] [].

(** X8 on that batch: the reply is one error object. *)
Lemma batch_single_response_calls_nobody_witness :
  stepS (Completed 1 true
           (JsonRpcResult (Data (SingleResponse (sampleExpiredItem IdNull)))) [] None)
    sampleBatchWorld
  = Some (completed 1 sampleBatchWorld)
  ∧ delivered (completed 1 sampleBatchWorld) = []
  ∧ inFlight (pool (completed 1 sampleBatchWorld)) !! 1 = None.
Proof.
  destruct (batch_single_response_calls_nobody
              sampleDeserialize sampleDeserialize sampleSerializeResult
              sampleSerializeRequests sampleToSimpleString sampleToLower
              sampleBatchWorld 1 (sampleRequest "[1,2,3]") sampleBatchContext 5
              (sampleExpiredItem IdNull) [] None)
    as (Hstep & Hdl & _).
  - reflexivity.
  - reflexivity.
  - reflexivity.
  - split; [exact Hstep|]. split; [exact Hdl|reflexivity].
Defined.

(** X10: a request sent on the sample connection gets the handle 1 and is
    in flight; on the connection whose server is unknown nothing is
    dispatched and the handle is null. *)
Lemma nonnull_handle_is_in_flight_witness :
  (∃ w' rq c,
     sendRequestWithHelper sampleToSimpleString sampleToLower (Some 7%nat) post
       (setPathQuery "/rest/v1/system" "" emptyUrl) "a" (Some (IssuerCallback 1)) None
       sampleWorld = Some (1, w')
     ∧ inFlight (pool w') = <[ 1 := (rq, c) ]> (inFlight (pool sampleWorld)))
  ∧ ∃ h,
      sendRequestWithHelper sampleToSimpleString sampleToLower (Some 7%nat) post
        (setPathQuery "/rest/v1/system" "" emptyUrl) "a" (Some (IssuerCallback 1)) None
        sampleRemoteWorld = Some (h, sampleRemoteWorld)
      ∧ h = nullHandle.
Proof.
  split.
  - destruct (nonnull_handle_is_in_flight sampleSerializeRequests sampleToSimpleString
                sampleToLower sampleWorld) as [Hsend _].
    eexists.
    destruct (Hsend (Some 7%nat) post (setPathQuery "/rest/v1/system" "" emptyUrl)
                "a"%string (Some (IssuerCallback 1)) None 1 _ eq_refl)
      as (_ & Hsent).
    destruct (Hsent ltac:(discriminate)) as (_ & _ & _ & rq & c & _ & Hin & _).
    exists rq, c. split; [reflexivity|exact Hin].
  - destruct (nonnull_handle_is_in_flight sampleSerializeRequests sampleToSimpleString
                sampleToLower sampleRemoteWorld) as [Hsend _].
    exists 0.
    destruct (Hsend (Some 7%nat) post (setPathQuery "/rest/v1/system" "" emptyUrl)
                "a"%string (Some (IssuerCallback 1)) None 0 sampleRemoteWorld eq_refl)
      as (Hnull & _).
    split; [reflexivity|exact (Hnull eq_refl)].
Defined.

(** X11 on the two sample requests: in the state in which the round ends,
    a prepared request carries the fresh token. *)
Lemma round_token_reaches_prepared_requests_witness :
  ∃ w',
    stepS (Completed 1 false sampleExpired [responseOf sampleSecond] (Some sampleToken))
      sampleBusyWorld = Some w'
    ∧ credentials
        (prepareRequest sampleToSimpleString sampleToLower w' get
           (setPathQuery "/rest/v1/system" "" emptyUrl) "" "")
      = Some (mkCredentials "admin" sampleToken).
Proof.
  destruct (round_token_reaches_prepared_requests
              sampleDeserialize sampleDeserialize sampleSerializeResult
              sampleSerializeRequests sampleToSimpleString sampleToLower
              sampleBusyWorld sampleFirst [sampleSecond] sampleToken)
    as (w' & Hstep & _).
  - reflexivity.
  - reflexivity.
  - reflexivity.
  - exact sampleBusyWorld_handles.
  - exact sampleBusyWorld_expired.
  - apply (sampleBusyWorld_canResend sampleToken).
  - apply (sampleBusyWorld_canResend sampleToken).
  - exists w'. split; [exact Hstep|].
    vm_compute in Hstep. injection Hstep as <-. reflexivity.
Defined.

(** X17 on the sample round: after the round the first session holds the
    token, and the replies to the two resends leave it there. *)
Lemma resolved_session_is_final_witness :
  ∃ w1 w',
    runS (take 3 sampleRoundEvents) sampleWorld = Some w1
    ∧ tokens w1 !! 0%nat = Some (setValue (Some sampleToken) newReissuedToken)
    ∧ runS (drop 3 sampleRoundEvents) w1 = Some w'
    ∧ tokenHasValue 0 w' = true
    ∧ tokenValue' 0 w' = Some sampleToken.
Proof.
  eexists. eexists. split; [vm_compute; reflexivity|]. split; [reflexivity|].
  match goal with
  | |- runS _ ?w = Some _ ∧ _ => set (w1 := w)
  end.
  split; [vm_compute; reflexivity|].
  match goal with
  | |- tokenHasValue 0 ?w' = true ∧ _ =>
      destruct (resolved_session_is_final
                  sampleDeserialize sampleDeserialize sampleSerializeResult
                  sampleSerializeRequests sampleToSimpleString sampleToLower
                  (drop 3 sampleRoundEvents) w1 w' 0%nat
                  (setValue (Some sampleToken) newReissuedToken)
                  ltac:(vm_compute; reflexivity) eq_refl ltac:(vm_compute; reflexivity))
        as (_ & Hset & Hvalue)
  end.
  split; [exact Hset|exact Hvalue].
Defined.

(** X18 on the sample round: the broker ends with a second session, which
    has no value. *)
Lemma current_session_stays_unset_witness :
  ∃ w', runS sampleRoundEvents sampleWorld = Some w'
    ∧ reissuedToken (d w') = 1%nat
    ∧ currentSessionUnset w'.
Proof.
  eexists. split; [vm_compute; reflexivity|]. split; [reflexivity|].
  match goal with
  | |- currentSessionUnset ?w' =>
      destruct (current_session_stays_unset
                  sampleDeserialize sampleDeserialize sampleSerializeResult
                  sampleSerializeRequests sampleToSimpleString sampleToLower
                  sampleRoundEvents sampleWorld w' eq_refl
                  ltac:(vm_compute; reflexivity))
        as (Hunset & _)
  end.
  exact Hunset.
Defined.

(** ** Replies on sample parsers *)

(** Sample parsers: the body [{error}] is an object that deserializes to an
    error response, [[]] is the empty array, every other body is not
    JSON; [parseRestResult] reads the error of the body when there is one. *)
Definition sampleParse (json : string) : Document :=
  if String.eqb json "{error}" then DocObject "{error}"
  else if String.eqb json "[]" then DocArray []
  else DocParseError "Invalid value.".

Definition sampleResponseDeserialize (value : Json)
    : DeserializationError + JsonRpcResponse :=
  if String.eqb value "{error}" then inr (sampleExpiredItem IdNull)
  else inl (mkDeserializationError "Missing field" value (Some "jsonrpc"%string)).

Definition sampleParseRestResult (statusCode : Z) (format : SerializationFormat)
    (messageBody : string) : RestResult :=
  match sampleDeserialize messageBody with
  | Some result => result
  | None => mkRestResult ErrorId.ok ""
  end.

Definition sampleFormat (contentType : string) : SerializationFormat := FormatJson.

Definition sampleDefaultResult : RestResult := mkRestResult ErrorId.ok "".
Definition sampleNotImplemented : RestResult :=
  mkRestResult ErrorId.notImplemented "Not implemented".

(** X15 on the sample connection: the reply to the call 1 has the status 401
    and a body that says that the session has expired; the issuer is called
    with the value-initialized error and no token is requested. *)
Lemma typed_reply_never_opens_dialog_witness :
  executeRequest_completion sampleParseRestResult sampleFormat sampleDefaultResult
    sampleNotImplemented ByteArrayType (mkReply 401 0 "application/json" "{expired}")
  = (false, Unexpected sampleDefaultResult)
  ∧ ∃ w',
      stepS (Completed 1 false (GenericResult (Unexpected sampleDefaultResult)) [] None)
        sampleBusyWorld = Some w'
      ∧ delivered w'
        = [mkDelivery 1 false 1
             (PayloadResult (GenericResult (Unexpected sampleDefaultResult)))]
      ∧ refreshCalls w' = [].
Proof.
  split; [reflexivity|].
  destruct (typed_reply_never_opens_dialog
              sampleDeserialize sampleDeserialize sampleSerializeResult
              sampleSerializeRequests sampleToSimpleString sampleToLower
              sampleParseRestResult sampleFormat sampleDefaultResult sampleNotImplemented
              ByteArrayType (λ body, body)
              (mkReply 401 0 "application/json" "{expired}")
              sampleBusyWorld 1 (sampleRequest "a") (sampleContext 1 "a") [] None
              eq_refl eq_refl eq_refl eq_refl false (Unexpected sampleDefaultResult)
              eq_refl) as [_ Hdirect].
  destruct Hdirect as (w' & Hstep & _ & Hdelivered & Hrefresh & _).
  - intros (_ & Hstatus & _). discriminate Hstatus.
  - exists w'. split; [exact Hstep|]. split; [exact Hdelivered|exact Hrefresh].
Defined.

(** X16 on the sample batch: the reply has the status 200 and its body is
    one error object. *)
Lemma batch_reply_single_object_is_dropped_witness :
  stepS (Completed 1 true
           (JsonRpcResult (Data (SingleResponse (sampleExpiredItem IdNull)))) [] None)
    sampleBatchWorld
  = Some (completed 1 sampleBatchWorld)
  ∧ delivered (completed 1 sampleBatchWorld) = [].
Proof.
  destruct (batch_reply_single_object_is_dropped
              sampleDeserialize sampleDeserialize sampleSerializeResult
              sampleSerializeRequests sampleToSimpleString sampleToLower
              sampleParse sampleResponseDeserialize
              sampleParseRestResult sampleFormat sampleDefaultResult sampleNotImplemented
              (mkReply 200 0 "application/json" "{error}")
              sampleBatchWorld 1 (sampleRequest "[1,2,3]") sampleBatchContext 5
              "{error}" (sampleExpiredItem IdNull) [] None)
    as (_ & Hstep & Hdelivered & _).
  - reflexivity.
  - reflexivity.
  - reflexivity.
  - reflexivity.
  - reflexivity.
  - reflexivity.
  - reflexivity.
  - split; [exact Hstep|exact Hdelivered].
Defined.
